(** * WineFonts: the manifest compiler (build script) and the format script

    A shallow embedding of the two Node scripts of the repository:
    the build script, which compiles [fonts.json] into the distribution
    manifest and stages the binary assets, and [utils/format.js], which
    normalises the source catalog in place.

    Conventions of the embedding.
    - A JavaScript string is a [string]: a sequence of code units, compared
      with [<] and [>] code unit by code unit.
    - File contents are [list byte].
    - An object parsed from JSON is a record holding the attributes the
      scripts read and the remaining attributes in an association list;
      an attribute that is present has the type the format documents.
      In the first part ([Catalog], [Build], [Format]) the attributes the
      format documents for fonts, groups and installations ([id], [name],
      [shortName], [publisher], [categories], [installations], [fonts],
      [type]) are present; [files], [_localPath], [_url] and [download]
      may be absent, which is [None].  In [RawCatalog], [BuildRaw] and
      [FormatRaw] the arrays of the catalog, of a font and of a group may
      be absent as well, and iterating over or sorting an absent array
      throws; the two embeddings agree on a catalog that has its arrays
      ([build_of_catalog], [format_of_catalog]).  An object built by an
      object literal is the association list of its keys, in the
      literal's order.
    - [st_console] is what [console.log] has printed; what
      [console.error] prints when [main] rejects is the [exit_stderr] of
      [BuildRaw.script].
    - [Array.prototype.sort] is stable; it is embedded as the stable
      insertion sort driven by the comparator's sign, which is the result
      of every stable sort when the comparator is a consistent order.
    - The files the catalog refers to lie outside the output directory
      and do not change during a run.
    - The file system, the network, the UUID generator and the library
      functions ([path], [normalize-url], [crypto]) are the fields of an
      environment record [Env]; effects are threaded through an explicit
      state with exceptions. *)

From Stdlib Require Import List String Ascii Bool Arith ZArith NArith Lia.
From Stdlib Require Import Permutation Sorted.
From Stdlib.Strings Require Import Byte.
Import ListNotations.

Local Open Scope string_scope.
Local Open Scope list_scope.

(** ** JavaScript values used by both scripts *)

Module JS.

(** [a < b] on two strings. *)
Definition lt (a b : string) : bool := String.ltb a b.

(** [a > b] on two strings. *)
Definition gt (a b : string) : bool := String.ltb b a.

(** [a < b] where an operand may be [undefined]: a comparison with
    [undefined] is false. *)
Definition lt_u (a b : option string) : bool :=
  match a, b with
  | Some x, Some y => lt x y
  | _, _ => false
  end.

Definition gt_u (a b : option string) : bool := lt_u b a.

(** Truthiness of a string-or-undefined/null value: the empty string,
    [undefined] and [null] are falsy. *)
Definition truthy (v : option string) : bool :=
  match v with
  | Some s => negb (String.eqb s EmptyString)
  | None => false
  end.

(** [a || b] on strings. *)
Definition or_default (v : option string) (d : string) : string :=
  match v with
  | Some s => if String.eqb s EmptyString then d else s
  | None => d
  end.

Section Sort.
Context {A : Type}.
Variable cmp : A -> A -> Z.

(** Insertion of [x], which preceded every element of [l] in the
    array, into the sorted [l]: [x] passes the elements it is strictly
    greater than. *)
Fixpoint insert (x : A) (l : list A) : list A :=
  match l with
  | [] => [x]
  | y :: l' => if (0 <? cmp x y)%Z then y :: insert x l' else x :: l
  end.

(** [l.sort(cmp)] *)
Fixpoint sort (l : list A) : list A :=
  match l with
  | [] => []
  | x :: l' => insert x (sort l')
  end.
End Sort.

(** The comparator of [l.sort()] on an array of strings. *)
Definition defaultCompare (a b : string) : Z :=
  if lt a b then (-1)%Z else if gt a b then 1%Z else 0%Z.

(** [l.sort()] on an array of strings. *)
Definition sortStrings (l : list string) : list string :=
  sort defaultCompare l.

End JS.

(** ** The catalog *)

(** An attribute the scripts never read: its name and the JSON text of
    its value. *)
Definition Attr : Type := (string * string)%type.

(** An installation object.  [_localPath], [_url] and [download] may be
    absent; [files] is read for the [cabextract] type only. *)
Record Installation : Type := mkInstallation {
  inst_type : string;
  inst_files : option (list string);
  inst_localPath : option string;
  inst_url : option string;
  inst_download : option string;
  inst_extra : list Attr
}.

Record Font : Type := mkFont {
  font_id : string;
  font_name : string;
  font_shortName : string;
  font_publisher : string;
  font_categories : list string;
  font_installations : list Installation;
  font_extra : list Attr
}.

Record Group : Type := mkGroup {
  group_name : string;
  group_fonts : list string;
  group_extra : list Attr
}.

(** The parsed [fonts.json]. *)
Record Catalog : Type := mkCatalog {
  cat_fonts : list Font;
  cat_groups : list Group;
  cat_extra : list Attr
}.

(** Values of the attributes of a font object built by [font]. *)
Inductive Value : Type :=
| VStr (s : string)
| VStrs (l : list string)
| VInsts (l : list Installation).

(** An object built by an object literal. *)
Definition Obj : Type := list (string * Value).

Definition keys {V : Type} (o : list (string * V)) : list string :=
  map fst o.

Fixpoint get {V : Type} (k : string) (o : list (string * V)) : option V :=
  match o with
  | [] => None
  | (k', v) :: o' => if String.eqb k k' then Some v else get k o'
  end.

(** ** Exceptions and state *)

Inductive Error : Type :=
| FetchError (url : string)     (* the request itself failed *)
| StreamError                   (* the response body emitted [error] *)
| IOError (path : string)       (* a [fs] call threw *)
| TypeError                     (* a method was called on [undefined] *)
| InvalidURL (url : string).    (* [normalizeUrl] threw *)

Inductive Result (A : Type) : Type :=
| Ok (a : A)
| Throw (e : Error).
Arguments Ok {A} a.
Arguments Throw {A} e.

(** A computation over a state [S] that may throw; the state reached is
    kept in both cases. *)
Definition M (S A : Type) : Type := S -> Result A * S.

Definition ret {S A} (a : A) : M S A := fun s => (Ok a, s).

Definition throw {S A} (e : Error) : M S A := fun s => (Throw e, s).

Definition bind {S A B} (m : M S A) (k : A -> M S B) : M S B :=
  fun s =>
    match m s with
    | (Ok a, s') => k a s'
    | (Throw e, s') => (Throw e, s')
    end.

Definition gets {S A} (f : S -> A) : M S A := fun s => (Ok (f s), s).

Definition modify {S} (f : S -> S) : M S unit := fun s => (Ok tt, f s).

Declare Scope js_scope.
Delimit Scope js_scope with js.
Notation "x <- m ;; k" := (bind m (fun x => k))
  (at level 61, m at next level, right associativity) : js_scope.
Notation "m ;;; k" := (bind m (fun _ => k))
  (at level 61, right associativity) : js_scope.

(** [for (const x of l) { ... }] where the body replaces [x]. *)
Fixpoint forEach {S A B} (f : A -> M S B) (l : list A) : M S (list B) :=
  match l with
  | [] => ret []
  | x :: l' =>
      (y <- f x ;; ys <- forEach f l' ;; ret (y :: ys))%js
  end.

(** ** The build script *)

Module Build.

(** What [fetch(url)] settles to.  The promise rejects only when the
    request itself fails; a response with any status, 404 included,
    fulfils it.  [body] is what the body stream delivers and [complete]
    tells whether the stream ends normally or emits [error]. *)
Inductive FetchResult : Type :=
| Rejected
| Response (status : Z) (body : list byte) (complete : bool).

(** The world outside the script. *)
Record Env : Type := mkEnv {
  env_VERSION : option string;            (* process.env.VERSION *)
  env_URL_PREFIX : option string;         (* process.env.URL_PREFIX *)
  randomUUID : nat -> string;             (* the n-th UUID drawn *)
  normalize : string -> string;           (* path.normalize *)
  extname : string -> string;             (* path.extname *)
  normalizeUrl : string -> option string; (* None: it throws *)
  encodeURIComponent : string -> string;
  sha256 : list byte -> list byte;        (* the digest of createHash *)
  (* the file [join(cwd(), '..', localFile)] of the source tree, which
     lies outside the output directory; None: it cannot be read *)
  readSource : string -> option (list byte);
  fetch : string -> FetchResult
}.

(** The identity under which a download is registered: the fields
    [_type] with [_localFile] or [_url] of a registry entry. *)
Inductive Key : Type :=
| KLocalFile (_localFile : string)
| KUrl (_url : string).

Definition Key_eqb (a b : Key) : bool :=
  match a, b with
  | KLocalFile x, KLocalFile y => String.eqb x y
  | KUrl x, KUrl y => String.eqb x y
  | _, _ => false
  end.

(** An entry of the [downloads] array. *)
Record Download : Type := mkDownload {
  dl_id : string;
  dl_downloadURL : string;
  dl_fileSize : nat;
  dl_hash : string;
  dl_key : Key
}.

(** A download as written to the manifest: the object literal of the
    [map] over [downloads], which leaves [_type], [_localFile] and [_url]
    out. *)
Record DownloadOut : Type := mkDownloadOut {
  out_id : string;
  out_downloadURL : string;
  out_fileSize : nat;
  out_hash : string
}.

(** The manifest document. *)
Inductive DocValue : Type :=
| DString (s : string)
| DDownloads (l : list DownloadOut)
| DFonts (l : list Obj).

Definition Doc : Type := list (string * DocValue).

Inductive File : Type :=
| Binary (content : list byte)
| Json (doc : Doc).                 (* the text of JSON.stringify doc *)

(** A directory: file names and contents. *)
Definition Dir : Type := list (string * File).

Fixpoint writeFile (name : string) (f : File) (d : Dir) : Dir :=
  match d with
  | [] => [(name, f)]
  | (n, g) :: d' =>
      if String.eqb n name then (n, f) :: d' else (n, g) :: writeFile name f d'
  end.

(** A reference the resolver was run on (bookkeeping of the model). *)
Inductive Ref : Type :=
| RLocal (localFile : string)
| RUrl (url : string).

Record State : Type := mkState {
  st_outDir : option Dir;          (* ../dist, None when it does not exist *)
  st_temp : list (nat * Dir);      (* directories made by mkdtempSync *)
  st_tempCount : nat;              (* number of mkdtempSync calls so far *)
  st_downloads : list Download;    (* const downloads = [] *)
  st_uuids : nat;                  (* number of UUIDs drawn so far *)
  st_console : list string;        (* console.log *)
  st_resolved : list Ref           (* resolver runs, oldest first *)
}.

Definition set_outDir (d : option Dir) (s : State) : State :=
  mkState d (st_temp s) (st_tempCount s) (st_downloads s) (st_uuids s)
          (st_console s) (st_resolved s).

Definition set_temp (t : list (nat * Dir)) (s : State) : State :=
  mkState (st_outDir s) t (st_tempCount s) (st_downloads s) (st_uuids s)
          (st_console s) (st_resolved s).

Definition set_tempCount (n : nat) (s : State) : State :=
  mkState (st_outDir s) (st_temp s) n (st_downloads s) (st_uuids s)
          (st_console s) (st_resolved s).

Definition set_downloads (l : list Download) (s : State) : State :=
  mkState (st_outDir s) (st_temp s) (st_tempCount s) l (st_uuids s)
          (st_console s) (st_resolved s).

Definition set_uuids (n : nat) (s : State) : State :=
  mkState (st_outDir s) (st_temp s) (st_tempCount s) (st_downloads s) n
          (st_console s) (st_resolved s).

Definition set_console (l : list string) (s : State) : State :=
  mkState (st_outDir s) (st_temp s) (st_tempCount s) (st_downloads s)
          (st_uuids s) l (st_resolved s).

Definition set_resolved (l : list Ref) (s : State) : State :=
  mkState (st_outDir s) (st_temp s) (st_tempCount s) (st_downloads s)
          (st_uuids s) (st_console s) l.

(** [digest('hex')]: two lowercase hexadecimal digits per byte. *)
Definition hexDigit (n : N) : ascii :=
  if (n <? 10)%N then ascii_of_N (48 + n) else ascii_of_N (87 + n).

Fixpoint hex (bs : list byte) : string :=
  match bs with
  | [] => EmptyString
  | b :: bs' =>
      let n := Byte.to_N b in
      String (hexDigit (n / 16)) (String (hexDigit (n mod 16)) (hex bs'))
  end.

Section Script.
Variable env : Env.

Local Open Scope js_scope.

Definition version : string := JS.or_default (env_VERSION env) "0.0.0".

Definition urlPrefix : string :=
  JS.or_default (env_URL_PREFIX env) "https://example.com/".

Definition generateUUID : M State string :=
  n <- gets st_uuids ;;
  modify (set_uuids (S n)) ;;;
  ret (randomUUID env n).

(** The clearing of the output directory at the start of [main]: made
    when absent, removed and made again when present. *)
Definition clearOutDir : M State unit :=
  d <- gets st_outDir ;;
  match d with
  | None => modify (set_outDir (Some []))
  | Some _ => modify (set_outDir None) ;;; modify (set_outDir (Some []))
  end.

(** [computeFileHash] on the bytes read from the file. *)
Definition computeFileHash (content : list byte) : string :=
  hex (sha256 env content).

Definition sortByDownloadID (a b : Installation) : Z :=
  if JS.lt (inst_type a) (inst_type b) then (-1)%Z
  else if JS.gt (inst_type a) (inst_type b) then 1%Z
  else if JS.lt_u (inst_download a) (inst_download b) then (-1)%Z
  else if JS.gt_u (inst_download a) (inst_download b) then 1%Z
  else 0%Z.

Definition sortByName (a b : Font) : Z :=
  if JS.lt (font_name a) (font_name b) then (-1)%Z
  else if JS.gt (font_name a) (font_name b) then 1%Z
  else 0%Z.

Definition font (i : Font) : Obj :=
  [ ("id", VStr (font_id i));
    ("name", VStr (font_name i));
    ("shortName", VStr (font_shortName i));
    ("publisher", VStr (font_publisher i));
    ("categories", VStrs (JS.sortStrings (font_categories i)));
    ("installations",
      VInsts (JS.sort sortByDownloadID (font_installations i))) ].

(** The loop of [downloadExistsLocalFile] over the registry. *)
Fixpoint downloadExistsLocalFile_loop (localFile : string)
    (ds : list Download) : option string :=
  match ds with
  | [] => None
  | d :: ds' =>
      match dl_key d with
      | KLocalFile f =>
          if String.eqb f (normalize env localFile) then Some (dl_id d)
          else downloadExistsLocalFile_loop localFile ds'
      | KUrl _ => downloadExistsLocalFile_loop localFile ds'
      end
  end.

Definition downloadExistsLocalFile (localFile : string)
  : M State (option string) :=
  ds <- gets st_downloads ;;
  ret (downloadExistsLocalFile_loop localFile ds).

(** The loop of [downloadExistsURL]: [normalizeUrl(url)] is evaluated at
    every entry of type [url], and throws when [url] is not a URL. *)
Fixpoint downloadExistsURL_loop (url : string) (ds : list Download)
  : Result (option string) :=
  match ds with
  | [] => Ok None
  | d :: ds' =>
      match dl_key d with
      | KUrl u =>
          match normalizeUrl env url with
          | None => Throw (InvalidURL url)
          | Some n =>
              if String.eqb u n then Ok (Some (dl_id d))
              else downloadExistsURL_loop url ds'
          end
      | KLocalFile _ => downloadExistsURL_loop url ds'
      end
  end.

Definition downloadExistsURL (url : string) : M State (option string) :=
  fun s => (downloadExistsURL_loop url (st_downloads s), s).

(** [copyFileSync(localFilePath, outFilePath)] *)
Definition copyFileSync (localFile name : string) : M State unit :=
  fun s =>
    match readSource env localFile, st_outDir s with
    | Some content, Some d =>
        (Ok tt, set_outDir (Some (writeFile name (Binary content) d)) s)
    | _, _ => (Throw (IOError localFile), s)
    end.

(** [readFileSync] and [statSync] of a file of the source tree. *)
Definition readLocal (localFile : string) : M State (list byte) :=
  match readSource env localFile with
  | Some content => ret content
  | None => throw (IOError localFile)
  end.

Definition push (d : Download) : M State unit :=
  modify (fun s => set_downloads (st_downloads s ++ [d]) s).

Definition addLocalFileDownload (localFile : string) : M State string :=
  modify (fun s => set_resolved (st_resolved s ++ [RLocal localFile]) s) ;;;
  id <- generateUUID ;;
  let extension := extname env localFile in
  copyFileSync localFile (id ++ extension) ;;;
  stat <- readLocal localFile ;;
  content <- readLocal localFile ;;
  push {| dl_id := id;
          dl_downloadURL := urlPrefix ++ encodeURIComponent env (id ++ extension);
          dl_fileSize := List.length stat;
          dl_hash := computeFileHash content;
          dl_key := KLocalFile (normalize env localFile) |} ;;;
  ret id.

(** [mkdtempSync]: a new empty directory under the temporary directory. *)
Definition mkdtempSync : M State nat :=
  n <- gets st_tempCount ;;
  modify (set_tempCount (S n)) ;;;
  modify (fun s => set_temp (st_temp s ++ [(n, [])]) s) ;;;
  ret n.

Definition writeTemp (t : nat) (name : string) (content : list byte)
  : M State unit :=
  modify (fun s =>
    set_temp (map (fun e : nat * Dir =>
                     if Nat.eqb (fst e) t
                     then (fst e, writeFile name (Binary content) (snd e))
                     else e) (st_temp s)) s).

(** [rmSync(tempFolder, { recursive: true, force: true })] *)
Definition rmTemp (t : nat) : M State unit :=
  modify (fun s =>
    set_temp (filter (fun e : nat * Dir => negb (Nat.eqb (fst e) t))
                     (st_temp s)) s).

Definition consoleLog (msg : string) : M State unit :=
  modify (fun s => set_console (st_console s ++ [msg]) s).

Definition addURLDownload (url : string) : M State string :=
  modify (fun s => set_resolved (st_resolved s ++ [RUrl url]) s) ;;;
  tempFolder <- mkdtempSync ;;
  id <- generateUUID ;;
  match fetch env url with
  | Rejected =>
      consoleLog ("Failed to download file from URL: " ++ url) ;;;
      throw (FetchError url)
  | Response _ body complete =>
      writeTemp tempFolder "download" body ;;;
      if complete then
        match normalizeUrl env url with
        | None => throw (InvalidURL url)
        | Some n =>
            push {| dl_id := id;
                    dl_downloadURL := url;
                    dl_fileSize := List.length body;
                    dl_hash := computeFileHash body;
                    dl_key := KUrl n |} ;;;
            rmTemp tempFolder ;;;
            ret id
        end
      else throw StreamError
  end.

Definition set_download (d : string) (obj : Installation) : Installation :=
  mkInstallation (inst_type obj) (inst_files obj) (inst_localPath obj)
                 (inst_url obj) (Some d) (inst_extra obj).

(** The clean-up at the end of [addFromObject]: an attribute is deleted
    when its value is truthy. *)
Definition cleanUp (obj : Installation) : Installation :=
  mkInstallation (inst_type obj) (inst_files obj)
    (if JS.truthy (inst_localPath obj) then None else inst_localPath obj)
    (if JS.truthy (inst_url obj) then None else inst_url obj)
    (inst_download obj) (inst_extra obj).

Definition addFromObject (obj : Installation) : M State Installation :=
  let localPath := inst_localPath obj in
  let url := inst_url obj in
  obj' <-
    match localPath, url with
    | Some localPath, _ =>
        id <- downloadExistsLocalFile localPath ;;
        match id with
        | Some i =>
            if JS.truthy id then ret (set_download i obj)
            else d <- addLocalFileDownload localPath ;; ret (set_download d obj)
        | None =>
            d <- addLocalFileDownload localPath ;; ret (set_download d obj)
        end
    | None, Some url =>
        id <- downloadExistsURL url ;;
        match id with
        | Some i =>
            if JS.truthy id then ret (set_download i obj)
            else d <- addURLDownload url ;; ret (set_download d obj)
        | None =>
            d <- addURLDownload url ;; ret (set_download d obj)
        end
    | None, None => ret obj
    end ;;
  ret (cleanUp obj').

(** [installation.files = installation.files.sort()] under
    [case 'cabextract']. *)
Definition sortFiles (installation : Installation) : M State Installation :=
  if String.eqb (inst_type installation) "cabextract" then
    match inst_files installation with
    | Some files =>
        ret (mkInstallation (inst_type installation)
               (Some (JS.sortStrings files))
               (inst_localPath installation) (inst_url installation)
               (inst_download installation) (inst_extra installation))
    | None => throw TypeError
    end
  else ret installation.

Definition set_installations (l : list Installation) (f : Font) : Font :=
  mkFont (font_id f) (font_name f) (font_shortName f) (font_publisher f)
         (font_categories f) l (font_extra f).

(** The body of the outer loop of [main]. *)
Definition compileFont (f : Font) : M State Font :=
  installations <-
    forEach (fun installation =>
               i <- addFromObject installation ;; sortFiles i)
            (font_installations f) ;;
  ret (set_installations (JS.sort sortByDownloadID installations) f).

Definition downloadOut (download : Download) : DownloadOut :=
  {| out_id := dl_id download;
     out_downloadURL := dl_downloadURL download;
     out_fileSize := dl_fileSize download;
     out_hash := dl_hash download |}.

(** The comparator of the sort of [fonts.downloads]. *)
Definition compareById (a b : DownloadOut) : Z :=
  if JS.lt (out_id a) (out_id b) then (-1)%Z
  else if JS.gt (out_id a) (out_id b) then 1%Z
  else 0%Z.

(** [writeFileSync(join(outDir, 'fonts.json'), JSON.stringify(fonts))] *)
Definition writeManifest (doc : Doc) : M State unit :=
  fun s =>
    match st_outDir s with
    | Some d => (Ok tt, set_outDir (Some (writeFile "fonts.json" (Json doc) d)) s)
    | None => (Throw (IOError "fonts.json"), s)
    end.

Definition main (fonts : Catalog) : M State unit :=
  clearOutDir ;;;
  compiled <- forEach compileFont (cat_fonts fonts) ;;
  let fonts_fonts := map font (JS.sort sortByName compiled) in
  ds <- gets st_downloads ;;
  let fonts_downloads := JS.sort compareById (map downloadOut ds) in
  writeManifest
    [ ("version", DString version);
      ("downloads", DDownloads fonts_downloads);
      ("fonts", DFonts fonts_fonts) ].

End Script.

End Build.

(** ** The format script *)

Module Format.

(** The catalog as [JSON.stringify(fonts, null, 4)] writes it back: the
    [fonts] attribute holds the objects built by [font]. *)
Record Formatted : Type := mkFormatted {
  fmt_fonts : list Obj;
  fmt_groups : list Group;
  fmt_extra : list Attr
}.

Inductive File : Type :=
| FontsJson (c : Formatted)
| UUIDsJson (uuids : list string).

Record State : Type := mkState {
  st_uuids : nat;                     (* number of UUIDs drawn so far *)
  st_newUUIDs : list string;          (* const uuids = [] *)
  st_written : list (string * File)   (* writeFileSync calls, oldest first *)
}.

Section Script.
(** The n-th UUID drawn from [crypto]. *)
Variable randomUUID : nat -> string.

Local Open Scope js_scope.

Definition generateUUID : M State string :=
  fun s =>
    (Ok (randomUUID (st_uuids s)),
     mkState (S (st_uuids s)) (st_newUUIDs s) (st_written s)).

Definition defined (v : option string) : bool :=
  match v with Some _ => true | None => false end.

Definition sortByTypeThenLocalPathOrURL (a b : Installation) : Z :=
  if JS.lt (inst_type a) (inst_type b) then (-1)%Z
  else if JS.gt (inst_type a) (inst_type b) then 1%Z
  else
    (* true: 'localpath', false: 'url' *)
    let aDownload := defined (inst_localPath a) in
    let bDownload := defined (inst_localPath b) in
    if negb aDownload && bDownload then (-1)%Z
    else if aDownload && negb bDownload then 1%Z
    else
      let aSort := if aDownload then inst_localPath a else inst_url a in
      let bSort := if bDownload then inst_localPath b else inst_url b in
      if JS.lt_u aSort bSort then (-1)%Z
      else if JS.gt_u aSort bSort then 1%Z
      else 0%Z.

Definition font (i : Font) : Obj :=
  [ ("id", VStr (font_id i));
    ("name", VStr (font_name i));
    ("shortName", VStr (font_shortName i));
    ("publisher", VStr (font_publisher i));
    ("categories", VStrs (JS.sortStrings (font_categories i)));
    ("installations",
      VInsts (JS.sort sortByTypeThenLocalPathOrURL (font_installations i))) ].

(** [sortByName] reads the [name] of its arguments, fonts or groups. *)
Definition sortByName {A : Type} (name : A -> string) (a b : A) : Z :=
  if JS.lt (name a) (name b) then (-1)%Z
  else if JS.gt (name a) (name b) then 1%Z
  else 0%Z.

Definition sentinel : string := "<UUID>".

Definition set_id (id : string) (f : Font) : Font :=
  mkFont id (font_name f) (font_shortName f) (font_publisher f)
         (font_categories f) (font_installations f) (font_extra f).

Definition set_installations (l : list Installation) (f : Font) : Font :=
  mkFont (font_id f) (font_name f) (font_shortName f) (font_publisher f)
         (font_categories f) l (font_extra f).

(** [source.files = source.files.sort()] under [case 'cabextract']. *)
Definition sortFiles (source : Installation) : M State Installation :=
  if String.eqb (inst_type source) "cabextract" then
    match inst_files source with
    | Some files =>
        ret (mkInstallation (inst_type source) (Some (JS.sortStrings files))
               (inst_localPath source) (inst_url source)
               (inst_download source) (inst_extra source))
    | None => throw TypeError
    end
  else ret source.

(** The body of the loop over [fonts.fonts]. *)
Definition formatFont (f : Font) : M State Font :=
  f1 <-
    (if String.eqb (font_id f) sentinel then
       id <- generateUUID ;;
       modify (fun s => mkState (st_uuids s) (st_newUUIDs s ++ [id])
                                (st_written s)) ;;;
       ret (set_id id f)
     else ret f) ;;
  let sorted := JS.sort sortByTypeThenLocalPathOrURL (font_installations f1) in
  installations <- forEach sortFiles sorted ;;
  ret (set_installations installations f1).

Definition sortGroupFonts (g : Group) : Group :=
  mkGroup (group_name g) (JS.sortStrings (group_fonts g)) (group_extra g).

Definition writeFileSync (name : string) (f : File) : M State unit :=
  modify (fun s => mkState (st_uuids s) (st_newUUIDs s)
                           (st_written s ++ [(name, f)])).

Definition main (fonts : Catalog) : M State unit :=
  formatted <- forEach formatFont (cat_fonts fonts) ;;
  let fonts_fonts := map font (JS.sort (sortByName font_name) formatted) in
  let groups := map sortGroupFonts (cat_groups fonts) in
  let fonts_groups := JS.sort (sortByName group_name) groups in
  writeFileSync "fonts.json"
    (FontsJson (mkFormatted fonts_fonts fonts_groups (cat_extra fonts))) ;;;
  uuids <- gets st_newUUIDs ;;
  if (1 <? List.length uuids)%nat
  then writeFileSync "newUUIDs.json" (UUIDsJson uuids)
  else ret tt.

End Script.

End Format.

(** ** Notions used to state the properties of the build *)

Module BuildSpec.
Import Build.

(** A run of the build script: the registry, the console and the list of
    temporary directories of the process start empty; the output
    directory is as the previous run left it. *)
Definition start (outDir : option Dir) : State :=
  {| st_outDir := outDir; st_temp := []; st_tempCount := 0;
     st_downloads := []; st_uuids := 0; st_console := [];
     st_resolved := [] |}.

Definition run (env : Env) (outDir : option Dir) (fonts : Catalog)
  : Result unit * State :=
  main env fonts (start outDir).

(** The first [n] UUIDs drawn have the 36 characters of a UUID and are
    pairwise distinct. *)
Definition uuids_ok (u : nat -> string) (n : nat) : Prop :=
  (forall i, i < n -> String.length (u i) = 36) /\
  (forall i j, i < j -> j < n -> u i <> u j).

(** The dependency reference [addFromObject] resolves for an
    installation: [_localPath] when present, else [_url]. *)
Definition refOf (i : Installation) : option Ref :=
  match inst_localPath i, inst_url i with
  | Some p, _ => Some (RLocal p)
  | None, Some u => Some (RUrl u)
  | None, None => None
  end.

(** The canonical identity key of a reference. *)
Definition canon (env : Env) (r : Ref) : option Key :=
  match r with
  | RLocal p => Some (KLocalFile (normalize env p))
  | RUrl u => option_map KUrl (normalizeUrl env u)
  end.

Definition keyOf (env : Env) (i : Installation) : option Key :=
  match refOf i with
  | Some r => canon env r
  | None => None
  end.

(** The id registered under a key. *)
Fixpoint lookup (k : Key) (ds : list Download) : option string :=
  match ds with
  | [] => None
  | d :: ds' => if Key_eqb (dl_key d) k then Some (dl_id d) else lookup k ds'
  end.

(** A source installation after [addFromObject], under a registry. *)
Definition resolvedInst (env : Env) (ds : list Download) (i : Installation)
  : Installation :=
  let download :=
    match keyOf env i with
    | Some k =>
        match lookup k ds with
        | Some id => Some id
        | None => inst_download i
        end
    | None => inst_download i
    end in
  cleanUp
    (mkInstallation (inst_type i) (inst_files i) (inst_localPath i)
                    (inst_url i) download (inst_extra i)).

(** An installation with the [files] of the [cabextract] type sorted. *)
Definition sortedFiles (i : Installation) : Installation :=
  mkInstallation (inst_type i)
    (if String.eqb (inst_type i) "cabextract"
     then option_map JS.sortStrings (inst_files i) else inst_files i)
    (inst_localPath i) (inst_url i) (inst_download i) (inst_extra i).

(** The compiled form of a source installation under a registry. *)
Definition compiled (env : Env) (ds : list Download) (i : Installation)
  : Installation :=
  sortedFiles (resolvedInst env ds i).

Definition compiledFont (env : Env) (ds : list Download) (f : Font) : Font :=
  set_installations
    (JS.sort sortByDownloadID (map (compiled env ds) (font_installations f)))
    f.

(** The manifest assembled from compiled fonts and a registry. *)
Definition manifest (env : Env) (fs : list Font) (ds : list Download) : Doc :=
  [ ("version", DString (version env));
    ("downloads", DDownloads (JS.sort compareById (map downloadOut ds)));
    ("fonts", DFonts (map font (JS.sort sortByName fs))) ].

(** The manifest a successful run leaves in the output directory. *)
Definition written (s : State) : option Doc :=
  match st_outDir s with
  | Some d =>
      match get "fonts.json" d with
      | Some (Json doc) => Some doc
      | _ => None
      end
  | None => None
  end.

Definition doc_downloads (doc : Doc) : list DownloadOut :=
  match get "downloads" doc with
  | Some (DDownloads l) => l
  | _ => []
  end.

Definition doc_fonts (doc : Doc) : list Obj :=
  match get "fonts" doc with
  | Some (DFonts l) => l
  | _ => []
  end.

Definition obj_installations (o : Obj) : list Installation :=
  match get "installations" o with
  | Some (VInsts l) => l
  | _ => []
  end.

Definition obj_categories (o : Obj) : list string :=
  match get "categories" o with
  | Some (VStrs l) => l
  | _ => []
  end.

Definition obj_string (k : string) (o : Obj) : string :=
  match get k o with
  | Some (VStr s) => s
  | _ => EmptyString
  end.

(** Every installation of the compiled fonts of a manifest. *)
Definition doc_installations (doc : Doc) : list Installation :=
  flat_map obj_installations (doc_fonts doc).

(** The number of resolver runs on references of canonical key [k]. *)
Definition runsOn (env : Env) (k : Key) (log : list Ref) : nat :=
  List.length
    (filter (fun r => match canon env r with
                      | Some k' => Key_eqb k' k
                      | None => false
                      end) log).

Definition countId (id : string) (l : list DownloadOut) : nat :=
  List.length (filter (fun d => String.eqb (out_id d) id) l).

(** [a <= b] on strings. *)
Definition str_le (a b : string) : Prop := JS.gt a b = false.

End BuildSpec.

(** ** The registry invariant of the build *)

Module BuildInv.
Import Build BuildSpec.

(** What a registry entry [d] records of the reference [r] the resolver
    was run on, [dir] being the output directory. *)
Definition entry (env : Env) (dir : Dir) (r : Ref) (d : Download) : Prop :=
  match r with
  | RLocal p =>
      exists content,
        readSource env p = Some content /\
        dl_key d = KLocalFile (normalize env p) /\
        dl_downloadURL d =
          (urlPrefix env ++ encodeURIComponent env (dl_id d ++ extname env p))%string /\
        dl_fileSize d = List.length content /\
        dl_hash d = hex (sha256 env content) /\
        get (dl_id d ++ extname env p)%string dir = Some (Binary content)
  | RUrl u =>
      exists status body n,
        fetch env u = Response status body true /\
        normalizeUrl env u = Some n /\
        dl_key d = KUrl n /\
        dl_downloadURL d = u /\
        dl_fileSize d = List.length body /\
        dl_hash d = hex (sha256 env body)
  end.

(** The names of the assets staged for the local entries. *)
Fixpoint stagedNames (env : Env) (refs : list Ref) (ds : list Download)
  : list string :=
  match refs, ds with
  | r :: refs', d :: ds' =>
      match r with
      | RLocal p => (dl_id d ++ extname env p)%string :: stagedNames env refs' ds'
      | RUrl _ => stagedNames env refs' ds'
      end
  | _, _ => []
  end.

(** The invariant of the traversal.  [pending] is empty between two
    installations and holds the reference being resolved when the
    resolver throws. *)
Definition Inv (env : Env) (pending : list Ref) (s : State) : Prop :=
  exists dir refs,
    st_outDir s = Some dir /\
    st_resolved s = refs ++ pending /\
    Forall2 (entry env dir) refs (st_downloads s) /\
    keys dir = stagedNames env refs (st_downloads s) /\
    Forall (fun d => exists j, j < st_uuids s /\ dl_id d = randomUUID env j)
           (st_downloads s) /\
    NoDup (map dl_id (st_downloads s)) /\
    NoDup (map dl_key (st_downloads s)) /\
    Forall (fun r => forall k, canon env r = Some k ->
                               lookup k (st_downloads s) = None) pending /\
    List.length pending <= 1.

(** What every step of the traversal does to the counters and logs:
    they only grow, the resolver running on references of [allowed]. *)
Definition Step (allowed : list Ref) (s s' : State) : Prop :=
  st_uuids s <= st_uuids s' /\
  (exists new, st_downloads s' = st_downloads s ++ new) /\
  (exists new, st_resolved s' = st_resolved s ++ new /\ incl new allowed).

(** The reference of an installation, if any, is registered. *)
Definition Covered (env : Env) (ds : list Download) (i : Installation)
  : Prop :=
  match refOf i with
  | Some r => exists k id, canon env r = Some k /\ lookup k ds = Some id
  | None => True
  end.

Definition instRefs (l : list Installation) : list Ref :=
  flat_map (fun i => match refOf i with
                     | Some r => [r]
                     | None => []
                     end) l.

(** The references of the installations of a list of fonts. *)
Definition catalogRefs (fs : list Font) : list Ref :=
  flat_map (fun f => instRefs (font_installations f)) fs.

(** The registry entries of type [localFile]. *)
Definition isLocalFile (d : Download) : bool :=
  match dl_key d with
  | KLocalFile _ => true
  | KUrl _ => false
  end.

(** How the script ends: [main().catch] exits with status 1. *)
Definition exitCode {A : Type} (r : Result A) : Z :=
  match r with
  | Ok _ => 0%Z
  | Throw _ => 1%Z
  end.

(** Lowercase hexadecimal digits. *)
Definition isLowerHex (c : ascii) : bool :=
  let n := nat_of_ascii c in
  ((48 <=? n) && (n <=? 57) || (97 <=? n) && (n <=? 102))%nat.

Fixpoint allChars (p : ascii -> bool) (s : string) : bool :=
  match s with
  | EmptyString => true
  | String c s' => p c && allChars p s'
  end.

(** The order of the installations array: by type, then by download id
    where both installations carry one. *)
Definition inst_le (a b : Installation) : Prop :=
  JS.lt (inst_type a) (inst_type b) = true \/
  (inst_type a = inst_type b /\
   forall x y, inst_download a = Some x -> inst_download b = Some y ->
               str_le x y).

(** The [files] of a [cabextract] installation are sorted. *)
Definition filesSorted (i : Installation) : Prop :=
  inst_type i = "cabextract" ->
  exists files, inst_files i = Some files /\ StronglySorted str_le files.

Definition hasDownload (i : Installation) : Prop :=
  inst_download i <> None.

Definition fontKeys : list string :=
  ["id"; "name"; "shortName"; "publisher"; "categories"; "installations"].

(** Two worlds that differ at most in the UUIDs drawn after the first
    [n]. *)
Definition sameWorld (e1 e2 : Env) (n : nat) : Prop :=
  env_VERSION e1 = env_VERSION e2 /\
  env_URL_PREFIX e1 = env_URL_PREFIX e2 /\
  (forall i, i < n -> randomUUID e1 i = randomUUID e2 i) /\
  (forall p, normalize e1 p = normalize e2 p) /\
  (forall p, extname e1 p = extname e2 p) /\
  (forall u, normalizeUrl e1 u = normalizeUrl e2 u) /\
  (forall s, encodeURIComponent e1 s = encodeURIComponent e2 s) /\
  (forall c, sha256 e1 c = sha256 e2 c) /\
  (forall p, readSource e1 p = readSource e2 p) /\
  (forall u, fetch e1 u = fetch e2 u).

End BuildInv.

(** ** Notions used to state the properties of the format pass *)

Module FormatSpec.
Import Format.

Definition start : State :=
  {| st_uuids := 0; st_newUUIDs := []; st_written := [] |}.

Definition run (randomUUID : nat -> string) (fonts : Catalog)
  : Result unit * State :=
  main randomUUID fonts start.

(** The attribute names of a source font. *)
Definition sourceKeys (f : Font) : list string :=
  BuildInv.fontKeys ++ map fst (font_extra f).

(** An installation after the pass: only its [files] may be reordered. *)
Definition inst_rel (i i' : Installation) : Prop :=
  inst_type i' = inst_type i /\
  inst_localPath i' = inst_localPath i /\
  inst_url i' = inst_url i /\
  inst_download i' = inst_download i /\
  inst_extra i' = inst_extra i /\
  match inst_files i with
  | Some l => exists l', inst_files i' = Some l' /\ Permutation l l'
  | None => inst_files i' = None
  end.

(** A font after the pass, [drawn] being the UUIDs generated. *)
Definition font_rel (drawn : list string) (f : Font) (o : Obj) : Prop :=
  keys o = BuildInv.fontKeys /\
  BuildSpec.obj_string "name" o = font_name f /\
  BuildSpec.obj_string "shortName" o = font_shortName f /\
  BuildSpec.obj_string "publisher" o = font_publisher f /\
  Permutation (font_categories f) (BuildSpec.obj_categories o) /\
  (font_id f <> sentinel -> BuildSpec.obj_string "id" o = font_id f) /\
  (font_id f = sentinel -> In (BuildSpec.obj_string "id" o) drawn) /\
  exists is',
    Permutation is' (BuildSpec.obj_installations o) /\
    Forall2 inst_rel (font_installations f) is'.

(** A font between the loop and the projection by [font]. *)
Definition loop_rel (drawn : list string) (f f' : Font) : Prop :=
  font_name f' = font_name f /\
  font_shortName f' = font_shortName f /\
  font_publisher f' = font_publisher f /\
  font_categories f' = font_categories f /\
  (exists is', Permutation is' (font_installations f') /\
               Forall2 inst_rel (font_installations f) is') /\
  (font_id f <> sentinel -> font_id f' = font_id f) /\
  (font_id f = sentinel -> In (font_id f') drawn).

Definition group_rel (g g' : Group) : Prop :=
  group_name g' = group_name g /\
  group_extra g' = group_extra g /\
  Permutation (group_fonts g) (group_fonts g').

End FormatSpec.

(** ** Concrete worlds and catalogs *)

Module Examples.
Import Build BuildSpec.

Definition digit (n : nat) : ascii := ascii_of_nat (48 + n mod 10).

(** A UUID generator: the draws differ in their last two digits. *)
Definition ex_uuid (n : nat) : string :=
  "00000000-0000-4000-8000-0000000000" ++
  String (digit (n / 10)) (String (digit n) EmptyString).

(** A stand-in for [path.normalize]: a leading [./] is dropped. *)
Definition ex_normalize (p : string) : string :=
  if String.prefix "./" p then String.substring 2 (String.length p - 2) p
  else p.

(** A stand-in for [path.extname]: the part from the last dot on. *)
Fixpoint ex_extname (p : string) : string :=
  match p with
  | EmptyString => EmptyString
  | String c p' =>
      match ex_extname p' with
      | EmptyString =>
          if Ascii.eqb c "."%char then p
          else EmptyString
      | e => e
      end
  end.

Definition lower (c : ascii) : ascii :=
  let n := nat_of_ascii c in
  if ((65 <=? n) && (n <=? 90))%nat then ascii_of_nat (n + 32) else c.

Fixpoint lowercase (s : string) : string :=
  match s with
  | EmptyString => EmptyString
  | String c s' => String (lower c) (lowercase s')
  end.

(** A stand-in for [normalizeUrl]: http URLs are lowercased, anything
    else is not a URL. *)
Definition ex_normalizeUrl (u : string) : option string :=
  let l := lowercase u in
  if String.prefix "http://" l || String.prefix "https://" l
  then Some l else None.

Definition ex_readSource (p : string) : option (list byte) :=
  if String.eqb p "a.exe" || String.eqb p "./a.exe" then Some [x4d; x5a; x90]
  else if String.eqb p "b.exe" then Some [x4d; x5a]
  else None.

Definition ex_fetch (u : string) : FetchResult :=
  if String.eqb (lowercase u) "http://example.com/f"
  then Response 200 [x01; x02; x03; x04] true
  else if String.eqb u "http://example.com/missing"
  then Response 404 [x34; x30; x34] true
  else Rejected.

(** A world for the examples; the digest is a stand-in for SHA-256 and
    the encoding leaves the characters of the example names as they
    are. *)
Definition ex_env : Env :=
  {| env_VERSION := Some "1.2.0";
     env_URL_PREFIX := None;
     randomUUID := ex_uuid;
     normalize := ex_normalize;
     extname := ex_extname;
     normalizeUrl := ex_normalizeUrl;
     encodeURIComponent := fun s => s;
     sha256 := fun content => rev content;
     readSource := ex_readSource;
     fetch := ex_fetch |}.

Definition cab (files : list string) (localPath url download : option string)
  : Installation :=
  mkInstallation "cabextract" (Some files) localPath url download [].

Definition ex_font (name : string) (insts : list Installation) : Font :=
  mkFont ("id-" ++ name) name name "Microsoft" ["serif"; "sans-serif"] insts [].

(** Two fonts sharing a local file under two spellings, and two
    spellings of one URL. *)
Definition ex_catalog : Catalog :=
  {| cat_fonts :=
       [ ex_font "Verdana"
           [ cab ["b.ttf"; "a.ttf"] (Some "./a.exe") None None;
             cab ["v.ttf"] None (Some "HTTP://Example.com/f") None ];
         ex_font "Arial"
           [ cab ["arial.ttf"] (Some "a.exe") None None;
             cab ["x.ttf"] None (Some "http://example.com/f") None;
             cab ["y.ttf"] (Some "b.exe") None None ] ];
     cat_groups := [ mkGroup "Core Fonts" ["id-Verdana"; "id-Arial"] [] ];
     cat_extra := [] |}.

(** What the previous build left in the output directory. *)
Definition ex_previous : option Dir :=
  Some [ ("fonts.json", Json []); ("old.exe", Binary [x00]) ].

(** A local file, then a URL whose host cannot be reached. *)
Definition ex_unreachable : Catalog :=
  {| cat_fonts :=
       [ ex_font "Arial"
           [ cab ["arial.ttf"] (Some "a.exe") None None;
             cab ["x.ttf"] None (Some "http://down.example/f") None ] ];
     cat_groups := [];
     cat_extra := [] |}.

(** A URL answered with status 404. *)
Definition ex_missing : Catalog :=
  {| cat_fonts :=
       [ ex_font "Arial"
           [ cab ["x.ttf"] None (Some "http://example.com/missing") None ] ];
     cat_groups := [];
     cat_extra := [] |}.


(** An installation whose [_url] is the empty string beside a
    [_localPath]. *)
Definition ex_emptyUrl : Catalog :=
  {| cat_fonts :=
       [ ex_font "Arial" [ cab ["arial.ttf"] (Some "a.exe") (Some EmptyString) None ] ];
     cat_groups := [];
     cat_extra := [] |}.

(** Installations that were compiled before, around one that carries no
    download. *)
Definition ex_passedThrough : Catalog :=
  {| cat_fonts :=
       [ ex_font "Arial"
           [ cab [] None None (Some "b");
             cab [] None None None;
             cab [] None None (Some "a") ] ];
     cat_groups := [];
     cat_extra := [] |}.

(** A font with an attribute beyond the six of the format, an id to
    generate, and groups. *)
Definition ex_licensed : Catalog :=
  {| cat_fonts :=
       [ mkFont "<UUID>" "Verdana" "verdana" "Microsoft" ["sans-serif"]
           [ cab ["b.ttf"; "a.ttf"] (Some "a.exe") None None ]
           [ ("license", "true") ];
         mkFont "id-Arial" "Arial" "arial" "Microsoft" ["serif"; "sans-serif"]
           [ cab ["y.ttf"] (Some "b.exe") None None;
             cab ["x.ttf"] None (Some "http://example.com/f") None ]
           [] ];
     cat_groups :=
       [ mkGroup "Web" ["id-Verdana"] [];
         mkGroup "Core Fonts" ["id-Verdana"; "id-Arial"] [] ];
     cat_extra := [] |}.

(** The states the example runs end in. *)
Definition ex_final : State :=
  Eval vm_compute in snd (run ex_env ex_previous ex_catalog).

Definition ex_final_unreachable : State :=
  Eval vm_compute in snd (run ex_env ex_previous ex_unreachable).


Definition ex_final_emptyUrl : State :=
  Eval vm_compute in snd (run ex_env ex_previous ex_emptyUrl).

Definition ex_final_passedThrough : State :=
  Eval vm_compute in snd (run ex_env ex_previous ex_passedThrough).

Definition ex_final_missing : State :=
  Eval vm_compute in snd (run ex_env ex_previous ex_missing).

Definition ex_formatted : Format.State :=
  Eval vm_compute in snd (FormatSpec.run ex_uuid ex_licensed).

End Examples.

(** ** Further notions: failures, counts, what is kept *)

Module BuildMore.
Import Build BuildSpec BuildInv.

Definition Key_eq_dec (a b : Key) : {a = b} + {a <> b}.
Proof. decide equality; apply string_dec. Defined.

(** The canonical keys of the references of a list of fonts, in source
    order, and the distinct ones among them. *)
Definition catalogKeys (env : Env) (fs : list Font) : list Key :=
  flat_map (fun r => match canon env r with
                     | Some k => [k]
                     | None => []
                     end) (catalogRefs fs).

Definition distinctKeys (env : Env) (fs : list Font) : list Key :=
  nodup Key_eq_dec (catalogKeys env fs).

(** Between two installations: the output directory exists, no
    temporary directory is left and nothing was logged. *)
Definition quiet (s : State) : Prop :=
  st_outDir s <> None /\ st_temp s = [] /\ st_console s = [].

(** Why the traversal throws [e] at installation [i], and what it
    leaves in the temporary directory and on the console. *)
Definition failure (env : Env) (i : Installation) (e : Error) (s' : State)
  : Prop :=
  match e with
  | IOError p =>
      refOf i = Some (RLocal p) /\ readSource env p = None /\
      st_temp s' = [] /\ st_console s' = []
  | FetchError u =>
      refOf i = Some (RUrl u) /\ fetch env u = Rejected /\
      List.length (st_temp s') = 1 /\
      st_console s' = [("Failed to download file from URL: " ++ u)%string]
  | StreamError =>
      (exists u status body,
         refOf i = Some (RUrl u) /\
         fetch env u = Response status body false) /\
      List.length (st_temp s') = 1 /\ st_console s' = []
  | InvalidURL u =>
      refOf i = Some (RUrl u) /\ normalizeUrl env u = None /\
      List.length (st_temp s') <= 1 /\ st_console s' = []
  | TypeError =>
      inst_type i = "cabextract" /\ inst_files i = None /\
      st_temp s' = [] /\ st_console s' = []
  end.

(** What the build keeps of an installation. *)
Definition kept_inst (i c : Installation) : Prop :=
  inst_type c = inst_type i /\
  inst_extra c = inst_extra i /\
  match inst_files i with
  | Some l => exists l', inst_files c = Some l' /\ Permutation l l'
  | None => inst_files c = None
  end /\
  (refOf i = None -> inst_download c = inst_download i).

(** What the build keeps of a font. *)
Definition kept_font (f : Font) (o : Obj) : Prop :=
  obj_string "id" o = font_id f /\
  obj_string "name" o = font_name f /\
  obj_string "shortName" o = font_shortName f /\
  obj_string "publisher" o = font_publisher f /\
  Permutation (font_categories f) (obj_categories o) /\
  exists is',
    Permutation is' (obj_installations o) /\
    Forall2 kept_inst (font_installations f) is'.

(** A comparator never says of two elements that each is above the
    other. *)
Definition antisymmetric {A : Type} (cmp : A -> A -> Z) : Prop :=
  forall x y, (0 < cmp x y)%Z -> (cmp y x <= 0)%Z.

End BuildMore.

Module FormatMore.
Import Format FormatSpec.

(** A [cabextract] installation without [files], on which the pass
    throws. *)
Definition lacksFiles (i : Installation) : bool :=
  String.eqb (inst_type i) "cabextract" &&
  match inst_files i with
  | Some _ => false
  | None => true
  end.

(** The fonts whose id is to be generated. *)
Definition sentinels (fs : list Font) : list Font :=
  filter (fun f => String.eqb (font_id f) sentinel) fs.

Definition hasRef (i : Installation) : Prop :=
  inst_localPath i <> None \/ inst_url i <> None.

(** [aSort]: the local path when there is one, else the URL. *)
Definition sortKey (i : Installation) : option string :=
  match inst_localPath i with
  | Some p => Some p
  | None => inst_url i
  end.

(** The order of [sortByTypeThenLocalPathOrURL]: by type, then URLs
    before local paths, then by the reference. *)
Definition fmt_le (a b : Installation) : Prop :=
  JS.lt (inst_type a) (inst_type b) = true \/
  (inst_type a = inst_type b /\
   ((inst_localPath a = None /\ inst_localPath b <> None) \/
    ((inst_localPath a = None <-> inst_localPath b = None) /\
     forall x y, sortKey a = Some x -> sortKey b = Some y ->
                 BuildSpec.str_le x y))).

(** The file the pass wrote last under a name. *)
Fixpoint lastWritten (name : string) (w : list (string * File))
  : option File :=
  match w with
  | [] => None
  | (n, f) :: w' =>
      match lastWritten name w' with
      | Some g => Some g
      | None => if String.eqb n name then Some f else None
      end
  end.

(** The ids of the fonts after the loop of the pass, [n] UUIDs having
    been drawn before: the ids to generate take the UUIDs in the order
    of the source. *)
Fixpoint assignIds (randomUUID : nat -> string) (n : nat) (fs : list Font)
  : list string :=
  match fs with
  | [] => []
  | f :: fs' =>
      if String.eqb (font_id f) sentinel
      then randomUUID n :: assignIds randomUUID (S n) fs'
      else font_id f :: assignIds randomUUID n fs'
  end.

End FormatMore.

Module MoreExamples.
Import Build BuildSpec Examples.

(** Two fonts whose ids are to be generated. *)
Definition ex_twoNew : Catalog :=
  {| cat_fonts :=
       [ mkFont "<UUID>" "Verdana" "verdana" "Microsoft" ["sans-serif"]
           [ cab ["b.ttf"; "a.ttf"] (Some "a.exe") None None ] [];
         mkFont "id-Arial" "Arial" "arial" "Microsoft" ["serif"]
           [ cab ["y.ttf"] (Some "b.exe") None None;
             cab ["x.ttf"] None (Some "http://example.com/f") None ] [];
         mkFont "<UUID>" "Georgia" "georgia" "Microsoft" ["serif"] [] [] ];
     cat_groups := [ mkGroup "Web" ["id-Arial"] [] ];
     cat_extra := [] |}.

Definition ex_formatted_twoNew : Format.State :=
  Eval vm_compute in snd (FormatSpec.run ex_uuid ex_twoNew).

(** A world in which no version is configured. *)
Definition ex_env_unversioned : Env :=
  {| env_VERSION := Some EmptyString;
     env_URL_PREFIX := None;
     randomUUID := ex_uuid;
     normalize := ex_normalize;
     extname := ex_extname;
     normalizeUrl := ex_normalizeUrl;
     encodeURIComponent := fun s => s;
     sha256 := fun content => rev content;
     readSource := ex_readSource;
     fetch := ex_fetch |}.

(** The registry after one local file, and after one URL. *)
Definition ex_afterLocal : State :=
  Eval vm_compute in
    snd (addLocalFileDownload ex_env "./a.exe" (start (Some []))).

Definition ex_afterUrl : State :=
  Eval vm_compute in
    snd (addURLDownload ex_env "HTTP://Example.com/f" (start (Some []))).

Definition ex_final_unversioned : State :=
  Eval vm_compute in snd (run ex_env_unversioned ex_previous ex_catalog).

End MoreExamples.

(** ** The scripts on a catalog that leaves arrays out *)

(** A font, a group and the catalog as [JSON.parse] returns them when
    [fonts.json] leaves an array out: the [categories] or the
    [installations] of a font, the [fonts] of a group, the [fonts] or the
    [groups] of the catalog.  [None] is [undefined]; an attribute that is
    present has the type the format documents. *)
Record RawFont : Type := mkRawFont {
  rf_id : string;
  rf_name : string;
  rf_shortName : string;
  rf_publisher : string;
  rf_categories : option (list string);
  rf_installations : option (list Installation);
  rf_extra : list Attr
}.

Record RawGroup : Type := mkRawGroup {
  rg_name : string;
  rg_fonts : option (list string);
  rg_extra : list Attr
}.

Record RawCatalog : Type := mkRawCatalog {
  rc_fonts : option (list RawFont);
  rc_groups : option (list RawGroup);
  rc_extra : list Attr
}.

(** The build script, where iterating over [undefined] and calling
    [sort] on [undefined] throw a [TypeError]. *)
Module BuildRaw.
Import Build.


Section Script.
Variable env : Env.

Local Open Scope js_scope.

Definition sortByName (a b : RawFont) : Z :=
  if JS.lt (rf_name a) (rf_name b) then (-1)%Z
  else if JS.gt (rf_name a) (rf_name b) then 1%Z
  else 0%Z.

(** [font]: the attributes of the literal are evaluated in order, and
    [i.categories.sort()] comes before [i.installations.sort(...)]. *)
Definition font (i : RawFont) : M State Obj :=
  match rf_categories i with
  | None => throw TypeError
  | Some categories =>
      match rf_installations i with
      | None => throw TypeError
      | Some installations =>
          ret [ ("id", VStr (rf_id i));
                ("name", VStr (rf_name i));
                ("shortName", VStr (rf_shortName i));
                ("publisher", VStr (rf_publisher i));
                ("categories", VStrs (JS.sortStrings categories));
                ("installations",
                  VInsts (JS.sort sortByDownloadID installations)) ]
      end
  end.

Definition set_installations (l : list Installation) (f : RawFont) : RawFont :=
  mkRawFont (rf_id f) (rf_name f) (rf_shortName f) (rf_publisher f)
            (rf_categories f) (Some l) (rf_extra f).

(** The body of the outer loop of [main]:
    [for (const installation of font.installations)] throws when the
    font has no [installations]. *)
Definition compileFont (f : RawFont) : M State RawFont :=
  match rf_installations f with
  | None => throw TypeError
  | Some l =>
      installations <-
        forEach (fun installation =>
                   i <- addFromObject env installation ;; sortFiles i) l ;;
      ret (set_installations (JS.sort sortByDownloadID installations) f)
  end.

Definition main (fonts : RawCatalog) : M State unit :=
  clearOutDir ;;;
  match rc_fonts fonts with
  | None => throw TypeError
  | Some fs =>
      compiled <- forEach compileFont fs ;;
      fonts_fonts <- forEach font (JS.sort sortByName compiled) ;;
      ds <- gets st_downloads ;;
      let fonts_downloads := JS.sort compareById (map downloadOut ds) in
      writeManifest
        [ ("version", DString (version env));
          ("downloads", DDownloads fonts_downloads);
          ("fonts", DFonts fonts_fonts) ]
  end.


End Script.

End BuildRaw.

(** The format script, likewise. *)
Module FormatRaw.
Import Format.

Section Script.
Variable randomUUID : nat -> string.

Local Open Scope js_scope.

Definition font (i : RawFont) : M State Obj :=
  match rf_categories i with
  | None => throw TypeError
  | Some categories =>
      match rf_installations i with
      | None => throw TypeError
      | Some installations =>
          ret [ ("id", VStr (rf_id i));
                ("name", VStr (rf_name i));
                ("shortName", VStr (rf_shortName i));
                ("publisher", VStr (rf_publisher i));
                ("categories", VStrs (JS.sortStrings categories));
                ("installations",
                  VInsts (JS.sort sortByTypeThenLocalPathOrURL
                                  installations)) ]
      end
  end.

Definition set_id (id : string) (f : RawFont) : RawFont :=
  mkRawFont id (rf_name f) (rf_shortName f) (rf_publisher f)
            (rf_categories f) (rf_installations f) (rf_extra f).

Definition set_installations (l : list Installation) (f : RawFont) : RawFont :=
  mkRawFont (rf_id f) (rf_name f) (rf_shortName f) (rf_publisher f)
            (rf_categories f) (Some l) (rf_extra f).

(** The body of the loop over [fonts.fonts]:
    [font.installations.sort(...)] throws when the font has no
    [installations], after the id has been generated. *)
Definition formatFont (f : RawFont) : M State RawFont :=
  f1 <-
    (if String.eqb (rf_id f) sentinel then
       id <- generateUUID randomUUID ;;
       modify (fun s => mkState (st_uuids s) (st_newUUIDs s ++ [id])
                                (st_written s)) ;;;
       ret (set_id id f)
     else ret f) ;;
  match rf_installations f1 with
  | None => throw TypeError
  | Some l =>
      let sorted := JS.sort sortByTypeThenLocalPathOrURL l in
      installations <- forEach sortFiles sorted ;;
      ret (set_installations installations f1)
  end.

(** [groups.fonts = groups.fonts.sort()] *)
Definition sortGroupFonts (groups : RawGroup) : M State Group :=
  match rg_fonts groups with
  | None => throw TypeError
  | Some l => ret (mkGroup (rg_name groups) (JS.sortStrings l)
                           (rg_extra groups))
  end.

Definition main (fonts : RawCatalog) : M State unit :=
  match rc_fonts fonts with
  | None => throw TypeError
  | Some fs =>
      formatted <- forEach formatFont fs ;;
      fonts_fonts <- forEach font (JS.sort (sortByName rf_name) formatted) ;;
      match rc_groups fonts with
      | None => throw TypeError
      | Some gs =>
          groups <- forEach sortGroupFonts gs ;;
          let fonts_groups := JS.sort (sortByName group_name) groups in
          writeFileSync "fonts.json"
            (FontsJson (mkFormatted fonts_fonts fonts_groups
                                    (rc_extra fonts))) ;;;
          uuids <- gets st_newUUIDs ;;
          if (1 <? List.length uuids)%nat
          then writeFileSync "newUUIDs.json" (UUIDsJson uuids)
          else ret tt
      end
  end.

End Script.

End FormatRaw.

(** Notions used to state the properties of the scripts on such
    catalogs. *)
Module RawSpec.
Import Build BuildSpec BuildMore FormatMore.

(** The outcome of a computation, its result seen through [h]. *)
Definition liftResult {S A B : Type} (h : A -> B) (r : Result A * S)
  : Result B * S :=
  match r with
  | (Ok a, s) => (Ok (h a), s)
  | (Throw e, s) => (Throw e, s)
  end.

(** A catalog that has all its arrays. *)
Definition ofFont (f : Font) : RawFont :=
  mkRawFont (font_id f) (font_name f) (font_shortName f) (font_publisher f)
            (Some (font_categories f)) (Some (font_installations f))
            (font_extra f).

Definition ofGroup (g : Group) : RawGroup :=
  mkRawGroup (group_name g) (Some (group_fonts g)) (group_extra g).

Definition ofCatalog (c : Catalog) : RawCatalog :=
  mkRawCatalog (Some (map ofFont (cat_fonts c)))
               (Some (map ofGroup (cat_groups c))) (cat_extra c).





(** A run of the format script. *)
Definition format (randomUUID : nat -> string) (fonts : RawCatalog)
  : Result unit * Format.State :=
  FormatRaw.main randomUUID fonts FormatSpec.start.

Definition present {A : Type} (v : option A) : bool :=
  match v with
  | Some _ => true
  | None => false
  end.

(** The font has its [installations], and each of type [cabextract]
    has its [files]. *)
Definition installationsFormattable (f : RawFont) : bool :=
  match rf_installations f with
  | Some l => forallb (fun i => negb (lacksFiles i)) l
  | None => false
  end.

(** A step of the format pass that writes no file. *)
Definition unwritten (s s' : Format.State) : Prop :=
  Format.st_written s' = Format.st_written s.

(** The catalog has every array the format script sorts. *)
Definition formattable (fonts : RawCatalog) : bool :=
  match rc_fonts fonts, rc_groups fonts with
  | Some fs, Some gs =>
      forallb installationsFormattable fs &&
      forallb (fun f => present (rf_categories f)) fs &&
      forallb (fun g => present (rg_fonts g)) gs
  | _, _ => false
  end.

End RawSpec.

Module RawExamples.
Import Build BuildSpec Examples RawSpec.



(** A catalog without [groups]. *)
Definition ex_noGroups : RawCatalog :=
  {| rc_fonts :=
       Some [ ofFont (ex_font "Verdana"
                        [ cab ["v.ttf"] (Some "a.exe") None None ]) ];
     rc_groups := None;
     rc_extra := [] |}.

(** A catalog whose [cabextract] installation has no [files]. *)
Definition ex_noFiles : RawCatalog :=
  {| rc_fonts :=
       Some [ ofFont (ex_font "Arial"
                        [ mkInstallation "cabextract" None (Some "a.exe")
                                         None None [] ]) ];
     rc_groups := Some [];
     rc_extra := [] |}.

End RawExamples.

(** * Properties *)

(** ** The order of strings *)

Lemma ascii_compare_refl (a : ascii) : Ascii.compare a a = Eq.
Proof. unfold Ascii.compare. apply N.compare_refl. Qed.

Lemma ascii_compare_lt_trans (a b c : ascii) :
  Ascii.compare a b = Lt -> Ascii.compare b c = Lt -> Ascii.compare a c = Lt.
Proof.
  unfold Ascii.compare. rewrite !N.compare_lt_iff. apply N.lt_trans.
Qed.

Lemma string_compare_refl (s : string) : String.compare s s = Eq.
Proof.
  induction s as [|a s IH]; simpl; [reflexivity|].
  now rewrite ascii_compare_refl.
Qed.

Lemma string_compare_lt_trans (s1 s2 s3 : string) :
  String.compare s1 s2 = Lt -> String.compare s2 s3 = Lt ->
  String.compare s1 s3 = Lt.
Proof.
  revert s2 s3.
  induction s1 as [|a s1 IH]; intros [|b s2] [|c s3]; simpl;
    try discriminate; try reflexivity.
  destruct (Ascii.compare a b) eqn:Eab; try discriminate;
    destruct (Ascii.compare b c) eqn:Ebc; try discriminate; intros H1 H2.
  - apply Ascii.compare_eq_iff in Eab, Ebc. subst.
    rewrite ascii_compare_refl. eauto.
  - apply Ascii.compare_eq_iff in Eab. subst. now rewrite Ebc.
  - apply Ascii.compare_eq_iff in Ebc. subst. now rewrite Eab.
  - now rewrite (ascii_compare_lt_trans _ _ _ Eab Ebc).
Qed.

Lemma js_lt_irrefl (s : string) : JS.lt s s = false.
Proof. unfold JS.lt, String.ltb. now rewrite string_compare_refl. Qed.

Lemma js_lt_trans (a b c : string) :
  JS.lt a b = true -> JS.lt b c = true -> JS.lt a c = true.
Proof.
  unfold JS.lt, String.ltb.
  destruct (String.compare a b) eqn:E1; try discriminate.
  destruct (String.compare b c) eqn:E2; try discriminate.
  now rewrite (string_compare_lt_trans _ _ _ E1 E2).
Qed.

(** Two strings are equal, or one is below the other. *)
Lemma js_lt_trichotomy (a b : string) :
  JS.lt a b = true \/ a = b \/ JS.lt b a = true.
Proof.
  unfold JS.lt, String.ltb.
  destruct (String.compare a b) eqn:E.
  - right; left. now apply String.compare_eq_iff.
  - now left.
  - right; right. rewrite String.compare_antisym, E. reflexivity.
Qed.

Lemma js_lt_asym (a b : string) : JS.lt a b = true -> JS.lt b a = false.
Proof.
  intros H. destruct (JS.lt b a) eqn:E; [|reflexivity].
  pose proof (js_lt_trans _ _ _ H E) as F. now rewrite js_lt_irrefl in F.
Qed.

Lemma str_le_refl (a : string) : BuildSpec.str_le a a.
Proof. unfold BuildSpec.str_le, JS.gt. apply js_lt_irrefl. Qed.

Lemma str_le_of_lt (a b : string) : JS.lt a b = true -> BuildSpec.str_le a b.
Proof. unfold BuildSpec.str_le, JS.gt. apply js_lt_asym. Qed.

Lemma str_le_cases (a b : string) :
  BuildSpec.str_le a b -> JS.lt a b = true \/ a = b.
Proof.
  unfold BuildSpec.str_le, JS.gt. intros H.
  destruct (js_lt_trichotomy a b) as [?|[?|F]]; auto.
  unfold JS.lt in F. congruence.
Qed.

Lemma str_le_trans (a b c : string) :
  BuildSpec.str_le a b -> BuildSpec.str_le b c -> BuildSpec.str_le a c.
Proof.
  intros H1 H2.
  destruct (str_le_cases _ _ H1) as [L1| ->]; auto.
  destruct (str_le_cases _ _ H2) as [L2| ->]; auto.
  apply str_le_of_lt. eapply js_lt_trans; eauto.
Qed.

Lemma str_le_total (a b : string) :
  BuildSpec.str_le a b \/ BuildSpec.str_le b a.
Proof.
  destruct (js_lt_trichotomy a b) as [?|[ -> |?]].
  - left. now apply str_le_of_lt.
  - left. apply str_le_refl.
  - right. now apply str_le_of_lt.
Qed.

(** ** [Array.prototype.sort] *)

Section SortFacts.
Context {A : Type}.
Variable cmp : A -> A -> Z.

Lemma insert_perm (x : A) (l : list A) :
  Permutation (JS.insert cmp x l) (x :: l).
Proof.
  induction l as [|y l IH]; simpl; [reflexivity|].
  destruct (0 <? cmp x y)%Z; [|reflexivity].
  rewrite IH. apply perm_swap.
Qed.

Lemma sort_perm (l : list A) : Permutation (JS.sort cmp l) l.
Proof.
  induction l as [|x l IH]; simpl; [reflexivity|].
  rewrite insert_perm. now constructor.
Qed.

Lemma sort_In (l : list A) (x : A) : In x (JS.sort cmp l) <-> In x l.
Proof.
  split; apply Permutation_in; [|symmetry]; apply sort_perm.
Qed.

Lemma sort_length (l : list A) : List.length (JS.sort cmp l) = List.length l.
Proof. apply Permutation_length, sort_perm. Qed.

(** On elements where the comparator agrees with a transitive order [R],
    the sorted array is ordered by [R]. *)
Variable P : A -> Prop.
Variable R : A -> A -> Prop.
Hypothesis cmp_le : forall x y, P x -> P y -> (cmp x y <= 0)%Z -> R x y.
Hypothesis cmp_gt : forall x y, P x -> P y -> (0 < cmp x y)%Z -> R y x.
Hypothesis R_trans :
  forall x y z, P x -> P y -> P z -> R x y -> R y z -> R x z.

Lemma insert_sorted (x : A) (l : list A) :
  P x -> Forall P l -> StronglySorted R l ->
  StronglySorted R (JS.insert cmp x l).
Proof.
  intros Px Pl Hs. induction Hs as [|y l Hs IH Hy]; simpl.
  - constructor; constructor.
  - inversion Pl as [|? ? Py Pl']; subst.
    destruct (0 <? cmp x y)%Z eqn:E.
    + apply Z.ltb_lt in E. constructor; [now apply IH|].
      eapply Permutation_Forall; [symmetry; apply insert_perm|].
      constructor; auto.
    + apply Z.ltb_ge in E. constructor; [now constructor|].
      constructor; [auto|].
      rewrite Forall_forall in *. intros z Hz.
      apply (R_trans x y z); auto.
Qed.

Lemma sort_sorted (l : list A) :
  Forall P l -> StronglySorted R (JS.sort cmp l).
Proof.
  induction l as [|x l IH]; simpl; intros Pl; [constructor|].
  inversion Pl; subst.
  apply insert_sorted; auto.
  eapply Permutation_Forall; [symmetry; apply sort_perm|]. assumption.
Qed.

End SortFacts.

Lemma sortStrings_sorted (l : list string) :
  StronglySorted BuildSpec.str_le (JS.sortStrings l).
Proof.
  apply (sort_sorted JS.defaultCompare (fun _ => True)).
  - intros x y _ _. unfold JS.defaultCompare, BuildSpec.str_le.
    destruct (JS.lt x y) eqn:E1; [intros _; now apply js_lt_asym|].
    destruct (JS.gt x y); [lia|reflexivity].
  - intros x y _ _. unfold JS.defaultCompare.
    destruct (JS.lt x y) eqn:E1; [lia|].
    destruct (JS.gt x y) eqn:E2; [|lia].
    intros _. apply str_le_of_lt. exact E2.
  - intros x y z _ _ _. apply str_le_trans.
  - apply Forall_forall. auto.
Qed.

Lemma sortStrings_perm (l : list string) : Permutation (JS.sortStrings l) l.
Proof. apply sort_perm. Qed.

(** A comparator that compares one string attribute. *)
Lemma sort_by_attribute {A : Type} (cmp : A -> A -> Z) (name : A -> string) :
  (forall a b, cmp a b =
     if JS.lt (name a) (name b) then (-1)%Z
     else if JS.gt (name a) (name b) then 1%Z else 0%Z) ->
  forall l, StronglySorted (fun a b => BuildSpec.str_le (name a) (name b))
                           (JS.sort cmp l).
Proof.
  intros Hc l.
  apply (sort_sorted cmp (fun _ => True)).
  - intros x y _ _. rewrite Hc. unfold BuildSpec.str_le.
    destruct (JS.lt (name x) (name y)) eqn:E1; [intros _; now apply js_lt_asym|].
    destruct (JS.gt (name x) (name y)); [lia|reflexivity].
  - intros x y _ _. rewrite Hc.
    destruct (JS.lt (name x) (name y)) eqn:E1; [lia|].
    destruct (JS.gt (name x) (name y)) eqn:E2; [|lia].
    intros _. apply str_le_of_lt. exact E2.
  - intros x y z _ _ _. apply str_le_trans.
  - apply Forall_forall. auto.
Qed.

(** ** Files and the registry *)

Lemma get_writeFile_same {name : string} (f : Build.File) (d : Build.Dir) :
  get name (Build.writeFile name f d) = Some f.
Proof.
  induction d as [|[n g] d IH]; simpl.
  - now rewrite String.eqb_refl.
  - destruct (String.eqb n name) eqn:E; simpl.
    + apply String.eqb_eq in E. subst. now rewrite String.eqb_refl.
    + rewrite String.eqb_sym, E. exact IH.
Qed.

Lemma get_writeFile_other (name name' : string) (f : Build.File)
    (d : Build.Dir) :
  name' <> name -> get name' (Build.writeFile name f d) = get name' d.
Proof.
  intros Hne. induction d as [|[n g] d IH]; simpl.
  - destruct (String.eqb name' name) eqn:E; [|reflexivity].
    apply String.eqb_eq in E. contradiction.
  - destruct (String.eqb n name) eqn:E; simpl.
    + apply String.eqb_eq in E. subst.
      destruct (String.eqb name' name) eqn:E'; [|reflexivity].
      apply String.eqb_eq in E'. contradiction.
    + now rewrite IH.
Qed.

Lemma keys_writeFile_new (name : string) (f : Build.File) (d : Build.Dir) :
  ~ In name (keys d) ->
  Build.writeFile name f d = d ++ [(name, f)].
Proof.
  induction d as [|[n g] d IH]; simpl; intros Hn; [reflexivity|].
  destruct (String.eqb n name) eqn:E.
  - apply String.eqb_eq in E. tauto.
  - rewrite IH; tauto.
Qed.

Lemma get_In_keys {V : Type} (k : string) (o : list (string * V)) (v : V) :
  get k o = Some v -> In k (keys o).
Proof.
  induction o as [|[k' v'] o IH]; simpl; [discriminate|].
  destruct (String.eqb k k') eqn:E; intros H.
  - apply String.eqb_eq in E. now left.
  - right. now apply IH.
Qed.

Lemma get_app_new {V : Type} (k : string) (o : list (string * V)) (v : V) :
  ~ In k (keys o) -> get k (o ++ [(k, v)]) = Some v.
Proof.
  induction o as [|[k' v'] o IH]; simpl; intros Hn.
  - now rewrite String.eqb_refl.
  - destruct (String.eqb k k') eqn:E.
    + apply String.eqb_eq in E. subst. tauto.
    + apply IH. tauto.
Qed.

Lemma get_app_old {V : Type} (k : string) (o o' : list (string * V)) (v : V) :
  get k o = Some v -> get k (o ++ o') = Some v.
Proof.
  induction o as [|[k' v'] o IH]; simpl; [discriminate|].
  destruct (String.eqb k k'); auto.
Qed.

(** Two names built on ids of the same length are equal only when the
    ids are. *)
Lemma append_same_length (a b x y : string) :
  String.length a = String.length b ->
  (a ++ x)%string = (b ++ y)%string -> a = b.
Proof.
  revert b. induction a as [|c a IH]; intros [|c' b]; simpl;
    try discriminate; [reflexivity|].
  intros Hl He. injection Hl as Hl. injection He as -> He.
  f_equal. now apply IH.
Qed.

Lemma append_length (a b : string) :
  String.length (a ++ b)%string = String.length a + String.length b.
Proof. induction a; simpl; auto. Qed.

Lemma Key_eqb_eq (a b : Build.Key) : Build.Key_eqb a b = true <-> a = b.
Proof.
  destruct a, b; simpl; try (split; [discriminate|congruence]);
    rewrite String.eqb_eq; split; congruence.
Qed.

Lemma Key_eqb_refl (a : Build.Key) : Build.Key_eqb a a = true.
Proof. now apply Key_eqb_eq. Qed.

Section Registry.
Import Build BuildSpec BuildInv.
Variable env : Env.

Lemma lookup_app (k : Key) (ds ds' : list Download) :
  lookup k (ds ++ ds') =
  match lookup k ds with
  | Some id => Some id
  | None => lookup k ds'
  end.
Proof.
  induction ds as [|d ds IH]; simpl; [reflexivity|].
  destruct (Key_eqb (dl_key d) k); auto.
Qed.

Lemma lookup_None (k : Key) (ds : list Download) :
  lookup k ds = None <-> ~ In k (map dl_key ds).
Proof.
  induction ds as [|d ds IH]; simpl; [tauto|].
  destruct (Key_eqb (dl_key d) k) eqn:E.
  - apply Key_eqb_eq in E. split; [discriminate|tauto].
  - rewrite IH. split; [|tauto].
    intros H [F|F]; [|tauto]. subst. now rewrite Key_eqb_refl in E.
Qed.

Lemma lookup_Some (k : Key) (ds : list Download) (id : string) :
  lookup k ds = Some id ->
  exists d, In d ds /\ dl_key d = k /\ dl_id d = id.
Proof.
  induction ds as [|d ds IH]; simpl; [discriminate|].
  destruct (Key_eqb (dl_key d) k) eqn:E; intros H.
  - apply Key_eqb_eq in E. injection H as <-. eauto.
  - destruct (IH H) as (d' & ? & ? & ?). eauto.
Qed.

(** Under distinct keys, the id registered under the key of an entry is
    the id of the entry. *)
Lemma lookup_In (ds : list Download) (d : Download) :
  NoDup (map dl_key ds) -> In d ds -> lookup (dl_key d) ds = Some (dl_id d).
Proof.
  induction ds as [|d' ds IH]; simpl; [tauto|].
  intros Hnd [->|Hin].
  - now rewrite Key_eqb_refl.
  - inversion Hnd as [|? ? Hn Hnd']; subst.
    destruct (Key_eqb (dl_key d') (dl_key d)) eqn:E; [|auto].
    apply Key_eqb_eq in E. exfalso. apply Hn. rewrite E.
    now apply in_map.
Qed.

Lemma downloadExistsLocalFile_lookup (p : string) (ds : list Download) :
  downloadExistsLocalFile_loop env p ds =
  lookup (KLocalFile (normalize env p)) ds.
Proof.
  induction ds as [|d ds IH]; simpl; [reflexivity|].
  destruct (dl_key d); simpl; auto.
  destruct (String.eqb _ _); auto.
Qed.

Lemma downloadExistsURL_lookup (u n : string) (ds : list Download) :
  normalizeUrl env u = Some n ->
  downloadExistsURL_loop env u ds = Ok (lookup (KUrl n) ds).
Proof.
  intros Hn. induction ds as [|d ds IH]; simpl; [reflexivity|].
  destruct (dl_key d); simpl; auto.
  rewrite Hn. destruct (String.eqb _ _); auto.
Qed.

Lemma downloadExistsURL_invalid (u : string) (ds : list Download) :
  normalizeUrl env u = None ->
  downloadExistsURL_loop env u ds = Ok None \/
  downloadExistsURL_loop env u ds = Throw (InvalidURL u).
Proof.
  intros Hn. induction ds as [|d ds IH]; simpl; [now left|].
  destruct (dl_key d); simpl; auto.
  rewrite Hn. now right.
Qed.

Lemma stagedNames_In (refs : list Ref) (ds : list Download) (x : string) :
  In x (stagedNames env refs ds) ->
  exists d p, In d ds /\ x = (dl_id d ++ extname env p)%string.
Proof.
  revert ds. induction refs as [|r refs IH]; intros [|d ds]; simpl;
    try tauto.
  destruct r as [p|u]; simpl.
  - intros [<-|H]; [eauto|].
    destruct (IH _ H) as (d' & p' & ? & ?). eauto.
  - intros H. destruct (IH _ H) as (d' & p' & ? & ?). eauto.
Qed.

Lemma stagedNames_app (refs : list Ref) (ds : list Download)
    (r : Ref) (d : Download) :
  List.length refs = List.length ds ->
  stagedNames env (refs ++ [r]) (ds ++ [d]) =
  stagedNames env refs ds ++ stagedNames env [r] [d].
Proof.
  revert ds. induction refs as [|r' refs IH]; intros [|d' ds]; simpl;
    try discriminate; [reflexivity|].
  intros Hl. injection Hl as Hl.
  destruct r'; simpl; now rewrite IH.
Qed.

Lemma entry_dir (dir dir' : Dir) (r : Ref) (d : Download) :
  (forall name c, get name dir = Some (Binary c) ->
                  In name (stagedNames env [r] [d]) ->
                  get name dir' = Some (Binary c)) ->
  entry env dir r d -> entry env dir' r d.
Proof.
  destruct r as [p|u]; simpl; [|auto].
  intros H (c & ? & ? & ? & ? & ? & Hg).
  exists c. repeat split; auto.
Qed.

End Registry.

(** ** Running a sequence of two computations *)

Lemma bind_Ok {S A B : Type} (m : M S A) (k : A -> M S B) (s s1 : S) (a : A) :
  m s = (Ok a, s1) -> bind m k s = k a s1.
Proof. intros H. unfold bind. now rewrite H. Qed.

Lemma bind_Throw {S A B : Type} (m : M S A) (k : A -> M S B) (s s1 : S)
    (e : Error) :
  m s = (Throw e, s1) -> bind m k s = (Throw e, s1).
Proof. intros H. unfold bind. now rewrite H. Qed.

Ltac same_installation :=
  try (unfold Build.set_download;
       repeat match goal with
              | H : Build.st_downloads _ = _ |- _ => clear H
              | H : _ = Some _ |- _ => rewrite H
              | H : _ = None |- _ => rewrite H
              end;
       reflexivity).

(** ** The steps of the traversal keep the invariant *)

Section Traversal.
Import Build BuildSpec BuildInv.
Variable env : Env.
Variable N : nat.
Hypothesis uuids : uuids_ok (randomUUID env) N.

Lemma Step_refl (allowed : list Ref) (s : State) : Step allowed s s.
Proof.
  repeat split; [lia| exists []; now rewrite app_nil_r |].
  exists []. rewrite app_nil_r. split; [reflexivity|]. intros x [].
Qed.

Lemma Step_trans (a1 a2 a : list Ref) (s1 s2 s3 : State) :
  incl a1 a -> incl a2 a ->
  Step a1 s1 s2 -> Step a2 s2 s3 -> Step a s1 s3.
Proof.
  intros I1 I2 (U1 & (d1 & D1) & (r1 & R1 & J1))
               (U2 & (d2 & D2) & (r2 & R2 & J2)).
  repeat split; [lia| exists (d1 ++ d2); now rewrite D2, D1, app_assoc |].
  exists (r1 ++ r2). rewrite R2, R1, app_assoc. split; [reflexivity|].
  apply incl_app; eapply incl_tran; eauto.
Qed.

Lemma id_length (ds : list Download) (n : nat) (d : Download) :
  Forall (fun d => exists j, j < n /\ dl_id d = randomUUID env j) ds ->
  n <= N -> In d ds -> String.length (dl_id d) = 36.
Proof.
  intros Hf Hn Hin. rewrite Forall_forall in Hf.
  destruct (Hf _ Hin) as (j & Hj & ->). apply uuids. lia.
Qed.

Lemma id_fresh (ds : list Download) (n : nat) (d : Download) :
  Forall (fun d => exists j, j < n /\ dl_id d = randomUUID env j) ds ->
  n < N -> In d ds -> dl_id d <> randomUUID env n.
Proof.
  intros Hf Hn Hin. rewrite Forall_forall in Hf.
  destruct (Hf _ Hin) as (j & Hj & ->). now apply uuids.
Qed.

Lemma name_fresh (ds : list Download) (n : nat) (d : Download)
    (x y : string) :
  Forall (fun d => exists j, j < n /\ dl_id d = randomUUID env j) ds ->
  n < N -> In d ds ->
  (dl_id d ++ x)%string <> (randomUUID env n ++ y)%string.
Proof.
  intros Hf Hn Hin He.
  apply (id_fresh ds n d Hf Hn Hin).
  apply (append_same_length _ _ x y); [|exact He].
  rewrite (id_length ds n d Hf) by (auto; lia).
  symmetry. now apply uuids.
Qed.

Lemma addLocalFileDownload_spec (p : string) (s s' : State)
    (r : Result string) :
  Inv env [] s ->
  lookup (KLocalFile (normalize env p)) (st_downloads s) = None ->
  addLocalFileDownload env p s = (r, s') ->
  st_uuids s' <= N ->
  Step [RLocal p] s s' /\ st_temp s' = st_temp s /\
  match r with
  | Ok id =>
      Inv env [] s' /\
      lookup (KLocalFile (normalize env p)) (st_downloads s') = Some id
  | Throw _ => Inv env [RLocal p] s'
  end.
Proof.
  intros (dir & refs & Hout & Hres & Hent & Hkeys & Hids & Hnd & Hndk & _ & _)
         Hlook Hrun HN.
  rewrite app_nil_r in Hres.
  unfold addLocalFileDownload, generateUUID, copyFileSync, readLocal, push,
    bind, modify, gets, ret, throw in Hrun.
  simpl in Hrun. rewrite Hout in Hrun.
  destruct (readSource env p) as [content|] eqn:Hsrc; simpl in Hrun.
  - injection Hrun as <- <-. simpl in HN.
    set (id := randomUUID env (st_uuids s)) in *.
    set (name := (id ++ extname env p)%string) in *.
    assert (Hfresh : ~ In name (keys dir)).
    { rewrite Hkeys. intros Hin.
      destruct (stagedNames_In env _ _ _ Hin) as (d & q & Hd & He).
      symmetry in He. revert He.
      apply (name_fresh (st_downloads s) (st_uuids s) d); auto. }
    split; [|split; [reflexivity|split]].
    + repeat split; simpl; [lia|eauto|].
      exists [RLocal p]. split; [reflexivity|apply incl_refl].
    + exists (dir ++ [(name, Binary content)]), (refs ++ [RLocal p]).
      simpl. rewrite keys_writeFile_new by assumption.
      rewrite Hres, app_nil_r.
      repeat split; auto.
      * apply Forall2_app.
        -- eapply Forall2_impl; [|exact Hent].
           intros r0 d0. apply entry_dir. intros n0 c Hg _.
           now apply get_app_old.
        -- constructor; [|constructor]. simpl.
           exists content. repeat split; auto.
           now apply get_app_new.
      * unfold keys. rewrite map_app. fold (keys dir). rewrite Hkeys.
        rewrite stagedNames_app; [reflexivity|].
        eapply Forall2_length; eauto.
      * apply Forall_app. split.
        -- eapply Forall_impl; [|exact Hids].
           intros d (j & ? & ?). exists j. split; [lia|auto].
        -- constructor; [|constructor]. exists (st_uuids s).
           split; [lia|reflexivity].
      * rewrite map_app. simpl.
        apply Permutation_NoDup with (l := id :: map dl_id (st_downloads s)).
        { apply Permutation_cons_append. }
        constructor; [|assumption].
        intros Hin. apply in_map_iff in Hin. destruct Hin as (d & He & Hd).
        revert He. apply (id_fresh (st_downloads s) (st_uuids s) d); auto.
      * rewrite map_app. simpl.
        apply Permutation_NoDup
          with (l := KLocalFile (normalize env p) :: map dl_key (st_downloads s)).
        { apply Permutation_cons_append. }
        constructor; [|assumption]. now apply lookup_None.
    + simpl. rewrite lookup_app, Hlook. simpl. now rewrite String.eqb_refl.
  - injection Hrun as <- <-. simpl in HN.
    split; [|split; [reflexivity|]].
    + repeat split; simpl; [lia|exists []; now rewrite app_nil_r|].
      exists [RLocal p]. split; [reflexivity|apply incl_refl].
    + exists dir, refs. simpl. rewrite Hres.
      repeat split; auto.
      * eapply Forall_impl; [|exact Hids].
        intros d (j & ? & ?). exists j. split; [lia|auto].
      * constructor; [|constructor]. simpl.
        intros k Hk. injection Hk as <-. exact Hlook.
Qed.

(** The invariant when the resolver throws on [r]. *)
Lemma Inv_fail (s s' : State) (r : Ref) :
  Inv env [] s ->
  st_outDir s' = st_outDir s ->
  st_downloads s' = st_downloads s ->
  st_resolved s' = st_resolved s ++ [r] ->
  st_uuids s <= st_uuids s' ->
  (forall k, canon env r = Some k -> lookup k (st_downloads s) = None) ->
  Inv env [r] s'.
Proof.
  intros (dir & refs & Hout & Hres & Hent & Hkeys & Hids & Hnd & Hndk & _ & _)
         Eo Ed Er Eu Hlook.
  rewrite app_nil_r in Hres.
  exists dir, refs. rewrite Eo, Ed, Er, Hres.
  repeat split; auto.
  - eapply Forall_impl; [|exact Hids].
    intros d (j & ? & ?). exists j. split; [lia|auto].
Qed.

(** The invariant when an entry that stages no asset is pushed. *)
Lemma Inv_push (s s' : State) (u : string) (d : Download) :
  Inv env [] s ->
  st_outDir s' = st_outDir s ->
  st_downloads s' = st_downloads s ++ [d] ->
  st_resolved s' = st_resolved s ++ [RUrl u] ->
  st_uuids s' = S (st_uuids s) ->
  st_uuids s < N ->
  dl_id d = randomUUID env (st_uuids s) ->
  lookup (dl_key d) (st_downloads s) = None ->
  (forall dir, entry env dir (RUrl u) d) ->
  Inv env [] s'.
Proof.
  intros (dir & refs & Hout & Hres & Hent & Hkeys & Hids & Hnd & Hndk & _ & _)
         Eo Ed Er Eu HN Eid Hlook He.
  rewrite app_nil_r in Hres.
  exists dir, (refs ++ [RUrl u]). rewrite Eo, Ed, Er, Eu, Hres, app_nil_r.
  repeat split; auto.
  - apply Forall2_app; [exact Hent|]. constructor; [apply He|constructor].
  - rewrite stagedNames_app by (eapply Forall2_length; eauto).
    simpl. now rewrite app_nil_r.
  - apply Forall_app. split.
    + eapply Forall_impl; [|exact Hids].
      intros d0 (j & ? & ?). exists j. split; [lia|auto].
    + constructor; [|constructor]. exists (st_uuids s). split; [lia|auto].
  - rewrite map_app. simpl.
    apply Permutation_NoDup with (l := dl_id d :: map dl_id (st_downloads s)).
    { apply Permutation_cons_append. }
    constructor; [|assumption].
    intros Hin. apply in_map_iff in Hin. destruct Hin as (d0 & E0 & Hd).
    rewrite Eid in E0. revert E0.
    apply (id_fresh (st_downloads s) (st_uuids s) d0); auto.
  - rewrite map_app. simpl.
    apply Permutation_NoDup with (l := dl_key d :: map dl_key (st_downloads s)).
    { apply Permutation_cons_append. }
    constructor; [|assumption]. now apply lookup_None.
Qed.

Lemma addURLDownload_spec (u : string) (s s' : State) (r : Result string) :
  Inv env [] s ->
  st_temp s = [] ->
  (forall n, normalizeUrl env u = Some n ->
             lookup (KUrl n) (st_downloads s) = None) ->
  addURLDownload env u s = (r, s') ->
  st_uuids s' <= N ->
  Step [RUrl u] s s' /\
  match r with
  | Ok id =>
      Inv env [] s' /\ st_temp s' = [] /\
      exists n, normalizeUrl env u = Some n /\
                lookup (KUrl n) (st_downloads s') = Some id
  | Throw _ => Inv env [RUrl u] s'
  end.
Proof.
  intros HI Htemp Hlook Hrun HN.
  assert (Hcanon : forall k, canon env (RUrl u) = Some k ->
                             lookup k (st_downloads s) = None).
  { simpl. intros k Hk. destruct (normalizeUrl env u) as [n|] eqn:E;
      [|discriminate]. injection Hk as <-. now apply Hlook. }
  unfold addURLDownload, mkdtempSync, generateUUID, writeTemp, rmTemp,
    consoleLog, push, bind, modify, gets, ret, throw in Hrun.
  simpl in Hrun. rewrite Htemp in Hrun. simpl in Hrun.
  destruct (fetch env u) as [|status body complete] eqn:Hf; simpl in Hrun.
  - injection Hrun as <- <-. simpl in HN. split.
    + repeat split; simpl; [lia|exists []; now rewrite app_nil_r|].
      exists [RUrl u]. split; [reflexivity|apply incl_refl].
    + apply (Inv_fail s); simpl; auto.
  - rewrite Nat.eqb_refl in Hrun. simpl in Hrun.
    destruct complete; simpl in Hrun.
    + destruct (normalizeUrl env u) as [n|] eqn:Hn; simpl in Hrun.
      * rewrite Nat.eqb_refl in Hrun. simpl in Hrun.
        injection Hrun as <- <-. simpl in HN. split; [|split; [|split]].
        -- repeat split; simpl; [lia|eauto|].
           exists [RUrl u]. split; [reflexivity|apply incl_refl].
        -- eapply (Inv_push s) with (u := u); simpl; try reflexivity; auto;
             try (apply Hlook; reflexivity).
           intros dir. exists status, body, n. repeat split; auto.
        -- reflexivity.
        -- exists n. split; [reflexivity|]. simpl.
           rewrite lookup_app, (Hlook n eq_refl). simpl.
           now rewrite String.eqb_refl.
      * injection Hrun as <- <-. simpl in HN. split.
        -- repeat split; simpl; [lia|exists []; now rewrite app_nil_r|].
           exists [RUrl u]. split; [reflexivity|apply incl_refl].
        -- apply (Inv_fail s); simpl; auto.
    + injection Hrun as <- <-. simpl in HN. split.
      * repeat split; simpl; [lia|exists []; now rewrite app_nil_r|].
        exists [RUrl u]. split; [reflexivity|apply incl_refl].
      * apply (Inv_fail s); simpl; auto.
Qed.

Lemma truthy_length (id : string) :
  String.length id = 36 -> JS.truthy (Some id) = true.
Proof. destruct id; simpl; [discriminate|reflexivity]. Qed.

Lemma truthy_registered (s : State) (k : Key) (id : string) :
  Inv env [] s -> st_uuids s <= N ->
  lookup k (st_downloads s) = Some id -> JS.truthy (Some id) = true.
Proof.
  intros (dir & refs & _ & _ & _ & _ & Hids & _) HN Hl.
  destruct (lookup_Some _ _ _ Hl) as (d & Hd & _ & <-).
  apply truthy_length. eapply id_length; eauto.
Qed.

Lemma Step_uuids (a : list Ref) (s s' : State) :
  Step a s s' -> st_uuids s <= st_uuids s'.
Proof. now intros (? & _). Qed.

Lemma addLocalFileDownload_mono (p : string) (s : State) :
  st_uuids s <= st_uuids (snd (addLocalFileDownload env p s)).
Proof.
  unfold addLocalFileDownload, generateUUID, copyFileSync, readLocal, push,
    bind, modify, gets, ret, throw.
  simpl. destruct (readSource env p), (st_outDir s); simpl; lia.
Qed.

Lemma addURLDownload_mono (u : string) (s : State) :
  st_uuids s <= st_uuids (snd (addURLDownload env u s)).
Proof.
  unfold addURLDownload, mkdtempSync, generateUUID, writeTemp, rmTemp,
    consoleLog, push, bind, modify, gets, ret, throw.
  simpl. destruct (fetch env u) as [|? ? []]; simpl; try lia.
  destruct (normalizeUrl env u); simpl; lia.
Qed.

Lemma addFromObject_mono (obj : Installation) (s : State) :
  st_uuids s <= st_uuids (snd (addFromObject env obj s)).
Proof.
  unfold addFromObject.
  cbv beta iota delta [bind downloadExistsLocalFile downloadExistsURL gets ret].
  destruct (inst_localPath obj) as [p|].
  - pose proof (addLocalFileDownload_mono p s) as H.
    destruct (downloadExistsLocalFile_loop env p (st_downloads s)) as [i|];
      [destruct (JS.truthy (Some i)); simpl; [lia|]|];
      destruct (addLocalFileDownload env p s) as [[d|e] s1]; simpl in *; lia.
  - destruct (inst_url obj) as [u|]; [|simpl; lia].
    pose proof (addURLDownload_mono u s) as H.
    destruct (downloadExistsURL_loop env u (st_downloads s)) as [[i|]|];
      [destruct (JS.truthy (Some i)); simpl; [lia|]| |simpl; lia];
      destruct (addURLDownload env u s) as [[d|e] s1]; simpl in *; lia.
Qed.

Lemma addFromObject_spec (obj : Installation) (s s' : State)
    (r : Result Installation) :
  Inv env [] s ->
  st_temp s = [] ->
  addFromObject env obj s = (r, s') ->
  st_uuids s' <= N ->
  Step (instRefs [obj]) s s' /\
  match r with
  | Ok obj' =>
      Inv env [] s' /\ st_temp s' = [] /\
      obj' = resolvedInst env (st_downloads s') obj /\
      Covered env (st_downloads s') obj
  | Throw _ => exists pending, Inv env pending s'
  end.
Proof.
  intros HI Htemp Hrun HN.
  assert (HNs : st_uuids s <= N).
  { pose proof (addFromObject_mono obj s) as H. rewrite Hrun in H.
    simpl in H. lia. }
  pose proof (truthy_registered s) as Htruthy.
  unfold addFromObject, instRefs, resolvedInst, Covered, keyOf, refOf in *.
  simpl. rewrite app_nil_r.
  cbv beta iota delta [bind downloadExistsLocalFile downloadExistsURL gets ret]
    in Hrun.
  destruct (inst_localPath obj) as [p|] eqn:Hp.
  - (* a local path *)
    rewrite downloadExistsLocalFile_lookup in Hrun. simpl.
    destruct (lookup (KLocalFile (normalize env p)) (st_downloads s))
      as [i|] eqn:Hl.
    + rewrite (Htruthy _ i HI HNs Hl) in Hrun. injection Hrun as <- <-.
      rewrite Hl. split; [apply Step_refl|].
      repeat split; eauto; same_installation.
    + destruct (addLocalFileDownload env p s) as [[d|e] s1] eqn:E;
        injection Hrun as <- <-;
        destruct (addLocalFileDownload_spec p s s1 _ HI Hl E HN)
          as (HS & Ht & Hpost).
      * destruct Hpost as (HI' & Hl'). rewrite Hl'.
        split; [exact HS|]. repeat split; eauto; try congruence;
          same_installation.
      * split; [exact HS|eauto].
  - destruct (inst_url obj) as [u|] eqn:Hu.
    + (* a URL *)
      assert (Hadd : forall d s1, addURLDownload env u s = (d, s1) ->
                st_uuids s1 <= N ->
                (forall n, normalizeUrl env u = Some n ->
                           lookup (KUrl n) (st_downloads s) = None) ->
                Step [RUrl u] s s1 /\
                match d with
                | Ok id =>
                    Inv env [] s1 /\ st_temp s1 = [] /\
                    exists n, normalizeUrl env u = Some n /\
                              lookup (KUrl n) (st_downloads s1) = Some id
                | Throw _ => Inv env [RUrl u] s1
                end).
      { intros d s1 E HN1 Hnone.
        apply (addURLDownload_spec u s s1 d HI Htemp Hnone E HN1). }
      simpl. destruct (normalizeUrl env u) as [n|] eqn:Hn; simpl.
      * rewrite (downloadExistsURL_lookup env u n _ Hn) in Hrun.
        destruct (lookup (KUrl n) (st_downloads s)) as [i|] eqn:Hl.
        -- rewrite (Htruthy _ i HI HNs Hl) in Hrun. injection Hrun as <- <-.
           rewrite Hl. split; [apply Step_refl|].
           repeat split; eauto; same_installation.
        -- destruct (addURLDownload env u s) as [[d|e] s1] eqn:E;
             injection Hrun as <- <-.
           ++ destruct (Hadd _ _ eq_refl HN)
                as (HS & HI' & Ht & n' & Hn' & Hl').
              { intros n0 E0. now injection E0 as <-. }
              injection Hn' as <-. rewrite Hl'.
              split; [exact HS|]. repeat split; eauto; same_installation.
           ++ destruct (Hadd _ _ eq_refl HN) as (HS & HI').
              { intros n0 E0. now injection E0 as <-. }
              split; [exact HS|eauto].
      * destruct (downloadExistsURL_invalid env u (st_downloads s) Hn)
          as [E0|E0]; rewrite E0 in Hrun.
        -- destruct (addURLDownload env u s) as [[d|e] s1] eqn:E;
             injection Hrun as <- <-.
           ++ destruct (Hadd _ _ eq_refl HN)
                as (HS & HI' & Ht & n' & Hn' & Hl');
                [intros; discriminate|discriminate].
           ++ destruct (Hadd _ _ eq_refl HN) as (HS & HI');
                [intros; discriminate|].
              split; [exact HS|eauto].
        -- injection Hrun as <- <-. split; [apply Step_refl|].
           exists []. exact HI.
    + (* no reference *)
      injection Hrun as <- <-.
      split; [apply Step_refl|]. repeat split; auto.
      destruct obj; simpl in *. now subst.
Qed.

Lemma sortFiles_spec (i : Installation) (s : State) :
  sortFiles i s = (Ok (sortedFiles i), s) \/
  exists e, sortFiles i s = (Throw e, s).
Proof.
  unfold sortFiles, sortedFiles.
  destruct (String.eqb (inst_type i) "cabextract").
  - destruct (inst_files i); [now left|right; now exists TypeError].
  - left. now destruct i.
Qed.

Lemma Covered_app (ds new : list Download) (i : Installation) :
  Covered env ds i -> Covered env (ds ++ new) i.
Proof.
  unfold Covered. destruct (refOf i); [|auto].
  intros (k & id & Hk & Hl). exists k, id. split; [exact Hk|].
  now rewrite lookup_app, Hl.
Qed.

Lemma resolvedInst_app (ds new : list Download) (i : Installation) :
  Covered env ds i ->
  resolvedInst env (ds ++ new) i = resolvedInst env ds i.
Proof.
  unfold Covered, resolvedInst, keyOf. destruct (refOf i); [|auto].
  intros (k & id & Hk & Hl). now rewrite Hk, lookup_app, Hl.
Qed.

Lemma compiled_app (ds new : list Download) (i : Installation) :
  Covered env ds i -> compiled env (ds ++ new) i = compiled env ds i.
Proof. intros H. unfold compiled. now rewrite resolvedInst_app. Qed.

Lemma compiledFont_app (ds new : list Download) (f : Font) :
  Forall (Covered env ds) (font_installations f) ->
  compiledFont env (ds ++ new) f = compiledFont env ds f.
Proof.
  intros H. unfold compiledFont. f_equal. f_equal.
  apply map_ext_in. intros i Hi. apply compiled_app.
  rewrite Forall_forall in H. auto.
Qed.

Lemma forEach_mono {A B : Type} (f : A -> M State B) (l : list A) :
  (forall x s, st_uuids s <= st_uuids (snd (f x s))) ->
  forall s, st_uuids s <= st_uuids (snd (forEach f l s)).
Proof.
  intros Hf. induction l as [|x l IH]; intros s; simpl; [lia|].
  unfold bind. pose proof (Hf x s) as H1.
  destruct (f x s) as [[y|e] s1]; simpl in *; [|lia].
  pose proof (IH s1) as H2.
  destruct (forEach f l s1) as [[ys|e] s2]; simpl in *; lia.
Qed.

Lemma installation_mono (i : Installation) (s : State) :
  st_uuids s <=
  st_uuids (snd (bind (addFromObject env i) (fun i => sortFiles i) s)).
Proof.
  unfold bind. pose proof (addFromObject_mono i s) as H.
  destruct (addFromObject env i s) as [[i'|e] s1]; simpl in *; [|lia].
  destruct (sortFiles_spec i' s1) as [E|(e & E)]; rewrite E; simpl; lia.
Qed.

Lemma installations_spec (insts : list Installation) :
  forall (s s' : State) (r : Result (list Installation)),
  Inv env [] s ->
  st_temp s = [] ->
  forEach (fun installation =>
             bind (addFromObject env installation) (fun i => sortFiles i))
          insts s = (r, s') ->
  st_uuids s' <= N ->
  Step (instRefs insts) s s' /\
  match r with
  | Ok insts' =>
      Inv env [] s' /\ st_temp s' = [] /\
      insts' = map (compiled env (st_downloads s')) insts /\
      Forall (Covered env (st_downloads s')) insts
  | Throw _ => exists pending, Inv env pending s'
  end.
Proof.
  induction insts as [|i insts IH]; intros s s' r HI Htemp Hrun HN.
  - injection Hrun as <- <-. split; [apply Step_refl|]. auto.
  - simpl in Hrun.
    assert (Hincl1 : incl (instRefs [i]) (instRefs (i :: insts))).
    { simpl. rewrite app_nil_r. apply incl_appl, incl_refl. }
    assert (Hincl2 : incl (instRefs insts) (instRefs (i :: insts))).
    { simpl. apply incl_appr, incl_refl. }
    destruct (addFromObject env i s) as [[i'|e] s1] eqn:E1.
    2:{ rewrite (bind_Throw _ _ _ _ _ (bind_Throw _ _ _ _ _ E1)) in Hrun.
        injection Hrun as <- <-.
        destruct (addFromObject_spec i s s1 _ HI Htemp E1 HN) as (HS & HP).
        split; [|exact HP].
        eapply Step_trans; [| |exact HS|apply Step_refl]; auto.
        apply incl_refl. }
    destruct (sortFiles_spec i' s1) as [E2|(e & E2)].
    2:{ assert (Einner : bind (addFromObject env i) (fun i => sortFiles i) s
                        = (Throw e, s1))
          by (rewrite (bind_Ok _ _ _ _ _ E1); exact E2).
        rewrite (bind_Throw _ _ _ _ _ Einner) in Hrun.
        injection Hrun as <- <-.
        destruct (addFromObject_spec i s s1 _ HI Htemp E1 HN)
          as (HS & HI1 & _).
        split; [|eauto].
        eapply Step_trans; [| |exact HS|apply Step_refl]; auto.
        apply incl_refl. }
    assert (Einner : bind (addFromObject env i) (fun i => sortFiles i) s
                     = (Ok (sortedFiles i'), s1))
      by (rewrite (bind_Ok _ _ _ _ _ E1); exact E2).
    rewrite (bind_Ok _ _ _ _ _ Einner) in Hrun.
    match type of Hrun with
    | bind (forEach ?f insts) _ s1 = _ =>
        pose proof (forEach_mono f insts installation_mono s1) as Hmono;
        destruct (forEach f insts s1) as [[insts'|e] s2] eqn:E3
    end; simpl in Hmono.
    + rewrite (bind_Ok _ _ _ _ _ E3) in Hrun. injection Hrun as <- <-.
      assert (HN1 : st_uuids s1 <= N) by lia.
      destruct (addFromObject_spec i s s1 _ HI Htemp E1 HN1)
        as (HS1 & HI1 & Ht1 & -> & Hc).
      destruct (IH s1 s2 _ HI1 Ht1 E3 HN) as (HS2 & HI2 & Ht2 & -> & Hcs).
      split; [eapply Step_trans; [| |exact HS1|exact HS2]; auto|].
      destruct HS2 as (HU2 & (new & Hnew) & HR2).
      repeat split; auto.
      * simpl. f_equal. fold (compiled env (st_downloads s1) i).
        rewrite Hnew. symmetry. now apply compiled_app.
      * constructor; [|exact Hcs]. rewrite Hnew. now apply Covered_app.
    + rewrite (bind_Throw _ _ _ _ _ E3) in Hrun. injection Hrun as <- <-.
      assert (HN1 : st_uuids s1 <= N) by lia.
      destruct (addFromObject_spec i s s1 _ HI Htemp E1 HN1)
        as (HS1 & HI1 & Ht1 & -> & Hc).
      destruct (IH s1 s2 _ HI1 Ht1 E3 HN) as (HS2 & HP).
      split; [|exact HP].
      eapply Step_trans; [| |exact HS1|exact HS2]; auto.
Qed.

Lemma compileFont_mono (f : Font) (s : State) :
  st_uuids s <= st_uuids (snd (compileFont env f s)).
Proof.
  unfold compileFont.
  match goal with
  | |- context [bind (forEach ?g ?l) _ s] =>
      pose proof (forEach_mono g l installation_mono s) as H;
      destruct (forEach g l s) as [[insts|e] s1] eqn:E
  end.
  - now rewrite (bind_Ok _ _ _ _ _ E).
  - now rewrite (bind_Throw _ _ _ _ _ E).
Qed.

Lemma compileFont_spec (f : Font) (s s' : State) (r : Result Font) :
  Inv env [] s ->
  st_temp s = [] ->
  compileFont env f s = (r, s') ->
  st_uuids s' <= N ->
  Step (instRefs (font_installations f)) s s' /\
  match r with
  | Ok f' =>
      Inv env [] s' /\ st_temp s' = [] /\
      f' = compiledFont env (st_downloads s') f /\
      Forall (Covered env (st_downloads s')) (font_installations f)
  | Throw _ => exists pending, Inv env pending s'
  end.
Proof.
  intros HI Htemp Hrun HN. unfold compileFont in Hrun.
  match type of Hrun with
  | bind (forEach ?g ?l) _ s = _ =>
      destruct (forEach g l s) as [[insts|e] s1] eqn:E
  end.
  - rewrite (bind_Ok _ _ _ _ _ E) in Hrun. injection Hrun as <- <-.
    destruct (installations_spec _ s s1 _ HI Htemp E HN)
      as (HS & HI1 & Ht1 & -> & Hc).
    split; [exact HS|]. repeat split; auto.
  - rewrite (bind_Throw _ _ _ _ _ E) in Hrun. injection Hrun as <- <-.
    destruct (installations_spec _ s s1 _ HI Htemp E HN) as (HS & HP).
    split; assumption.
Qed.

Lemma fonts_spec (fonts : list Font) :
  forall (s s' : State) (r : Result (list Font)),
  Inv env [] s ->
  st_temp s = [] ->
  forEach (compileFont env) fonts s = (r, s') ->
  st_uuids s' <= N ->
  Step (catalogRefs fonts) s s' /\
  match r with
  | Ok fonts' =>
      Inv env [] s' /\ st_temp s' = [] /\
      fonts' = map (compiledFont env (st_downloads s')) fonts /\
      Forall (fun f => Forall (Covered env (st_downloads s'))
                              (font_installations f)) fonts
  | Throw _ => exists pending, Inv env pending s'
  end.
Proof.
  induction fonts as [|f fonts IH]; intros s s' r HI Htemp Hrun HN.
  - injection Hrun as <- <-. split; [apply Step_refl|]. auto.
  - simpl in Hrun.
    assert (Hincl1 : incl (instRefs (font_installations f))
                          (catalogRefs (f :: fonts))).
    { simpl. apply incl_appl, incl_refl. }
    assert (Hincl2 : incl (catalogRefs fonts) (catalogRefs (f :: fonts))).
    { simpl. apply incl_appr, incl_refl. }
    destruct (compileFont env f s) as [[f'|e] s1] eqn:E1.
    2:{ rewrite (bind_Throw _ _ _ _ _ E1) in Hrun. injection Hrun as <- <-.
        destruct (compileFont_spec f s s1 _ HI Htemp E1 HN) as (HS & HP).
        split; [|exact HP].
        eapply Step_trans; [| |exact HS|apply Step_refl]; auto.
        apply incl_refl. }
    rewrite (bind_Ok _ _ _ _ _ E1) in Hrun.
    pose proof (forEach_mono (compileFont env) fonts compileFont_mono s1)
      as Hmono.
    destruct (forEach (compileFont env) fonts s1) as [[fonts'|e] s2] eqn:E2;
      simpl in Hmono.
    + rewrite (bind_Ok _ _ _ _ _ E2) in Hrun. injection Hrun as <- <-.
      assert (HN1 : st_uuids s1 <= N) by lia.
      destruct (compileFont_spec f s s1 _ HI Htemp E1 HN1)
        as (HS1 & HI1 & Ht1 & -> & Hc).
      destruct (IH s1 s2 _ HI1 Ht1 E2 HN) as (HS2 & HI2 & Ht2 & -> & Hcs).
      split; [eapply Step_trans; [| |exact HS1|exact HS2]; auto|].
      destruct HS2 as (HU2 & (new & Hnew) & HR2).
      repeat split; auto.
      * simpl. f_equal. rewrite Hnew. symmetry. now apply compiledFont_app.
      * constructor; [|exact Hcs]. rewrite Hnew.
        eapply Forall_impl; [|exact Hc]. intros i. apply Covered_app.
    + rewrite (bind_Throw _ _ _ _ _ E2) in Hrun. injection Hrun as <- <-.
      assert (HN1 : st_uuids s1 <= N) by lia.
      destruct (compileFont_spec f s s1 _ HI Htemp E1 HN1)
        as (HS1 & HI1 & Ht1 & -> & Hc).
      destruct (IH s1 s2 _ HI1 Ht1 E2 HN) as (HS2 & HP).
      split; [|exact HP].
      eapply Step_trans; [| |exact HS1|exact HS2]; auto.
Qed.

(** Whatever the status of the response, a body that streams to the
    end is registered. *)
Lemma any_status_registered (u n : string) (status : Z) (body : list byte)
    (s : State) :
  fetch env u = Response status body true ->
  normalizeUrl env u = Some n ->
  st_temp s = [] ->
  exists s',
    addURLDownload env u s = (Ok (randomUUID env (st_uuids s)), s') /\
    st_downloads s' =
      st_downloads s ++
      [ {| dl_id := randomUUID env (st_uuids s);
           dl_downloadURL := u;
           dl_fileSize := List.length body;
           dl_hash := computeFileHash env body;
           dl_key := KUrl n |} ] /\
    st_console s' = st_console s /\
    st_temp s' = [].
Proof.
  intros Hf Hn Ht.
  unfold addURLDownload, mkdtempSync, generateUUID, writeTemp, rmTemp,
    consoleLog, push, bind, modify, gets, ret, throw.
  simpl. rewrite Hf, Hn, Ht. simpl. rewrite Nat.eqb_refl. simpl.
  rewrite Nat.eqb_refl. simpl. eexists. repeat split.
Qed.

(** When the request fails, the temporary directory made for it stays. *)
Lemma rejected_leaves_temp (u : string) (s : State) :
  fetch env u = Rejected ->
  exists s',
    addURLDownload env u s = (Throw (FetchError u), s') /\
    st_temp s' = st_temp s ++ [(st_tempCount s, [])] /\
    st_console s' =
      st_console s ++ [("Failed to download file from URL: " ++ u)%string].
Proof.
  intros Hf.
  unfold addURLDownload, mkdtempSync, generateUUID, writeTemp, rmTemp,
    consoleLog, push, bind, modify, gets, ret, throw.
  simpl. rewrite Hf. simpl. eexists. repeat split.
Qed.

End Traversal.

(** ** What a run of the build leaves behind *)

Section Runs.
Import Build BuildSpec BuildInv.
Variable env : Env.

Lemma clearOutDir_start (outDir : option Dir) :
  clearOutDir (start outDir) = (Ok tt, start (Some [])).
Proof. destruct outDir; reflexivity. Qed.

Lemma Inv_start : Inv env [] (start (Some [])).
Proof.
  exists [], []. simpl. repeat split; auto; constructor.
Qed.

Lemma staged_not_manifest (N : nat) (s : State) (pending : list Ref)
    (dir : Dir) :
  uuids_ok (randomUUID env) N -> st_uuids s <= N ->
  Inv env pending s -> st_outDir s = Some dir ->
  ~ In "fonts.json" (keys dir).
Proof.
  intros Hu HN (dir' & refs & Hout & _ & _ & Hkeys & Hids & _) Hd Hin.
  rewrite Hout in Hd. injection Hd as ->.
  rewrite Hkeys in Hin.
  destruct (stagedNames_In env _ _ _ Hin) as (d & p & Hdin & He).
  apply (f_equal String.length) in He. rewrite append_length in He.
  rewrite (id_length env N Hu _ _ d Hids HN Hdin) in He.
  simpl in He. lia.
Qed.

(** A run that succeeds. *)
Lemma run_ok (outDir : option Dir) (fonts : Catalog) (s' : State) :
  run env outDir fonts = (Ok tt, s') ->
  uuids_ok (randomUUID env) (st_uuids s') ->
  let ds := st_downloads s' in
  exists dir,
    st_outDir s' =
      Some (dir ++ [("fonts.json",
                     Json (manifest env
                             (map (compiledFont env ds) (cat_fonts fonts))
                             ds))]) /\
    ~ In "fonts.json" (keys dir) /\
    Forall2 (entry env dir) (st_resolved s') ds /\
    keys dir = stagedNames env (st_resolved s') ds /\
    NoDup (map dl_id ds) /\
    NoDup (map dl_key ds) /\
    incl (st_resolved s') (catalogRefs (cat_fonts fonts)) /\
    Forall (fun f => Forall (Covered env ds) (font_installations f))
           (cat_fonts fonts) /\
    st_temp s' = [].
Proof.
  intros Hrun Hu ds. unfold run, main in Hrun.
  rewrite (bind_Ok _ _ _ _ _ (clearOutDir_start outDir)) in Hrun.
  destruct (forEach (compileFont env) (cat_fonts fonts) (start (Some [])))
    as [[compiled|e] s1] eqn:E.
  2:{ rewrite (bind_Throw _ _ _ _ _ E) in Hrun. discriminate. }
  rewrite (bind_Ok _ _ _ _ _ E) in Hrun.
  unfold bind, gets, writeManifest in Hrun.
  destruct (st_outDir s1) as [dir|] eqn:Hout; [|discriminate].
  injection Hrun as <-. subst ds. simpl in *.
  destruct (fonts_spec env (st_uuids s1) Hu (cat_fonts fonts) _ _ _
              Inv_start eq_refl E (le_n _))
    as ((_ & _ & (new & Hnew & Hincl)) & HI & Ht & -> & Hc).
  pose proof (staged_not_manifest _ s1 [] dir Hu (le_n _) HI Hout) as Hfresh.
  destruct HI as (dir' & refs & Hout' & Hres & Hent & Hkeys & _ & Hnd & Hndk & _).
  rewrite Hout in Hout'. injection Hout' as <-.
  rewrite app_nil_r in Hres. simpl in Hnew. subst new.
  exists dir. rewrite keys_writeFile_new by assumption.
  rewrite Hres. repeat split; auto. now rewrite <- Hres.
Qed.

(** A run that fails. *)
Lemma run_throw (outDir : option Dir) (fonts : Catalog) (e : Error)
    (s' : State) :
  run env outDir fonts = (Throw e, s') ->
  uuids_ok (randomUUID env) (st_uuids s') ->
  incl (st_resolved s') (catalogRefs (cat_fonts fonts)) /\
  exists pending dir,
    Inv env pending s' /\ st_outDir s' = Some dir /\
    ~ In "fonts.json" (keys dir).
Proof.
  intros Hrun Hu. unfold run, main in Hrun.
  rewrite (bind_Ok _ _ _ _ _ (clearOutDir_start outDir)) in Hrun.
  destruct (forEach (compileFont env) (cat_fonts fonts) (start (Some [])))
    as [[compiled|e'] s1] eqn:E.
  - rewrite (bind_Ok _ _ _ _ _ E) in Hrun.
    unfold bind, gets, writeManifest in Hrun.
    destruct (fonts_spec env (st_uuids s') Hu (cat_fonts fonts) _ s1 _
                Inv_start eq_refl E)
      as (_ & (dir & refs & Hout & _) & _).
    + destruct (st_outDir s1); injection Hrun as _ <-; simpl; lia.
    + rewrite Hout in Hrun. discriminate.
  - rewrite (bind_Throw _ _ _ _ _ E) in Hrun. injection Hrun as <- <-.
    destruct (fonts_spec env (st_uuids s1) Hu (cat_fonts fonts) _ _ _
                Inv_start eq_refl E (le_n _))
      as ((_ & _ & (new & Hnew & Hincl)) & pending & HI).
    simpl in Hnew. subst new. split; [exact Hincl|].
    pose proof HI as (dir & refs & Hout & _).
    exists pending, dir. repeat split; auto.
    eapply staged_not_manifest; eauto.
Qed.

End Runs.

(** ** The manifest and its installations *)

Section Manifest.
Import Build BuildSpec BuildInv.
Variable env : Env.

Lemma written_writeFile (s : State) (dir : Dir) (doc : Doc) :
  st_outDir s = Some (dir ++ [("fonts.json", Json doc)]) ->
  ~ In "fonts.json" (keys dir) ->
  written s = Some doc.
Proof.
  intros Hout Hfresh. unfold written. rewrite Hout.
  now rewrite get_app_new.
Qed.

Lemma obj_installations_font (f : Font) :
  obj_installations (font f) =
  JS.sort sortByDownloadID (font_installations f).
Proof. reflexivity. Qed.

Lemma compiled_in_fonts (ds : list Download) (fs : list Font) (f : Font)
    (i : Installation) :
  In f fs -> In i (font_installations f) ->
  In (compiled env ds i)
     (flat_map obj_installations
        (map font (JS.sort sortByName (map (compiledFont env ds) fs)))).
Proof.
  intros Hf Hi. apply in_flat_map.
  exists (font (compiledFont env ds f)). split.
  - apply in_map, sort_In, in_map, Hf.
  - rewrite obj_installations_font. apply sort_In. simpl.
    apply sort_In, in_map, Hi.
Qed.


Lemma countId_perm (id : string) (l l' : list DownloadOut) :
  Permutation l l' -> countId id l = countId id l'.
Proof.
  intros H. unfold countId.
  induction H; simpl; auto; try congruence.
  - destruct (String.eqb (out_id x) id); simpl; congruence.
  - destruct (String.eqb (out_id x) id), (String.eqb (out_id y) id);
      reflexivity.
Qed.

Lemma countId_absent (id : string) (ds : list Download) :
  ~ In id (map dl_id ds) -> countId id (map downloadOut ds) = 0.
Proof.
  unfold countId. induction ds as [|d ds IH]; simpl; [reflexivity|].
  intros Hn. destruct (String.eqb (dl_id d) id) eqn:E.
  - apply String.eqb_eq in E. tauto.
  - apply IH. tauto.
Qed.

Lemma countId_unique (id : string) (ds : list Download) :
  NoDup (map dl_id ds) -> In id (map dl_id ds) ->
  countId id (map downloadOut ds) = 1.
Proof.
  induction ds as [|d ds IH]; simpl; [tauto|].
  intros Hnd Hin. inversion Hnd as [|? ? Hn Hnd']; subst.
  unfold countId. simpl.
  destruct (String.eqb (dl_id d) id) eqn:E.
  - apply String.eqb_eq in E. subst. simpl. f_equal.
    now apply countId_absent.
  - apply String.eqb_neq in E. apply IH; tauto.
Qed.

Lemma doc_downloads_manifest (fs : list Font) (ds : list Download) :
  doc_downloads (manifest env fs ds) =
  JS.sort compareById (map downloadOut ds).
Proof. reflexivity. Qed.

Lemma doc_fonts_manifest (fs : list Font) (ds : list Download) :
  doc_fonts (manifest env fs ds) = map font (JS.sort sortByName fs).
Proof. reflexivity. Qed.

Lemma entry_canon (dir : Dir) (r : Ref) (d : Download) :
  entry env dir r d -> canon env r = Some (dl_key d).
Proof.
  destruct r as [p|u]; simpl.
  - intros (c & _ & -> & _). reflexivity.
  - intros (st & b & n & _ & -> & -> & _). reflexivity.
Qed.

Lemma runs_registered (dir : Dir) (k : Key) (refs : list Ref)
    (ds : list Download) :
  Forall2 (entry env dir) refs ds ->
  runsOn env k refs =
  List.length (filter (fun d => Key_eqb (dl_key d) k) ds).
Proof.
  unfold runsOn. induction 1 as [|r d refs ds He Hf IH]; simpl; auto.
  rewrite (entry_canon _ _ _ He).
  destruct (Key_eqb (dl_key d) k); simpl; auto.
Qed.

Lemma keys_count (k : Key) (ds : list Download) :
  NoDup (map dl_key ds) ->
  List.length (filter (fun d => Key_eqb (dl_key d) k) ds) <= 1 /\
  (~ In k (map dl_key ds) ->
   List.length (filter (fun d => Key_eqb (dl_key d) k) ds) = 0).
Proof.
  induction ds as [|d ds IH]; simpl; intros Hnd; [auto|].
  inversion Hnd as [|? ? Hn Hnd']; subst.
  destruct (IH Hnd') as (IH1 & IH2).
  destruct (Key_eqb (dl_key d) k) eqn:E; simpl.
  - apply Key_eqb_eq in E. subst. rewrite IH2 by assumption.
    split; [lia|tauto].
  - split; [assumption|]. intros H. apply IH2. tauto.
Qed.

Lemma runsOn_app (k : Key) (l l' : list Ref) :
  runsOn env k (l ++ l') = runsOn env k l + runsOn env k l'.
Proof. unfold runsOn. now rewrite filter_app, length_app. Qed.

(** Under the invariant the resolver has run at most once on every
    canonical key. *)
Lemma runsOn_Inv (pending : list Ref) (s : State) (k : Key) :
  Inv env pending s -> runsOn env k (st_resolved s) <= 1.
Proof.
  intros (dir & refs & _ & Hres & Hent & _ & _ & _ & Hndk & Hp & Hlen).
  rewrite Hres, runsOn_app, (runs_registered dir k refs _ Hent).
  destruct (keys_count k _ Hndk) as (H1 & H0).
  destruct pending as [|r [|r' pending]]; simpl in Hlen; try lia.
  - unfold runsOn. simpl. lia.
  - unfold runsOn at 1. simpl.
    destruct (canon env r) as [k'|] eqn:Hc; simpl; [|lia].
    destruct (Key_eqb k' k) eqn:E; simpl; [|lia].
    apply Key_eqb_eq in E. subst.
    inversion Hp as [|? ? Hr _]; subst.
    rewrite H0; [lia|]. apply lookup_None. now apply Hr.
Qed.

End Manifest.

(** ** Registry entries and hexadecimal digests *)

Lemma Forall2_In_right {A B : Type} (R : A -> B -> Prop) (l : list A)
    (l' : list B) (y : B) :
  Forall2 R l l' -> In y l' -> exists x, In x l /\ R x y.
Proof.
  induction 1 as [|x y' l l' HR HF IH]; simpl; [tauto|].
  intros [->|Hin]; [eauto|].
  destruct (IH Hin) as (x' & ? & ?). eauto.
Qed.

Lemma hex_byte_lower (b : byte) :
  BuildInv.isLowerHex (Build.hexDigit (Byte.to_N b / 16)) = true /\
  BuildInv.isLowerHex (Build.hexDigit (Byte.to_N b mod 16)) = true.
Proof. destruct b; split; reflexivity. Qed.

(** [digest('hex')] yields lowercase hexadecimal digits, two per byte. *)
Lemma hex_lower (bs : list byte) :
  BuildInv.allChars BuildInv.isLowerHex (Build.hex bs) = true /\
  String.length (Build.hex bs) = 2 * List.length bs.
Proof.
  induction bs as [|b bs (IH1 & IH2)]; [split; reflexivity|].
  destruct (hex_byte_lower b) as (H1 & H2).
  split.
  - cbn [Build.hex BuildInv.allChars]. now rewrite H1, H2, IH1.
  - cbn [Build.hex String.length List.length]. rewrite IH2. lia.
Qed.

Lemma In_sorted_downloads (ds : list Build.Download) (o : Build.DownloadOut) :
  In o (JS.sort Build.compareById (map Build.downloadOut ds)) ->
  exists d, In d ds /\ o = Build.downloadOut d.
Proof.
  intros H. apply sort_In, in_map_iff in H.
  destruct H as (d & <- & Hd). eauto.
Qed.

(** ** The staged assets *)

Section Staged.
Import Build BuildSpec BuildInv.
Variable env : Env.

Lemma stagedNames_NoDup (refs : list Ref) (ds : list Download) :
  Forall (fun d => String.length (dl_id d) = 36) ds ->
  NoDup (map dl_id ds) ->
  NoDup (stagedNames env refs ds).
Proof.
  revert ds. induction refs as [|r refs IH]; intros [|d ds] Hlen Hnd;
    simpl; try constructor.
  inversion Hlen as [|? ? Hl Hlen']; subst.
  inversion Hnd as [|? ? Hn Hnd']; subst.
  destruct r as [p|u]; [|now apply IH].
  constructor; [|now apply IH].
  intros Hin. destruct (stagedNames_In env _ _ _ Hin) as (d' & q & Hd' & He).
  apply Hn. apply in_map_iff. exists d'. split; [|exact Hd'].
  rewrite Forall_forall in Hlen'.
  symmetry. eapply append_same_length; [|exact He].
  rewrite Hl. symmetry. now apply Hlen'.
Qed.

Lemma staged_source (dir : Dir) (refs : list Ref) (ds : list Download)
    (name : string) :
  Forall2 (entry env dir) refs ds ->
  In name (stagedNames env refs ds) ->
  exists p content d,
    In (RLocal p) refs /\ In d ds /\
    name = (dl_id d ++ extname env p)%string /\
    readSource env p = Some content /\
    get name dir = Some (Binary content).
Proof.
  induction 1 as [|r d refs ds He Hf IH]; simpl; [tauto|].
  assert (Hrest : In name (stagedNames env refs ds) ->
            exists p content d0,
              (r = RLocal p \/ In (RLocal p) refs) /\ (d = d0 \/ In d0 ds) /\
              name = (dl_id d0 ++ extname env p)%string /\
              readSource env p = Some content /\
              get name dir = Some (Binary content)).
  { intros H. destruct (IH H) as (p & c & d0 & ? & ? & ? & ? & ?).
    exists p, c, d0. auto 10. }
  destruct r as [p|u]; [|exact Hrest].
  intros [<-|H]; [|auto].
  destruct He as (content & Hsrc & _ & _ & _ & _ & Hget).
  exists p, content, d. auto 10.
Qed.

Lemma get_In_NoDup {V : Type} (k : string) (v v' : V)
    (o : list (string * V)) :
  NoDup (keys o) -> In (k, v) o -> get k o = Some v' -> v = v'.
Proof.
  induction o as [|[k0 v0] o IH]; simpl; [tauto|].
  intros Hnd Hin Hget. inversion Hnd as [|? ? Hn Hnd']; subst.
  destruct (String.eqb k k0) eqn:E.
  - apply String.eqb_eq in E. subst.
    destruct Hin as [Hin|Hin]; [congruence|].
    exfalso. apply Hn. change k0 with (fst (k0, v)). now apply in_map.
  - apply String.eqb_neq in E.
    destruct Hin as [Hin|Hin]; [congruence|]. now apply IH.
Qed.

(** Under the invariant the output directory holds nothing but copies
    of source files, each under the id of a registry entry followed by
    the extension of the source. *)
Lemma Inv_staged (N : nat) (pending : list Ref) (s : State) (dir : Dir)
    (name : string) (f : File) :
  uuids_ok (randomUUID env) N -> st_uuids s <= N ->
  Inv env pending s -> st_outDir s = Some dir -> In (name, f) dir ->
  exists p content d,
    In (RLocal p) (st_resolved s) /\ In d (st_downloads s) /\
    name = (dl_id d ++ extname env p)%string /\
    readSource env p = Some content /\
    f = Binary content.
Proof.
  intros Hu HN HI Hout Hin.
  pose proof HI as
    (dir' & refs & Hout' & Hres & Hent & Hkeys & Hids & Hnd & _).
  rewrite Hout in Hout'. injection Hout' as <-.
  assert (Hname : In name (stagedNames env refs (st_downloads s))).
  { rewrite <- Hkeys. change name with (fst (name, f)). now apply in_map. }
  destruct (staged_source dir _ _ name Hent Hname)
    as (p & content & d & Hp & Hd & He & Hsrc & Hget).
  exists p, content, d. rewrite Hres.
  repeat split; auto; [apply in_or_app; now left|].
  eapply get_In_NoDup; eauto.
  rewrite Hkeys. apply stagedNames_NoDup; [|assumption].
  apply Forall_forall. intros d0 Hd0.
  eapply id_length; eauto.
Qed.

Lemma get_In {V : Type} (k : string) (v : V) (o : list (string * V)) :
  get k o = Some v -> In (k, v) o.
Proof.
  induction o as [|[k0 v0] o IH]; simpl; [discriminate|].
  destruct (String.eqb k k0) eqn:E.
  - apply String.eqb_eq in E. intros [= ->]. left. now subst.
  - intros H. right. now apply IH.
Qed.

(** One asset is staged for each entry of type [localFile], and none
    for the others. *)
Lemma stagedNames_length (dir : Dir) (refs : list Ref) (ds : list Download) :
  Forall2 (entry env dir) refs ds ->
  List.length (stagedNames env refs ds) =
  List.length (filter isLocalFile ds).
Proof.
  induction 1 as [|r d refs ds He Hf IH]; simpl; [reflexivity|].
  unfold isLocalFile at 1.
  destruct r as [p|u]; simpl in He.
  - destruct He as (content & _ & -> & _). simpl. now rewrite IH.
  - destruct He as (status & body & n & _ & _ & -> & _). exact IH.
Qed.

(** The asset of an entry of type [localFile] is in the directory. *)
Lemma local_entry_staged (dir : Dir) (refs : list Ref) (ds : list Download)
    (d : Download) (lf : string) :
  Forall2 (entry env dir) refs ds ->
  In d ds -> dl_key d = KLocalFile lf ->
  exists p content,
    In (RLocal p) refs /\ normalize env p = lf /\
    readSource env p = Some content /\
    In ((dl_id d ++ extname env p)%string, Binary content) dir.
Proof.
  induction 1 as [|r d0 refs ds He Hf IH]; simpl; [tauto|].
  intros [->|Hin] Hk.
  - destruct r as [p|u]; simpl in He.
    + destruct He as (content & Hsrc & Hkey & _ & _ & _ & Hget).
      exists p, content. repeat split; auto; [congruence|].
      now apply get_In.
    + destruct He as (status & body & n & _ & _ & Hkey & _). congruence.
  - destruct (IH Hin Hk) as (p & content & Hp & Hn & Hsrc & Hd).
    exists p, content. auto.
Qed.

(** Under the invariant every entry of type [localFile] has its asset
    in the output directory, which holds one file for each of them. *)
Lemma Inv_complete (N : nat) (pending : list Ref) (s : State) (dir : Dir) :
  uuids_ok (randomUUID env) N -> st_uuids s <= N ->
  Inv env pending s -> st_outDir s = Some dir ->
  (forall d lf, In d (st_downloads s) -> dl_key d = KLocalFile lf ->
     exists p content,
       In (RLocal p) (st_resolved s) /\ normalize env p = lf /\
       readSource env p = Some content /\
       In ((dl_id d ++ extname env p)%string, Binary content) dir) /\
  NoDup (keys dir) /\
  List.length dir = List.length (filter isLocalFile (st_downloads s)).
Proof.
  intros Hu HN HI Hout.
  pose proof HI as
    (dir' & refs & Hout' & Hres & Hent & Hkeys & Hids & Hnd & _).
  rewrite Hout in Hout'. injection Hout' as <-.
  split; [|split].
  - intros d lf Hd Hk.
    destruct (local_entry_staged dir _ _ d lf Hent Hd Hk)
      as (p & content & Hp & Hn & Hsrc & Hin).
    exists p, content. rewrite Hres.
    repeat split; auto. apply in_or_app. now left.
  - rewrite Hkeys. apply stagedNames_NoDup; [|assumption].
    apply Forall_forall. intros d0 Hd0.
    eapply id_length; eauto.
  - rewrite <- (stagedNames_length dir refs _ Hent), <- Hkeys.
    unfold keys. now rewrite length_map.
Qed.

End Staged.

(** ** Orders of the manifest *)

Section Orders.
Import Build BuildSpec BuildInv.

Lemma StronglySorted_map {A B : Type} (R : B -> B -> Prop) (g : A -> B)
    (l : list A) :
  StronglySorted (fun a b => R (g a) (g b)) l -> StronglySorted R (map g l).
Proof.
  induction 1 as [|a l Hs IH Hf]; simpl; constructor; auto.
  apply Forall_map. exact Hf.
Qed.

Lemma inst_le_trans (x y z : Installation) :
  hasDownload x -> hasDownload y -> hasDownload z ->
  inst_le x y -> inst_le y z -> inst_le x z.
Proof.
  unfold hasDownload, inst_le. intros Hx Hy Hz [L1|(E1 & D1)] [L2|(E2 & D2)].
  - left. eapply js_lt_trans; eauto.
  - left. now rewrite <- E2.
  - left. now rewrite E1.
  - right. split; [congruence|].
    intros a c Ha Hc. destruct (inst_download y) as [b|] eqn:Eb; [|tauto].
    eapply str_le_trans; eauto.
Qed.

Lemma sortByDownloadID_le (x y : Installation) :
  hasDownload x -> hasDownload y ->
  (sortByDownloadID x y <= 0)%Z -> inst_le x y.
Proof.
  unfold sortByDownloadID, inst_le, hasDownload. intros Hx Hy.
  destruct (JS.lt (inst_type x) (inst_type y)) eqn:E1; [auto|].
  destruct (JS.gt (inst_type x) (inst_type y)) eqn:E2; [lia|].
  intros H. right. split.
  { destruct (js_lt_trichotomy (inst_type x) (inst_type y)) as [F|[F|F]];
      auto; unfold JS.gt, JS.lt in *; congruence. }
  intros a b Ha Hb. rewrite Ha, Hb in H. simpl in H.
  destruct (JS.lt a b) eqn:E3; [now apply str_le_of_lt|].
  unfold JS.gt_u, JS.lt_u in H. unfold str_le, JS.gt.
  destruct (JS.lt b a) eqn:E4; [lia|]. exact E4.
Qed.

Lemma sortByDownloadID_gt (x y : Installation) :
  hasDownload x -> hasDownload y ->
  (0 < sortByDownloadID x y)%Z -> inst_le y x.
Proof.
  unfold sortByDownloadID, inst_le, hasDownload. intros Hx Hy.
  destruct (JS.lt (inst_type x) (inst_type y)) eqn:E1; [lia|].
  destruct (JS.gt (inst_type x) (inst_type y)) eqn:E2; [auto|].
  intros H. right. split.
  { destruct (js_lt_trichotomy (inst_type x) (inst_type y)) as [F|[F|F]];
      auto; unfold JS.gt, JS.lt in *; congruence. }
  intros b a Hb Ha. rewrite Ha, Hb in H. simpl in H.
  destruct (JS.lt a b) eqn:E3; [lia|].
  unfold JS.gt_u, JS.lt_u in H.
  destruct (JS.lt b a) eqn:E4; [|lia]. now apply str_le_of_lt.
Qed.

(** Installations that all carry a download id are sorted by type, then
    by download id. *)
Lemma installations_sorted (l : list Installation) :
  Forall hasDownload l ->
  StronglySorted inst_le (JS.sort sortByDownloadID l).
Proof.
  apply (sort_sorted sortByDownloadID hasDownload inst_le).
  - apply sortByDownloadID_le.
  - apply sortByDownloadID_gt.
  - apply inst_le_trans.
Qed.

Lemma sortFiles_Ok (i i' : Installation) (s s' : State) :
  sortFiles i s = (Ok i', s') -> filesSorted i'.
Proof.
  unfold sortFiles, filesSorted.
  destruct (String.eqb (inst_type i) "cabextract") eqn:E.
  - destruct (inst_files i) as [files|]; [|discriminate].
    intros H. injection H as <- _. simpl. intros _.
    exists (JS.sortStrings files). split; [reflexivity|].
    apply sortStrings_sorted.
  - intros H. injection H as <- _. intros F.
    apply String.eqb_neq in E. contradiction.
Qed.

Lemma forEach_Forall {A B : Type} (Q : B -> Prop) (f : A -> M State B)
    (l : list A) :
  (forall x s y s', f x s = (Ok y, s') -> Q y) ->
  forall s l' s', forEach f l s = (Ok l', s') -> Forall Q l'.
Proof.
  intros Hf. induction l as [|x l IH]; simpl; intros s l' s' H.
  - injection H as <- _. constructor.
  - destruct (f x s) as [[y|e] s1] eqn:E1.
    2:{ rewrite (bind_Throw _ _ _ _ _ E1) in H. discriminate. }
    rewrite (bind_Ok _ _ _ _ _ E1) in H.
    destruct (forEach f l s1) as [[ys|e] s2] eqn:E2.
    2:{ rewrite (bind_Throw _ _ _ _ _ E2) in H. discriminate. }
    rewrite (bind_Ok _ _ _ _ _ E2) in H. injection H as <- _.
    constructor; eauto.
Qed.

Lemma compileFont_files (env : Env) (f f' : Font) (s s' : State) :
  compileFont env f s = (Ok f', s') ->
  Forall filesSorted (font_installations f').
Proof.
  unfold compileFont. intros H.
  match type of H with
  | bind (forEach ?g ?l) _ s = _ =>
      destruct (forEach g l s) as [[insts|e] s1] eqn:E
  end.
  2:{ rewrite (bind_Throw _ _ _ _ _ E) in H. discriminate. }
  rewrite (bind_Ok _ _ _ _ _ E) in H. injection H as <- _. simpl.
  eapply Permutation_Forall; [symmetry; apply sort_perm|].
  eapply forEach_Forall; [|exact E].
  intros x s0 y s0' Hx. cbv beta in Hx.
  destruct (addFromObject env x s0) as [[x'|e] s2] eqn:E1.
  2:{ rewrite (bind_Throw _ _ _ _ _ E1) in Hx. discriminate. }
  rewrite (bind_Ok _ _ _ _ _ E1) in Hx. eapply sortFiles_Ok; eauto.
Qed.

End Orders.

(** ** Two runs in the same world *)

Section SameWorld.
Import Build BuildSpec BuildInv.
Variables e1 e2 : Env.
Variable n : nat.
Hypothesis same : sameWorld e1 e2 n.

Lemma addLocalFileDownload_uuids (p : string) (s : State) :
  st_uuids (snd (addLocalFileDownload e1 p s)) = S (st_uuids s).
Proof.
  unfold addLocalFileDownload, generateUUID, copyFileSync, readLocal, push,
    bind, modify, gets, ret, throw.
  simpl. destruct (readSource e1 p), (st_outDir s); reflexivity.
Qed.

Lemma addURLDownload_uuids (u : string) (s : State) :
  st_uuids (snd (addURLDownload e1 u s)) = S (st_uuids s).
Proof.
  unfold addURLDownload, mkdtempSync, generateUUID, writeTemp, rmTemp,
    consoleLog, push, bind, modify, gets, ret, throw.
  simpl. destruct (fetch e1 u) as [|? ? []]; simpl; try reflexivity.
  destruct (normalizeUrl e1 u); reflexivity.
Qed.

Lemma addLocalFileDownload_same (p : string) (s : State) :
  st_uuids s < n ->
  addLocalFileDownload e2 p s = addLocalFileDownload e1 p s.
Proof.
  destruct same as (_ & Hp & Hu & Hn & Hx & _ & He & Hh & Hr & _).
  intros Hlt.
  unfold addLocalFileDownload, generateUUID, copyFileSync, readLocal, push,
    bind, modify, gets, ret, throw, computeFileHash, urlPrefix.
  simpl. rewrite <- Hr, <- Hp, <- Hx, <- Hn, <- (Hu _ Hlt).
  destruct (readSource e1 p), (st_outDir s); simpl; try reflexivity.
  now rewrite <- He, <- Hh.
Qed.

Lemma addURLDownload_same (u : string) (s : State) :
  st_uuids s < n ->
  addURLDownload e2 u s = addURLDownload e1 u s.
Proof.
  destruct same as (_ & _ & Hu & _ & _ & Hn & _ & Hh & _ & Hf).
  intros Hlt.
  unfold addURLDownload, mkdtempSync, generateUUID, writeTemp, rmTemp,
    consoleLog, push, bind, modify, gets, ret, throw, computeFileHash.
  simpl. rewrite <- Hf, <- Hn, <- (Hu _ Hlt).
  destruct (fetch e1 u) as [|? ? []]; simpl; try reflexivity.
  destruct (normalizeUrl e1 u); simpl; try reflexivity.
  now rewrite <- Hh.
Qed.

Lemma downloadExistsLocalFile_same (p : string) (ds : list Download) :
  downloadExistsLocalFile_loop e2 p ds = downloadExistsLocalFile_loop e1 p ds.
Proof.
  destruct same as (_ & _ & _ & Hn & _).
  induction ds as [|d ds IH]; simpl; [reflexivity|].
  now rewrite IH, Hn.
Qed.

Lemma downloadExistsURL_same (u : string) (ds : list Download) :
  downloadExistsURL_loop e2 u ds = downloadExistsURL_loop e1 u ds.
Proof.
  destruct same as (_ & _ & _ & _ & _ & Hn & _).
  induction ds as [|d ds IH]; simpl; [reflexivity|].
  now rewrite IH, Hn.
Qed.

Lemma addFromObject_same (obj : Installation) (s : State) :
  st_uuids (snd (addFromObject e1 obj s)) <= n ->
  addFromObject e2 obj s = addFromObject e1 obj s.
Proof.
  unfold addFromObject.
  cbv beta iota delta [bind downloadExistsLocalFile downloadExistsURL gets ret].
  destruct (inst_localPath obj) as [p|].
  - rewrite downloadExistsLocalFile_same.
    pose proof (addLocalFileDownload_uuids p s) as Hq.
    pose proof (addLocalFileDownload_same p s) as Hs.
    destruct (downloadExistsLocalFile_loop e1 p (st_downloads s)) as [i|];
      [destruct (JS.truthy (Some i)); [reflexivity|]|];
      destruct (addLocalFileDownload e1 p s) as [[d|e] s1]; simpl in *;
      intros H; rewrite Hs by lia; reflexivity.
  - destruct (inst_url obj) as [u|]; [|reflexivity].
    rewrite downloadExistsURL_same.
    pose proof (addURLDownload_uuids u s) as Hq.
    pose proof (addURLDownload_same u s) as Hs.
    destruct (downloadExistsURL_loop e1 u (st_downloads s)) as [[i|]|];
      [destruct (JS.truthy (Some i)); [reflexivity|]| |reflexivity];
      destruct (addURLDownload e1 u s) as [[d|e] s1]; simpl in *;
      intros H; rewrite Hs by lia; reflexivity.
Qed.

Lemma forEach_same {A B : Type} (f1 f2 : A -> M State B) (l : list A) :
  (forall x s, st_uuids s <= st_uuids (snd (f1 x s))) ->
  (forall x s, st_uuids (snd (f1 x s)) <= n -> f2 x s = f1 x s) ->
  forall s, st_uuids (snd (forEach f1 l s)) <= n ->
            forEach f2 l s = forEach f1 l s.
Proof.
  intros Hmono Hsame. induction l as [|x l IH]; intros s H; [reflexivity|].
  simpl in *. unfold bind in *.
  pose proof (Hsame x s) as H1.
  pose proof (forEach_mono f1 l Hmono) as Hm.
  destruct (f1 x s) as [[y|e] s1] eqn:E1; simpl in *.
  - pose proof (Hm s1) as Hm1. pose proof (IH s1) as IH1.
    destruct (forEach f1 l s1) as [[ys|e] s2] eqn:E2; simpl in *;
      rewrite H1 by lia; rewrite IH1 by lia; reflexivity.
  - now rewrite H1.
Qed.

Lemma installation_same (i : Installation) (s : State) :
  st_uuids (snd (bind (addFromObject e1 i) (fun i => sortFiles i) s)) <= n ->
  bind (addFromObject e2 i) (fun i => sortFiles i) s =
  bind (addFromObject e1 i) (fun i => sortFiles i) s.
Proof.
  unfold bind. pose proof (addFromObject_same i s) as H.
  destruct (addFromObject e1 i s) as [[i'|e] s1]; simpl in *.
  - destruct (sortFiles_spec i' s1) as [E|(e & E)]; rewrite E; simpl;
      intros Hn; rewrite H by lia; now rewrite E.
  - intros Hn. now rewrite H.
Qed.

Lemma compileFont_same (f : Font) (s : State) :
  st_uuids (snd (compileFont e1 f s)) <= n ->
  compileFont e2 f s = compileFont e1 f s.
Proof.
  unfold compileFont, bind.
  match goal with
  | |- context [forEach ?g1 ?l s] =>
      pose proof (forEach_same g1
        (fun installation =>
           bind (addFromObject e2 installation) (fun i => sortFiles i)) l
        (installation_mono e1) installation_same s) as H;
      destruct (forEach g1 l s) as [[insts|e] s1] eqn:E
  end; simpl in *; intros Hn; unfold bind in H; rewrite H by lia;
    reflexivity.
Qed.

(** The run does not depend on the world beyond the UUIDs it draws, nor
    on what the output directory held. *)
Lemma run_same (o1 o2 : option Dir) (fonts : Catalog) :
  st_uuids (snd (run e1 o1 fonts)) <= n ->
  run e2 o2 fonts = run e1 o1 fonts.
Proof.
  unfold run, main.
  rewrite !(bind_Ok _ _ _ _ _ (clearOutDir_start _)).
  unfold bind, gets, writeManifest, version.
  pose proof (forEach_same (compileFont e1) (compileFont e2) (cat_fonts fonts)
                (compileFont_mono e1) compileFont_same (start (Some [])))
    as H.
  destruct same as (Hv & _).
  destruct (forEach (compileFont e1) (cat_fonts fonts) (start (Some [])))
    as [[compiled|e] s1] eqn:E; simpl in *.
  - destruct (st_outDir s1) eqn:Ho; simpl; intros Hn; rewrite H by lia;
      rewrite Ho, ?Hv; reflexivity.
  - intros Hn. now rewrite H.
Qed.

End SameWorld.

(** ** The manifest of a successful run *)

Lemma run_manifest (env : Build.Env) (outDir : option Build.Dir)
    (fonts : Catalog) (s' : Build.State) :
  BuildSpec.run env outDir fonts = (Ok tt, s') ->
  exists compiled s1,
    forEach (Build.compileFont env) (cat_fonts fonts)
            (BuildSpec.start (Some [])) = (Ok compiled, s1) /\
    Build.st_uuids s' = Build.st_uuids s1 /\
    BuildSpec.written s' =
      Some (BuildSpec.manifest env compiled (Build.st_downloads s1)).
Proof.
  intros Hrun. unfold BuildSpec.run, Build.main in Hrun.
  rewrite (bind_Ok _ _ _ _ _ (clearOutDir_start outDir)) in Hrun.
  destruct (forEach (Build.compileFont env) (cat_fonts fonts)
              (BuildSpec.start (Some []))) as [[compiled|e] s1] eqn:E.
  2:{ rewrite (bind_Throw _ _ _ _ _ E) in Hrun. discriminate. }
  rewrite (bind_Ok _ _ _ _ _ E) in Hrun.
  unfold bind, gets, Build.writeManifest in Hrun.
  destruct (Build.st_outDir s1) as [dir|] eqn:Hout; [|discriminate].
  injection Hrun as <-. exists compiled, s1.
  split; [reflexivity|]. split; [reflexivity|].
  unfold BuildSpec.written. simpl. now rewrite get_writeFile_same.
Qed.

Lemma installations_sorted_by_type (l : list Installation) :
  StronglySorted
    (fun a b => BuildSpec.str_le (inst_type a) (inst_type b))
    (JS.sort Build.sortByDownloadID l).
Proof.
  apply (sort_sorted Build.sortByDownloadID (fun _ => True)).
  - intros x y _ _. unfold Build.sortByDownloadID.
    destruct (JS.lt (inst_type x) (inst_type y)) eqn:E1;
      [intros _; now apply str_le_of_lt|].
    destruct (JS.gt (inst_type x) (inst_type y)) eqn:E2; [lia|].
    intros _. exact E2.
  - intros x y _ _. unfold Build.sortByDownloadID.
    destruct (JS.lt (inst_type x) (inst_type y)) eqn:E1; [lia|].
    intros _. exact E1.
  - intros x y z _ _ _. apply str_le_trans.
  - apply Forall_forall. auto.
Qed.

(** ** The format pass *)

Section FormatFacts.
Import Format FormatSpec.
Variable randomUUID : nat -> string.

Lemma format_sortFiles_spec (source : Installation) (s : State) :
  (exists i', sortFiles source s = (Ok i', s) /\ inst_rel source i') \/
  (exists e, sortFiles source s = (Throw e, s)).
Proof.
  unfold sortFiles, inst_rel.
  destruct (String.eqb (inst_type source) "cabextract").
  - destruct (inst_files source) as [files|] eqn:E.
    + left. eexists. split; [reflexivity|]. simpl.
      repeat split; auto. eexists. split; [reflexivity|].
      symmetry. apply sortStrings_perm.
    + right. now exists TypeError.
  - left. exists source. split; [reflexivity|]. repeat split; auto.
    destruct (inst_files source); eauto.
Qed.

Lemma format_files (l : list Installation) :
  forall s r s', forEach sortFiles l s = (r, s') ->
    s' = s /\
    match r with
    | Ok l' => Forall2 inst_rel l l'
    | Throw _ => True
    end.
Proof.
  induction l as [|i l IH]; simpl; intros s r s' H.
  - injection H as <- <-. split; [reflexivity|constructor].
  - destruct (format_sortFiles_spec i s) as [(i' & E & Hr)|(e & E)].
    + rewrite (bind_Ok _ _ _ _ _ E) in H.
      destruct (forEach sortFiles l s) as [[l'|e] s1] eqn:E1;
        destruct (IH _ _ _ E1) as (-> & HF).
      * rewrite (bind_Ok _ _ _ _ _ E1) in H. injection H as <- <-.
        split; [reflexivity|]. now constructor.
      * rewrite (bind_Throw _ _ _ _ _ E1) in H. injection H as <- <-.
        split; auto.
    + rewrite (bind_Throw _ _ _ _ _ E) in H. injection H as <- <-.
      split; auto.
Qed.

(** The body of the loop of the format pass on one font. *)
Lemma formatFont_spec (f f' : Font) (s s' : State) :
  formatFont randomUUID f s = (Ok f', s') ->
  font_name f' = font_name f /\
  font_shortName f' = font_shortName f /\
  font_publisher f' = font_publisher f /\
  font_categories f' = font_categories f /\
  (exists is', Permutation is' (font_installations f') /\
               Forall2 inst_rel (font_installations f) is') /\
  st_written s' = st_written s /\
  ((font_id f <> sentinel /\ font_id f' = font_id f /\ s' = s) \/
   (font_id f = sentinel /\ font_id f' = randomUUID (st_uuids s) /\
    st_uuids s' = S (st_uuids s) /\
    st_newUUIDs s' = st_newUUIDs s ++ [font_id f'])).
Proof.
  unfold formatFont. intros H.
  assert (Hinst : forall f1 s1,
            font_installations f1 = font_installations f ->
            bind (forEach sortFiles
                    (JS.sort sortByTypeThenLocalPathOrURL
                             (font_installations f1)))
                 (fun installations =>
                    ret (set_installations installations f1)) s1 = (Ok f', s') ->
            s' = s1 /\ f' = set_installations (font_installations f') f1 /\
            exists is', Permutation is' (font_installations f') /\
                        Forall2 inst_rel (font_installations f) is').
  { intros f1 s1 Hf1 H1.
    destruct (forEach sortFiles
                (JS.sort sortByTypeThenLocalPathOrURL (font_installations f1))
                s1) as [[l'|e] s2] eqn:E;
      destruct (format_files _ _ _ _ E) as (-> & HF).
    2:{ rewrite (bind_Throw _ _ _ _ _ E) in H1. discriminate. }
    rewrite (bind_Ok _ _ _ _ _ E) in H1. injection H1 as <- <-.
    split; [reflexivity|]. split; [reflexivity|]. simpl.
    rewrite Hf1 in HF.
    destruct (Permutation_Forall2
                (sort_perm sortByTypeThenLocalPathOrURL (font_installations f))
                HF) as (is' & Hp & HF').
    exists is'. split; [now symmetry|exact HF']. }
  destruct (String.eqb (font_id f) sentinel) eqn:Eid.
  - apply String.eqb_eq in Eid.
    unfold generateUUID, modify, ret in H. unfold bind at 2 3 4 in H.
    rewrite (bind_Ok _ _ _
               (mkState (S (st_uuids s))
                        (st_newUUIDs s ++ [randomUUID (st_uuids s)])
                        (st_written s))
               (set_id (randomUUID (st_uuids s)) f)) in H by reflexivity.
    cbv beta in H.
    destruct (Hinst (set_id (randomUUID (st_uuids s)) f) _ eq_refl H)
      as (-> & -> & Hex).
    simpl. repeat split; auto.
  - apply String.eqb_neq in Eid.
    rewrite (bind_Ok _ _ _ s f) in H by reflexivity.
    cbv beta in H.
    destruct (Hinst f _ eq_refl H) as (-> & -> & Hex).
    simpl. repeat split; auto.
Qed.

Lemma loop_rel_mono (d d' : list string) (f f' : Font) :
  incl d d' -> loop_rel d f f' -> loop_rel d' f f'.
Proof.
  intros Hi (H1 & H2 & H3 & H4 & H5 & H6 & H7).
  repeat split; auto.
Qed.

Lemma format_loop (fonts : list Font) :
  forall s formatted s',
  forEach (formatFont randomUUID) fonts s = (Ok formatted, s') ->
  st_written s' = st_written s /\
  (exists new, st_newUUIDs s' = st_newUUIDs s ++ new /\
               Forall (fun id => exists j, id = randomUUID j) new) /\
  Forall2 (loop_rel (st_newUUIDs s')) fonts formatted.
Proof.
  induction fonts as [|f fonts IH]; simpl; intros s formatted s' H.
  - injection H as <- <-. split; [reflexivity|]. split; [|constructor].
    exists []. now rewrite app_nil_r.
  - destruct (formatFont randomUUID f s) as [[f'|e] s1] eqn:E1.
    2:{ rewrite (bind_Throw _ _ _ _ _ E1) in H. discriminate. }
    rewrite (bind_Ok _ _ _ _ _ E1) in H.
    destruct (forEach (formatFont randomUUID) fonts s1) as [[fs'|e] s2] eqn:E2.
    2:{ rewrite (bind_Throw _ _ _ _ _ E2) in H. discriminate. }
    rewrite (bind_Ok _ _ _ _ _ E2) in H. injection H as <- <-.
    destruct (IH _ _ _ E2) as (Hw & (new & Hnew & Hfresh) & HF).
    destruct (formatFont_spec f f' s s1 E1)
      as (H1 & H2 & H3 & H4 & H5 & Hw1 & Hid).
    split; [congruence|]. split.
    + destruct Hid as [(_ & _ & ->)|(_ & Hid' & _ & Hn1)].
      * exists new. split; assumption.
      * exists ([font_id f'] ++ new). rewrite Hnew, Hn1, <- app_assoc.
        split; [reflexivity|]. constructor; [eauto|assumption].
    + constructor; [|exact HF].
      repeat split; auto.
      * destruct Hid as [(? & ? & _)|(? & _)]; tauto.
      * intros Hs. destruct Hid as [(? & _)|(_ & _ & _ & Hn1)]; [tauto|].
        rewrite Hnew, Hn1. apply in_or_app. left.
        apply in_or_app. right. now left.
Qed.

Lemma font_rel_font (drawn : list string) (f f' : Font) :
  loop_rel drawn f f' -> font_rel drawn f (font f').
Proof.
  intros (H1 & H2 & H3 & H4 & (is' & Hp & HF) & H6 & H7).
  unfold font_rel. repeat split; auto.
  - unfold BuildSpec.obj_categories. simpl. rewrite H4.
    symmetry. apply sortStrings_perm.
  - exists is'. split; [|exact HF].
    unfold BuildSpec.obj_installations. simpl.
    rewrite Hp. symmetry. apply sort_perm.
Qed.

Lemma group_rel_sort (g : Group) : group_rel g (sortGroupFonts g).
Proof.
  repeat split. simpl. symmetry. apply sortStrings_perm.
Qed.

End FormatFacts.

(** * The claims *)

Section Claims.
Import Build BuildSpec BuildInv Examples.

Ltac uuids_checked :=
  split; simpl;
  [ intros i Hi; do 4 (try destruct i as [|i]); try lia; reflexivity
  | intros i j Hij Hj; do 4 (try destruct i as [|i]);
    do 4 (try destruct j as [|j]); try lia; vm_compute; discriminate ].

(** C1 (dedup invariant).  In any run whose UUIDs are distinct, the
    resolver runs at most once on every canonical key; and when the run
    succeeds, the manifest holds the fonts compiled under the final
    registry, any two source installations whose references have the same
    canonical key carry the same download id in it, and exactly one record
    of the [downloads] array has that id. *)
Theorem dedup_invariant (env : Env) (outDir : option Dir) (fonts : Catalog)
    (r : Result unit) (s' : State) :
  run env outDir fonts = (r, s') ->
  uuids_ok (randomUUID env) (st_uuids s') ->
  (forall k, runsOn env k (st_resolved s') <= 1) /\
  (r = Ok tt ->
   exists doc,
     written s' = Some doc /\
     doc_fonts doc =
       map font (JS.sort sortByName
                   (map (compiledFont env (st_downloads s'))
                        (cat_fonts fonts))) /\
     forall f1 i1 f2 i2 k,
       In f1 (cat_fonts fonts) -> In i1 (font_installations f1) ->
       In f2 (cat_fonts fonts) -> In i2 (font_installations f2) ->
       keyOf env i1 = Some k -> keyOf env i2 = Some k ->
       exists id,
         In (compiled env (st_downloads s') i1) (doc_installations doc) /\
         In (compiled env (st_downloads s') i2) (doc_installations doc) /\
         inst_download (compiled env (st_downloads s') i1) = Some id /\
         inst_download (compiled env (st_downloads s') i2) = Some id /\
         countId id (doc_downloads doc) = 1).
Proof.
  intros Hrun Hu. split.
  - intros k. destruct r as [[]|e].
    + destruct (run_ok env _ _ _ Hrun Hu)
        as (dir & _ & _ & Hent & _ & _ & Hndk & _).
      rewrite (runs_registered env dir k _ _ Hent).
      now apply keys_count.
    + destruct (run_throw env _ _ _ _ Hrun Hu) as (_ & pending & dir & HI & _).
      eapply runsOn_Inv; eauto.
  - intros ->.
    destruct (run_ok env _ _ _ Hrun Hu)
      as (dir & Hout & Hfresh & Hent & _ & Hnd & Hndk & _ & Hcov & _).
    eexists. split; [eapply written_writeFile; eauto|].
    split; [reflexivity|].
    intros f1 i1 f2 i2 k Hf1 Hi1 Hf2 Hi2 Hk1 Hk2.
    rewrite Forall_forall in Hcov.
    pose proof (Hcov _ Hf1) as Hc1. pose proof (Hcov _ Hf2) as Hc2.
    rewrite Forall_forall in Hc1, Hc2.
    specialize (Hc1 _ Hi1). specialize (Hc2 _ Hi2).
    unfold Covered, keyOf in *.
    destruct (refOf i1) as [r1|] eqn:E1; [|discriminate].
    destruct (refOf i2) as [r2|] eqn:E2; [|discriminate].
    destruct Hc1 as (k1 & id & Hk1' & Hl1).
    destruct Hc2 as (k2 & id2 & Hk2' & Hl2).
    assert (k1 = k) by congruence. assert (k2 = k) by congruence. subst.
    assert (id2 = id) by congruence. subst.
    exists id. unfold doc_installations. rewrite doc_fonts_manifest.
    split; [now apply (compiled_in_fonts env _ _ f1)|].
    split; [now apply (compiled_in_fonts env _ _ f2)|].
    assert (Hd : forall i r0, refOf i = Some r0 -> canon env r0 = Some k ->
                 inst_download (compiled env (st_downloads s') i) = Some id).
    { intros i r0 Hr Hc. unfold compiled, resolvedInst, keyOf.
      rewrite Hr, Hc, Hl1. reflexivity. }
    split; [now apply (Hd i1 r1)|]. split; [now apply (Hd i2 r2)|].
    rewrite doc_downloads_manifest.
    rewrite (countId_perm id _ _ (sort_perm compareById _)).
    apply countId_unique; [assumption|].
    destruct (lookup_Some _ _ _ Hl1) as (d & Hd' & _ & <-).
    now apply in_map.
Qed.

(** C1, witnessed on the catalog of two fonts that share a local file
    and a URL under different spellings: [./a.exe] of the first font and
    [a.exe] of the second get one id, found once among the downloads. *)
Lemma dedup_invariant_witness :
  run ex_env ex_previous ex_catalog = (Ok tt, ex_final) /\
  uuids_ok (randomUUID ex_env) (st_uuids ex_final) /\
  (forall k, runsOn ex_env k (st_resolved ex_final) <= 1) /\
  exists doc id,
    written ex_final = Some doc /\
    inst_download
      (compiled ex_env (st_downloads ex_final)
         (cab ["b.ttf"; "a.ttf"] (Some "./a.exe") None None)) = Some id /\
    inst_download
      (compiled ex_env (st_downloads ex_final)
         (cab ["arial.ttf"] (Some "a.exe") None None)) = Some id /\
    countId id (doc_downloads doc) = 1.
Proof.
  assert (Hrun : run ex_env ex_previous ex_catalog = (Ok tt, ex_final))
    by (vm_compute; reflexivity).
  assert (Hu : uuids_ok (randomUUID ex_env) (st_uuids ex_final))
    by uuids_checked.
  split; [exact Hrun|]. split; [exact Hu|].
  destruct (dedup_invariant ex_env ex_previous ex_catalog (Ok tt)
              ex_final Hrun Hu) as (Hruns & Hdedup).
  split; [exact Hruns|].
  destruct (Hdedup eq_refl) as (doc & Hw & _ & Hsame).
  destruct (Hsame
              (ex_font "Verdana"
                 [ cab ["b.ttf"; "a.ttf"] (Some "./a.exe") None None;
                   cab ["v.ttf"] None (Some "HTTP://Example.com/f") None ])
              (cab ["b.ttf"; "a.ttf"] (Some "./a.exe") None None)
              (ex_font "Arial"
                 [ cab ["arial.ttf"] (Some "a.exe") None None;
                   cab ["x.ttf"] None (Some "http://example.com/f") None;
                   cab ["y.ttf"] (Some "b.exe") None None ])
              (cab ["arial.ttf"] (Some "a.exe") None None)
              (KLocalFile "a.exe"))
    as (id & _ & _ & H1 & H2 & Hc);
    try (simpl; tauto); try reflexivity.
  exists doc, id. repeat split; assumption.
Defined.

(** C10 (output projection).  The manifest a successful run writes has
    exactly the attributes [version], [downloads] and [fonts], so no
    [groups]; it holds one font object per source font, and every font
    object has exactly the attributes [id], [name], [shortName],
    [publisher], [categories] and [installations], whatever other
    attributes the source font carries. *)
Theorem output_projection (env : Env) (outDir : option Dir) (fonts : Catalog)
    (s' : State) :
  run env outDir fonts = (Ok tt, s') ->
  exists doc,
    written s' = Some doc /\
    keys doc = ["version"; "downloads"; "fonts"] /\
    ~ In "groups" (keys doc) /\
    List.length (doc_fonts doc) = List.length (cat_fonts fonts) /\
    forall o, In o (doc_fonts doc) ->
              keys o = fontKeys /\
              forall f, In f (cat_fonts fonts) ->
                        forall a, In a (font_extra f) ->
                                  ~ In (fst a) fontKeys ->
                                  ~ In (fst a) (keys o).
Proof.
  intros Hrun. unfold run, main in Hrun.
  rewrite (bind_Ok _ _ _ _ _ (clearOutDir_start outDir)) in Hrun.
  destruct (forEach (compileFont env) (cat_fonts fonts) (start (Some [])))
    as [[compiled|e] s1] eqn:E.
  2:{ rewrite (bind_Throw _ _ _ _ _ E) in Hrun. discriminate. }
  rewrite (bind_Ok _ _ _ _ _ E) in Hrun.
  unfold bind, gets, writeManifest in Hrun.
  destruct (st_outDir s1) as [dir|] eqn:Hout; [|discriminate].
  injection Hrun as <-.
  eexists. split.
  { unfold written. simpl. rewrite get_writeFile_same. reflexivity. }
  split; [reflexivity|]. split.
  { simpl. intros [H|[H|[H|[]]]]; discriminate. }
  split.
  { unfold doc_fonts. simpl. rewrite length_map, sort_length.
    clear Hout. revert compiled s1 E.
    generalize (start (Some [])).
    induction (cat_fonts fonts) as [|f fs IH]; simpl; intros s0 compiled s1 E.
    - injection E as <- _. reflexivity.
    - destruct (compileFont env f s0) as [[f'|e] s2] eqn:E1.
      2:{ rewrite (bind_Throw _ _ _ _ _ E1) in E. discriminate. }
      rewrite (bind_Ok _ _ _ _ _ E1) in E.
      destruct (forEach (compileFont env) fs s2) as [[fs'|e] s3] eqn:E2.
      2:{ rewrite (bind_Throw _ _ _ _ _ E2) in E. discriminate. }
      rewrite (bind_Ok _ _ _ _ _ E2) in E. injection E as <- _.
      simpl. f_equal. eapply IH; eauto. }
  intros o Ho. unfold doc_fonts in Ho. simpl in Ho.
  apply in_map_iff in Ho. destruct Ho as (f' & <- & _).
  split; [reflexivity|].
  intros f _ a _ Hn. exact Hn.
Qed.

(** C10, witnessed on the example catalog. *)
Lemma output_projection_witness :
  run ex_env ex_previous ex_catalog = (Ok tt, ex_final) /\
  exists doc, written ex_final = Some doc /\
              keys doc = ["version"; "downloads"; "fonts"].
Proof.
  assert (Hrun : run ex_env ex_previous ex_catalog = (Ok tt, ex_final))
    by (vm_compute; reflexivity).
  split; [exact Hrun|].
  destruct (output_projection ex_env ex_previous ex_catalog ex_final Hrun)
    as (doc & Hw & Hk & _).
  exists doc. split; assumption.
Defined.

(** C6 (hash and size integrity).  Every record of the [downloads] array
    of a successful run carries a lowercase hexadecimal hash and comes
    either from a local reference of the catalog, in which case the
    output directory holds under the record's id and the extension of
    the source a copy of the bytes of the source file, the hash is the
    SHA-256 digest of those bytes and the size their number; or from a
    URL of the catalog, in which case the hash and the size are those of
    the bytes fetched from the record's [downloadURL]. *)
Theorem hash_and_size_integrity (env : Env) (outDir : option Dir)
    (fonts : Catalog) (s' : State) :
  run env outDir fonts = (Ok tt, s') ->
  uuids_ok (randomUUID env) (st_uuids s') ->
  exists doc dir,
    written s' = Some doc /\
    st_outDir s' = Some dir /\
    forall o, In o (doc_downloads doc) ->
      allChars isLowerHex (out_hash o) = true /\
      ((exists p content,
          In (RLocal p) (catalogRefs (cat_fonts fonts)) /\
          readSource env p = Some content /\
          get (out_id o ++ extname env p)%string dir = Some (Binary content) /\
          out_hash o = hex (sha256 env content) /\
          out_fileSize o = List.length content)
       \/
       (exists status body,
          In (RUrl (out_downloadURL o)) (catalogRefs (cat_fonts fonts)) /\
          fetch env (out_downloadURL o) = Response status body true /\
          out_hash o = hex (sha256 env body) /\
          out_fileSize o = List.length body)).
Proof.
  intros Hrun Hu.
  destruct (run_ok env _ _ _ Hrun Hu)
    as (dir & Hout & Hfresh & Hent & _ & _ & _ & Hincl & _).
  eexists. eexists. split; [eapply written_writeFile; eauto|].
  split; [exact Hout|].
  intros o Ho. rewrite doc_downloads_manifest in Ho.
  destruct (In_sorted_downloads _ _ Ho) as (d & Hd & ->).
  destruct (Forall2_In_right _ _ _ _ Hent Hd) as (r & Hr & He).
  apply Hincl in Hr. simpl.
  destruct r as [p|u]; simpl in He.
  - destruct He as (content & Hsrc & _ & _ & Hsize & Hhash & Hget).
    split; [rewrite Hhash; apply hex_lower|].
    left. exists p, content. repeat split; auto.
    now apply get_app_old.
  - destruct He as (status & body & n & Hf & _ & _ & Hurl & Hsize & Hhash).
    split; [rewrite Hhash; apply hex_lower|].
    right. exists status, body. rewrite Hurl. repeat split; auto.
Qed.

(** C6, witnessed on the example catalog. *)
Lemma hash_and_size_integrity_witness :
  run ex_env ex_previous ex_catalog = (Ok tt, ex_final) /\
  uuids_ok (randomUUID ex_env) (st_uuids ex_final) /\
  exists doc dir,
    written ex_final = Some doc /\ st_outDir ex_final = Some dir /\
    forall o, In o (doc_downloads doc) ->
              allChars isLowerHex (out_hash o) = true.
Proof.
  assert (Hrun : run ex_env ex_previous ex_catalog = (Ok tt, ex_final))
    by (vm_compute; reflexivity).
  assert (Hu : uuids_ok (randomUUID ex_env) (st_uuids ex_final))
    by uuids_checked.
  split; [exact Hrun|]. split; [exact Hu|].
  destruct (hash_and_size_integrity ex_env ex_previous ex_catalog ex_final
              Hrun Hu) as (doc & dir & Hw & Hd & H).
  exists doc, dir. split; [exact Hw|]. split; [exact Hd|].
  intros o Ho. exact (proj1 (H o Ho)).
Defined.

(** C8 (downloadURL construction).  Every record of the [downloads]
    array of a successful run is the registry entry of one resolver run
    on a reference of the catalog.  For a local path, [downloadURL] is the
    URL prefix (the environment's, or the default) followed by the
    URL-encoding of the id and the extension of the path, and the
    output directory holds the asset under the id followed by that
    extension; for a URL, [downloadURL] is the URL as the catalog writes
    it, whose normal form is only the registry key. *)
Theorem downloadURL_construction (env : Env) (outDir : option Dir)
    (fonts : Catalog) (s' : State) :
  run env outDir fonts = (Ok tt, s') ->
  uuids_ok (randomUUID env) (st_uuids s') ->
  exists doc dir,
    written s' = Some doc /\
    st_outDir s' = Some dir /\
    forall o, In o (doc_downloads doc) ->
      exists d r,
        In d (st_downloads s') /\ o = downloadOut d /\
        In r (st_resolved s') /\ In r (catalogRefs (cat_fonts fonts)) /\
        match r with
        | RLocal p =>
            dl_key d = KLocalFile (normalize env p) /\
            out_downloadURL o =
              (JS.or_default (env_URL_PREFIX env) "https://example.com/" ++
               encodeURIComponent env (out_id o ++ extname env p))%string /\
            exists content,
              readSource env p = Some content /\
              get (out_id o ++ extname env p)%string dir =
                Some (Binary content)
        | RUrl u =>
            (exists n, normalizeUrl env u = Some n /\ dl_key d = KUrl n) /\
            out_downloadURL o = u
        end.
Proof.
  intros Hrun Hu.
  destruct (run_ok env _ _ _ Hrun Hu)
    as (dir & Hout & Hfresh & Hent & _ & _ & _ & Hincl & _).
  eexists. eexists. split; [eapply written_writeFile; eauto|].
  split; [exact Hout|].
  intros o Ho. rewrite doc_downloads_manifest in Ho.
  destruct (In_sorted_downloads _ _ Ho) as (d & Hd & ->).
  destruct (Forall2_In_right _ _ _ _ Hent Hd) as (r & Hr & He).
  exists d, r. repeat split; auto.
  destruct r as [p|u]; simpl in He |- *.
  - destruct He as (content & Hsrc & Hkey & Hurl & _ & _ & Hget).
    repeat split; auto. exists content. split; [exact Hsrc|].
    now apply get_app_old.
  - destruct He as (status & body & n & _ & Hn & Hkey & Hurl & _).
    split; [eauto|exact Hurl].
Qed.

(** C8, witnessed on the example catalog. *)
Lemma downloadURL_construction_witness :
  run ex_env ex_previous ex_catalog = (Ok tt, ex_final) /\
  uuids_ok (randomUUID ex_env) (st_uuids ex_final) /\
  exists doc dir,
    written ex_final = Some doc /\ st_outDir ex_final = Some dir /\
    forall o, In o (doc_downloads doc) ->
      exists d r, In d (st_downloads ex_final) /\ o = downloadOut d /\
                  In r (st_resolved ex_final).
Proof.
  assert (Hrun : run ex_env ex_previous ex_catalog = (Ok tt, ex_final))
    by (vm_compute; reflexivity).
  assert (Hu : uuids_ok (randomUUID ex_env) (st_uuids ex_final))
    by uuids_checked.
  split; [exact Hrun|]. split; [exact Hu|].
  destruct (downloadURL_construction ex_env ex_previous ex_catalog ex_final
              Hrun Hu) as (doc & dir & Hw & Hd & H).
  exists doc, dir. split; [exact Hw|]. split; [exact Hd|].
  intros o Ho. destruct (H o Ho) as (d & r & H1 & H2 & H3 & _).
  exists d, r. repeat split; assumption.
Defined.

(** C2 as the specification states it is refuted: the run below fails on
    an unreachable URL after a local file was staged, and the output
    directory, which held the manifest and an asset of the previous
    build, now holds the staged asset alone. *)
Lemma failed_build_touches_output :
  run ex_env ex_previous ex_unreachable =
    (Throw (FetchError "http://down.example/f"), ex_final_unreachable) /\
  st_outDir ex_final_unreachable =
    Some [("00000000-0000-4000-8000-000000000000.exe",
           Binary [x4d; x5a; x90])] /\
  st_outDir ex_final_unreachable <> ex_previous.
Proof.
  split; [vm_compute; reflexivity|].
  split; [reflexivity|]. vm_compute. discriminate.
Qed.

(** C2, amended.  When the build fails the script exits with status 1
    and no manifest is in the output directory; by then the directory
    has been cleared, whatever it held, and it holds exactly the assets
    staged so far.  Every file in it is the copy of a source file the
    catalog refers to, under a drawn id followed by the extension of the
    source; every download of type [localFile] registered so far has its
    asset there; and there is one file for each such download, no two
    under one name. *)
Theorem failed_build (env : Env) (outDir : option Dir) (fonts : Catalog)
    (e : Error) (s' : State) :
  run env outDir fonts = (Throw e, s') ->
  uuids_ok (randomUUID env) (st_uuids s') ->
  exitCode (fst (run env outDir fonts)) = 1%Z /\
  written s' = None /\
  run env None fonts = (Throw e, s') /\
  exists dir,
    st_outDir s' = Some dir /\
    (forall name f, In (name, f) dir ->
       exists p content d,
         In (RLocal p) (catalogRefs (cat_fonts fonts)) /\
         In d (st_downloads s') /\
         name = (dl_id d ++ extname env p)%string /\
         readSource env p = Some content /\
         f = Binary content) /\
    (forall d lf, In d (st_downloads s') -> dl_key d = KLocalFile lf ->
       exists p content,
         In (RLocal p) (catalogRefs (cat_fonts fonts)) /\
         normalize env p = lf /\
         readSource env p = Some content /\
         In ((dl_id d ++ extname env p)%string, Binary content) dir) /\
    NoDup (keys dir) /\
    List.length dir = List.length (filter isLocalFile (st_downloads s')).
Proof.
  intros Hrun Hu.
  split; [now rewrite Hrun|].
  destruct (run_throw env _ _ _ _ Hrun Hu)
    as (Hincl & pending & dir & HI & Hout & Hfresh).
  split.
  { unfold written. rewrite Hout.
    destruct (get "fonts.json" dir) as [f|] eqn:Hg; [|reflexivity].
    exfalso. apply Hfresh. eapply get_In_keys; eauto. }
  split.
  { rewrite <- Hrun. unfold run, main.
    now rewrite !(bind_Ok _ _ _ _ _ (clearOutDir_start _)). }
  exists dir. split; [exact Hout|].
  destruct (Inv_complete env _ pending s' dir Hu (le_n _) HI Hout)
    as (Hall & Hnd & Hlen).
  split; [|split; [|split; [exact Hnd|exact Hlen]]].
  - intros name f Hin.
    destruct (Inv_staged env _ pending s' dir name f Hu (le_n _) HI Hout Hin)
      as (p & content & d & Hp & Hd & He & Hsrc & Hf).
    exists p, content, d. repeat split; auto.
  - intros d lf Hd Hk.
    destruct (Hall d lf Hd Hk) as (p & content & Hp & Hn & Hsrc & Hin).
    exists p, content. repeat split; auto.
Qed.

(** C2 amended, witnessed on the run that fails on an unreachable URL. *)
Lemma failed_build_witness :
  run ex_env ex_previous ex_unreachable =
    (Throw (FetchError "http://down.example/f"), ex_final_unreachable) /\
  uuids_ok (randomUUID ex_env) (st_uuids ex_final_unreachable) /\
  written ex_final_unreachable = None.
Proof.
  assert (Hrun : run ex_env ex_previous ex_unreachable =
            (Throw (FetchError "http://down.example/f"),
             ex_final_unreachable))
    by (vm_compute; reflexivity).
  assert (Hu : uuids_ok (randomUUID ex_env)
                        (st_uuids ex_final_unreachable))
    by uuids_checked.
  split; [exact Hrun|]. split; [exact Hu|].
  exact (proj1 (proj2 (failed_build ex_env ex_previous ex_unreachable _
                         ex_final_unreachable Hrun Hu))).
Defined.


(** The clean-up of [addFromObject] keeps a reference attribute whose
    value is the empty string: here [_url], beside a [_localPath]. *)
Lemma empty_url_kept :
  run ex_env ex_previous ex_emptyUrl = (Ok tt, ex_final_emptyUrl) /\
  exists doc,
    written ex_final_emptyUrl = Some doc /\
    map inst_url (doc_installations doc) = [Some EmptyString].
Proof.
  split; [vm_compute; reflexivity|].
  eexists. split; vm_compute; reflexivity.
Qed.



(** C4: the code registers a download from a response with status 404.
    The body of the error response is hashed and recorded, and the build
    succeeds. *)
Theorem not_found_is_registered :
  fetch ex_env "http://example.com/missing" =
    Response 404 [x34; x30; x34] true /\
  run ex_env ex_previous ex_missing = (Ok tt, ex_final_missing) /\
  exists doc,
    written ex_final_missing = Some doc /\
    doc_downloads doc =
      [ {| out_id := "00000000-0000-4000-8000-000000000000";
           out_downloadURL := "http://example.com/missing";
           out_fileSize := 3;
           out_hash := "343034" |} ] /\
    st_console ex_final_missing = [].
Proof.
  split; [reflexivity|]. split; [vm_compute; reflexivity|].
  eexists. repeat split; vm_compute; reflexivity.
Qed.

(** C7: the temporary directory made for a download survives the
    failure of the request; it is removed only at the end of a download
    that succeeds. *)
Theorem temp_dir_survives_failure :
  fetch ex_env "http://down.example/f" = Rejected /\
  run ex_env ex_previous ex_unreachable =
    (Throw (FetchError "http://down.example/f"), ex_final_unreachable) /\
  st_temp ex_final_unreachable = [(0, [])] /\
  st_temp ex_final = [].
Proof.
  repeat split; vm_compute; reflexivity.
Qed.

(** C5 as the specification states it is refuted: installations that
    carry no download id compare as equal to all installations of their
    type, and the sort leaves download id [b] before download id [a]
    on both sides of such an installation. *)
Lemma installations_out_of_order :
  run ex_env ex_previous ex_passedThrough =
    (Ok tt, ex_final_passedThrough) /\
  exists doc o,
    written ex_final_passedThrough = Some doc /\
    doc_fonts doc = [o] /\
    map inst_type (obj_installations o) =
      ["cabextract"; "cabextract"; "cabextract"] /\
    map inst_download (obj_installations o) = [Some "b"; None; Some "a"] /\
    ~ StronglySorted inst_le (obj_installations o).
Proof.
  split; [vm_compute; reflexivity|].
  eexists. eexists. split; [vm_compute; reflexivity|].
  split; [reflexivity|]. split; [reflexivity|]. split; [reflexivity|].
  intros H. inversion H as [|? ? _ Hf]; subst.
  inversion Hf as [|? ? _ Hf']; subst.
  inversion Hf' as [|? ? Hle _]; subst.
  destruct Hle as [Hlt|(_ & Hd)]; [vm_compute in Hlt; discriminate|].
  specialize (Hd "b" "a" eq_refl eq_refl). vm_compute in Hd. discriminate.
Qed.

(** C5, amended.  In the manifest of a successful run the fonts are
    sorted by name, the categories of every font are sorted, the
    installations of every font are sorted by type and, when they all
    carry a download id, by type then download id, the files of every
    [cabextract] installation are sorted, and the downloads are sorted by
    id; and a second run on the same catalog, in a world that differs at
    most in the UUIDs beyond those drawn and in what the output directory
    held, ends in the same state. *)
Theorem canonical_ordering (env : Env) (outDir : option Dir) (fonts : Catalog)
    (s' : State) :
  run env outDir fonts = (Ok tt, s') ->
  exists doc,
    written s' = Some doc /\
    StronglySorted
      (fun a b => str_le (obj_string "name" a) (obj_string "name" b))
      (doc_fonts doc) /\
    (forall o, In o (doc_fonts doc) ->
       StronglySorted str_le (obj_categories o) /\
       StronglySorted (fun a b => str_le (inst_type a) (inst_type b))
                      (obj_installations o) /\
       (Forall hasDownload (obj_installations o) ->
        StronglySorted inst_le (obj_installations o)) /\
       Forall filesSorted (obj_installations o)) /\
    StronglySorted (fun a b => str_le (out_id a) (out_id b))
                   (doc_downloads doc) /\
    forall env2 outDir2,
      sameWorld env env2 (st_uuids s') ->
      run env2 outDir2 fonts = (Ok tt, s').
Proof.
  intros Hrun.
  destruct (run_manifest env _ _ _ Hrun) as (compiled & s1 & E & _ & Hw).
  eexists. split; [exact Hw|].
  rewrite doc_fonts_manifest, doc_downloads_manifest.
  split; [|split; [|split]].
  - apply StronglySorted_map. simpl.
    apply (sort_by_attribute sortByName font_name). reflexivity.
  - intros o Ho. apply in_map_iff in Ho. destruct Ho as (f' & <- & Hf').
    apply sort_In in Hf'.
    split; [apply sortStrings_sorted|].
    split; [apply installations_sorted_by_type|].
    split.
    + intros Hd. apply installations_sorted.
      eapply Permutation_Forall; [apply sort_perm|exact Hd].
    + rewrite obj_installations_font.
      eapply Permutation_Forall; [symmetry; apply sort_perm|].
      assert (Hall : Forall (fun f => Forall filesSorted
                                        (font_installations f)) compiled).
      { eapply forEach_Forall; [|exact E].
        intros x s y s0. apply compileFont_files. }
      rewrite Forall_forall in Hall. now apply Hall.
  - apply (sort_by_attribute compareById out_id). reflexivity.
  - intros env2 outDir2 Hsame. rewrite <- Hrun.
    apply (run_same env env2 (st_uuids s') Hsame).
    rewrite Hrun. apply le_n.
Qed.

(** C5 amended, witnessed on the example catalog. *)
Lemma canonical_ordering_witness :
  run ex_env ex_previous ex_catalog = (Ok tt, ex_final) /\
  exists doc,
    written ex_final = Some doc /\
    StronglySorted (fun a b => str_le (out_id a) (out_id b))
                   (doc_downloads doc).
Proof.
  assert (Hrun : run ex_env ex_previous ex_catalog = (Ok tt, ex_final))
    by (vm_compute; reflexivity).
  split; [exact Hrun|].
  destruct (canonical_ordering ex_env ex_previous ex_catalog ex_final Hrun)
    as (doc & Hw & _ & _ & Hd & _).
  exists doc. split; assumption.
Defined.

(** C9 as the specification states it is refuted: the pass does more
    than reorder arrays and replace ids, it rebuilds every font from six
    attributes.  The font below carries a [license] in the source and has
    lost it in the file the pass writes. *)
Lemma format_drops_attributes :
  FormatSpec.run ex_uuid ex_licensed = (Ok tt, ex_formatted) /\
  exists c f o,
    In ("fonts.json", Format.FontsJson c) (Format.st_written ex_formatted) /\
    In f (cat_fonts ex_licensed) /\
    In o (Format.fmt_fonts c) /\
    obj_string "name" o = font_name f /\
    In "license" (FormatSpec.sourceKeys f) /\
    ~ In "license" (keys o).
Proof.
  split; [vm_compute; reflexivity|].
  eexists. eexists. eexists.
  split; [left; reflexivity|].
  split; [left; reflexivity|].
  split; [right; left; reflexivity|].
  split; [reflexivity|].
  split; [vm_compute; tauto|].
  vm_compute. intros H.
  repeat (destruct H as [H|H]; [discriminate|]). exact H.
Qed.

(** C9, amended.  The format pass writes nothing but [fonts.json] and
    [newUUIDs.json].  In the catalog it writes back, the other top-level
    attributes are kept, the groups are the source groups reordered,
    each with its font list reordered, and the fonts are the source
    fonts reordered, each rebuilt from the six attributes [id], [name],
    [shortName], [publisher], [categories] and [installations] alone:
    name, short name and publisher are kept, categories and
    installations are reordered, an id other than [<UUID>] is kept and
    the id [<UUID>] is replaced by a UUID drawn during the pass; in an
    installation only the files may be reordered, while its type,
    [_localPath], [_url], [download] and other attributes are kept. *)
Theorem format_frame (randomUUID : nat -> string) (fonts : Catalog)
    (s' : Format.State) :
  FormatSpec.run randomUUID fonts = (Ok tt, s') ->
  exists c,
    In ("fonts.json", Format.FontsJson c) (Format.st_written s') /\
    (forall name file, In (name, file) (Format.st_written s') ->
                       name = "fonts.json" \/ name = "newUUIDs.json") /\
    Format.fmt_extra c = cat_extra fonts /\
    (exists gs, Permutation gs (Format.fmt_groups c) /\
                Forall2 FormatSpec.group_rel (cat_groups fonts) gs) /\
    (exists fs, Permutation fs (Format.fmt_fonts c) /\
                Forall2 (FormatSpec.font_rel (Format.st_newUUIDs s'))
                        (cat_fonts fonts) fs) /\
    Forall (fun id => exists j, id = randomUUID j) (Format.st_newUUIDs s').
Proof.
  intros Hrun. unfold FormatSpec.run, Format.main in Hrun.
  destruct (forEach (Format.formatFont randomUUID) (cat_fonts fonts)
              FormatSpec.start) as [[formatted|e] s1] eqn:E.
  2:{ rewrite (bind_Throw _ _ _ _ _ E) in Hrun. discriminate. }
  rewrite (bind_Ok _ _ _ _ _ E) in Hrun.
  destruct (format_loop randomUUID _ _ _ _ E)
    as (Hw & (new & Hnew & Hfresh) & HF).
  simpl in Hw, Hnew. subst new.
  unfold bind, Format.writeFileSync, modify, gets, ret in Hrun.
  simpl in Hrun. rewrite Hw in Hrun. simpl in Hrun.
  assert (Hs : Format.st_newUUIDs s' = Format.st_newUUIDs s1 /\
               exists rest,
                 Format.st_written s' =
                   ("fonts.json",
                    Format.FontsJson
                      (Format.mkFormatted
                         (map Format.font
                              (JS.sort (Format.sortByName font_name)
                                       formatted))
                         (JS.sort (Format.sortByName group_name)
                                  (map Format.sortGroupFonts
                                       (cat_groups fonts)))
                         (cat_extra fonts))) :: rest /\
                 (rest = [] \/ exists f, rest = [("newUUIDs.json", f)])).
  { destruct (1 <? List.length (Format.st_newUUIDs s1))%nat;
      injection Hrun as <-; simpl; split; auto;
      eexists; (split; [reflexivity|]); eauto. }
  destruct Hs as (Hn & rest & Hwr & Hrest). rewrite Hn.
  eexists. split; [rewrite Hwr; left; reflexivity|].
  split.
  { intros name file Hin. rewrite Hwr in Hin.
    destruct Hin as [Hin|Hin]; [injection Hin as <- _; now left|].
    destruct Hrest as [->|(f & ->)]; [contradiction|].
    destruct Hin as [Hin|[]]. injection Hin as <- _. now right. }
  split; [reflexivity|]. split; [|split; [|exact Hfresh]].
  - exists (map Format.sortGroupFonts (cat_groups fonts)). split.
    + symmetry. apply sort_perm.
    + clear. induction (cat_groups fonts) as [|g gs IH]; simpl;
        constructor; auto. apply group_rel_sort.
  - exists (map Format.font formatted). split.
    + simpl. apply Permutation_map. symmetry. apply sort_perm.
    + clear -HF. induction HF as [|f f' fs fs' Hr HF IH]; simpl;
        constructor; auto. now apply font_rel_font.
Qed.

(** C9 amended, witnessed on the catalog with an id to generate. *)
Lemma format_frame_witness :
  FormatSpec.run ex_uuid ex_licensed = (Ok tt, ex_formatted) /\
  exists c,
    In ("fonts.json", Format.FontsJson c) (Format.st_written ex_formatted) /\
    Format.fmt_extra c = cat_extra ex_licensed.
Proof.
  assert (Hrun : FormatSpec.run ex_uuid ex_licensed = (Ok tt, ex_formatted))
    by (vm_compute; reflexivity).
  split; [exact Hrun|].
  destruct (format_frame ex_uuid ex_licensed ex_formatted Hrun)
    as (c & Hw & _ & He & _).
  exists c. split; assumption.
Defined.

End Claims.

(** * Further properties of the two scripts *)

(** ** Loops that keep a property of the state *)

Lemma forEach_inv {S A B : Type} (P : S -> Prop) (R : A -> B -> Prop)
    (Q : A -> Error -> S -> Prop) (f : A -> M S B) (l : list A) :
  (forall x s r s', In x l -> P s -> f x s = (r, s') ->
     match r with
     | Ok y => P s' /\ R x y
     | Throw e => Q x e s'
     end) ->
  forall s r s', P s -> forEach f l s = (r, s') ->
    match r with
    | Ok l' => P s' /\ Forall2 R l l'
    | Throw e => exists x, In x l /\ Q x e s'
    end.
Proof.
  induction l as [|x l IH]; intros Hf s r s' HP H.
  - injection H as <- <-. split; [exact HP|constructor].
  - simpl in H. destruct (f x s) as [[y|e] s1] eqn:E1.
    + rewrite (bind_Ok _ _ _ _ _ E1) in H.
      pose proof (Hf x s _ _ (or_introl eq_refl) HP E1) as (HP1 & HR).
      destruct (forEach f l s1) as [[ys|e] s2] eqn:E2.
      * rewrite (bind_Ok _ _ _ _ _ E2) in H. injection H as <- <-.
        destruct (IH (fun x0 s0 r0 s0' Hin => Hf x0 s0 r0 s0' (or_intror Hin))
                     s1 (Ok ys) s2 HP1 E2) as (HP2 & HF).
        split; [exact HP2|now constructor].
      * rewrite (bind_Throw _ _ _ _ _ E2) in H. injection H as <- <-.
        destruct (IH (fun x0 s0 r0 s0' Hin => Hf x0 s0 r0 s0' (or_intror Hin))
                     s1 (Throw e) s2 HP1 E2) as (x0 & Hin & HQ).
        exists x0. split; [now right|exact HQ].
    + rewrite (bind_Throw _ _ _ _ _ E1) in H. injection H as <- <-.
      exists x. split; [now left|].
      exact (Hf x s _ _ (or_introl eq_refl) HP E1).
Qed.

(** ** Why a build fails, and what a failure leaves *)

Section Failures.
Import Build BuildSpec BuildInv BuildMore.
Variable env : Env.

Lemma addFromObject_outcome (obj : Installation) (s s' : State)
    (r : Result Installation) :
  quiet s ->
  addFromObject env obj s = (r, s') ->
  match r with
  | Ok obj' =>
      quiet s' /\
      inst_type obj' = inst_type obj /\
      inst_files obj' = inst_files obj /\
      inst_extra obj' = inst_extra obj /\
      (refOf obj = None -> inst_download obj' = inst_download obj)
  | Throw e => e <> TypeError /\ failure env obj e s'
  end.
Proof.
  intros (Hout & Htemp & Hcon) H.
  unfold addFromObject, refOf in *.
  cbv beta iota delta [bind downloadExistsLocalFile downloadExistsURL gets ret]
    in H.
  destruct (inst_localPath obj) as [p|] eqn:Hp.
  - assert (Href : refOf obj = Some (RLocal p))
      by (unfold refOf; now rewrite Hp).
    assert (Hadd : forall d s1, addLocalFileDownload env p s = (d, s1) ->
              match d with
              | Ok _ => quiet s1
              | Throw e => e = IOError p /\ readSource env p = None /\
                           st_temp s1 = [] /\ st_console s1 = []
              end).
    { intros d s1. unfold addLocalFileDownload, generateUUID, copyFileSync,
        readLocal, push, bind, modify, gets, ret, throw. simpl.
      destruct (readSource env p), (st_outDir s) eqn:Ho; simpl;
        intros E; injection E as <- <-; unfold quiet; simpl;
        repeat split; auto; try discriminate; congruence. }
    destruct (downloadExistsLocalFile_loop env p (st_downloads s)) as [i|].
    + destruct (JS.truthy (Some i)).
      * injection H as <- <-. unfold quiet. simpl.
        repeat split; auto; discriminate.
      * destruct (addLocalFileDownload env p s) as [[d|e] s1] eqn:E;
          injection H as <- <-; pose proof (Hadd _ _ eq_refl) as HA;
          simpl in HA.
        -- simpl. repeat split; auto; try apply HA; discriminate.
        -- destruct HA as (-> & Hsrc & Ht & Hc). split; [discriminate|].
           simpl. auto.
    + destruct (addLocalFileDownload env p s) as [[d|e] s1] eqn:E;
        injection H as <- <-; pose proof (Hadd _ _ eq_refl) as HA;
        simpl in HA.
      * simpl. repeat split; auto; try apply HA; discriminate.
      * destruct HA as (-> & Hsrc & Ht & Hc). split; [discriminate|].
        simpl. auto.
  - destruct (inst_url obj) as [u|] eqn:Hu.
    + assert (Hadd : forall d s1, addURLDownload env u s = (d, s1) ->
                match d with
                | Ok _ => quiet s1
                | Throw e => e <> TypeError /\ failure env obj e s1
                end).
      { intros d s1. unfold addURLDownload, mkdtempSync, generateUUID,
          writeTemp, rmTemp, consoleLog, push, bind, modify, gets, ret,
          throw.
        destruct (fetch env u) as [|status body []] eqn:Hf;
          [| destruct (normalizeUrl env u) eqn:Hn |];
          cbn [fst snd st_temp st_console st_outDir st_tempCount
               set_uuids set_temp set_tempCount set_resolved set_console
               set_downloads];
          rewrite ?Htemp; cbn [app map filter fst snd];
          rewrite ?Nat.eqb_refl; cbn [negb filter];
          intros E; injection E as <- <-; unfold quiet, failure, refOf;
          cbn [st_temp st_console st_outDir set_uuids set_temp set_tempCount
               set_resolved set_console set_downloads List.length];
          rewrite ?Hp, ?Hu, ?Hcon; repeat split; eauto; discriminate. }
      destruct (downloadExistsURL_loop env u (st_downloads s))
        as [[i|]|e0] eqn:El.
      * destruct (JS.truthy (Some i)).
        -- injection H as <- <-. unfold quiet. simpl.
           repeat split; auto; discriminate.
        -- destruct (addURLDownload env u s) as [[d|e] s1] eqn:E;
             injection H as <- <-; pose proof (Hadd _ _ eq_refl) as HA;
             simpl in HA.
           ++ simpl. repeat split; auto; try apply HA; discriminate.
           ++ exact HA.
      * destruct (addURLDownload env u s) as [[d|e] s1] eqn:E;
          injection H as <- <-; pose proof (Hadd _ _ eq_refl) as HA;
          simpl in HA.
        -- simpl. repeat split; auto; try apply HA; discriminate.
        -- exact HA.
      * injection H as <- <-.
        destruct (normalizeUrl env u) as [n|] eqn:Hn.
        -- rewrite (downloadExistsURL_lookup env u n _ Hn) in El.
           discriminate.
        -- destruct (downloadExistsURL_invalid env u (st_downloads s) Hn)
             as [E0|E0]; rewrite E0 in El; [discriminate|].
           injection El as <-. split; [discriminate|].
           unfold failure, refOf. rewrite Hp, Hu, Htemp, Hcon. simpl.
           repeat split; auto.
    + injection H as <- <-. unfold quiet. simpl. repeat split; auto.
Qed.

Lemma installation_outcome (i : Installation) (s s' : State)
    (r : Result Installation) :
  quiet s ->
  bind (addFromObject env i) (fun i => sortFiles i) s = (r, s') ->
  match r with
  | Ok c => quiet s' /\ kept_inst i c
  | Throw e => failure env i e s'
  end.
Proof.
  intros Hq H.
  destruct (addFromObject env i s) as [[i'|e] s1] eqn:E1;
    pose proof (addFromObject_outcome i s s1 _ Hq E1) as Ho; simpl in Ho.
  2:{ rewrite (bind_Throw _ _ _ _ _ E1) in H. injection H as <- <-.
      apply Ho. }
  rewrite (bind_Ok _ _ _ _ _ E1) in H.
  destruct Ho as (Hq1 & Ht & Hf & He & Hd).
  unfold sortFiles in H. rewrite Ht, Hf in H.
  destruct (String.eqb (inst_type i) "cabextract") eqn:Ec.
  - destruct (inst_files i) as [files|] eqn:Efiles.
    + injection H as <- <-. split; [exact Hq1|].
      unfold kept_inst. simpl. rewrite Efiles.
      repeat split; auto. eexists. split; [reflexivity|].
      symmetry. apply sortStrings_perm.
    + injection H as <- <-. apply String.eqb_eq in Ec.
      destruct Hq1 as (_ & Ht1 & Hc1). simpl. auto.
  - injection H as <- <-. split; [exact Hq1|].
    unfold kept_inst. rewrite Ht, Hf, He.
    repeat split; auto. destruct (inst_files i); eauto.
Qed.

Lemma compileFont_outcome (f : Font) (s s' : State) (r : Result Font) :
  quiet s ->
  compileFont env f s = (r, s') ->
  match r with
  | Ok f' =>
      quiet s' /\
      (font_id f' = font_id f /\ font_name f' = font_name f /\
       font_shortName f' = font_shortName f /\
       font_publisher f' = font_publisher f /\
       font_categories f' = font_categories f /\
       exists is', Permutation is' (font_installations f') /\
                   Forall2 kept_inst (font_installations f) is')
  | Throw e =>
      exists i, In i (font_installations f) /\ failure env i e s'
  end.
Proof.
  intros Hq H. unfold compileFont in H.
  match type of H with
  | bind (forEach ?g ?l) _ s = _ =>
      pose proof (forEach_inv quiet kept_inst (failure env) g l
                    (fun x s0 r0 s0' _ Hq0 => installation_outcome x s0 s0' r0 Hq0)
                    s) as Hloop;
      destruct (forEach g l s) as [[insts|e] s1] eqn:E
  end; specialize (Hloop _ _ Hq eq_refl); simpl in Hloop.
  - rewrite (bind_Ok _ _ _ _ _ E) in H. injection H as <- <-.
    destruct Hloop as (Hq1 & HF). split; [exact Hq1|]. simpl.
    repeat split; auto. exists insts. split; [|exact HF].
    symmetry. apply sort_perm.
  - rewrite (bind_Throw _ _ _ _ _ E) in H. injection H as <- <-.
    exact Hloop.
Qed.

Lemma quiet_start : quiet (start (Some [])).
Proof. repeat split. discriminate. Qed.

(** The outcome of the traversal of [main], run from the cleared output
    directory. *)
Lemma traversal_outcome (fonts : list Font) (s' : State)
    (r : Result (list Font)) :
  forEach (compileFont env) fonts (start (Some [])) = (r, s') ->
  match r with
  | Ok compiled =>
      quiet s' /\
      Forall2 (fun f f' =>
                 font_id f' = font_id f /\ font_name f' = font_name f /\
                 font_shortName f' = font_shortName f /\
                 font_publisher f' = font_publisher f /\
                 font_categories f' = font_categories f /\
                 exists is', Permutation is' (font_installations f') /\
                             Forall2 kept_inst (font_installations f) is')
              fonts compiled
  | Throw e =>
      exists f i, In f fonts /\ In i (font_installations f) /\
                  failure env i e s'
  end.
Proof.
  intros H.
  pose proof (forEach_inv quiet _
                (fun f e s0 => exists i, In i (font_installations f) /\
                                         failure env i e s0)
                (compileFont env) fonts
                (fun x s0 r0 s0' _ Hq0 => compileFont_outcome x s0 s0' r0 Hq0)
                _ _ _ quiet_start H) as Hloop.
  destruct r as [compiled|e]; [exact Hloop|].
  destruct Hloop as (f & Hf & i & Hi & Hfail). eauto.
Qed.

End Failures.

(** ** Sorting what is sorted *)

Section SortAgain.
Context {A : Type}.
Variable cmp : A -> A -> Z.
Hypothesis cmp_antisym : BuildMore.antisymmetric cmp.

Lemma insert_Sorted (x : A) (l : list A) :
  Sorted (fun a b => (cmp a b <= 0)%Z) l ->
  Sorted (fun a b => (cmp a b <= 0)%Z) (JS.insert cmp x l).
Proof.
  induction 1 as [|y l Hs IH Hh]; simpl.
  - repeat constructor.
  - destruct (0 <? cmp x y)%Z eqn:E.
    + apply Z.ltb_lt in E. constructor; [exact IH|].
      destruct l as [|z l]; simpl.
      * constructor. now apply cmp_antisym.
      * destruct (0 <? cmp x z)%Z.
        -- inversion Hh; subst. now constructor.
        -- constructor. now apply cmp_antisym.
    + apply Z.ltb_ge in E. repeat constructor; assumption.
Qed.

Lemma sort_Sorted (l : list A) :
  Sorted (fun a b => (cmp a b <= 0)%Z) (JS.sort cmp l).
Proof.
  induction l as [|x l IH]; simpl; [constructor|].
  now apply insert_Sorted.
Qed.

Lemma sort_fixed (l : list A) :
  Sorted (fun a b => (cmp a b <= 0)%Z) l -> JS.sort cmp l = l.
Proof.
  induction 1 as [|x l Hs IH Hh]; simpl; [reflexivity|].
  rewrite IH. destruct Hh as [|y l Hxy]; simpl; [reflexivity|].
  apply Z.ltb_ge in Hxy. now rewrite Hxy.
Qed.

(** Sorting twice is sorting once. *)
Lemma sort_idem (l : list A) :
  JS.sort cmp (JS.sort cmp l) = JS.sort cmp l.
Proof. apply sort_fixed, sort_Sorted. Qed.

End SortAgain.

Lemma sortByDownloadID_antisym :
  BuildMore.antisymmetric Build.sortByDownloadID.
Proof.
  intros x y. unfold Build.sortByDownloadID, JS.gt, JS.gt_u.
  destruct (JS.lt (inst_type x) (inst_type y)) eqn:E1; [lia|].
  destruct (JS.lt (inst_type y) (inst_type x)) eqn:E2;
    unfold JS.lt in *; rewrite ?E1, ?E2; [lia|].
  destruct (JS.lt_u (inst_download x) (inst_download y)) eqn:E3; [lia|].
  destruct (JS.lt_u (inst_download y) (inst_download x)) eqn:E4; lia.
Qed.

(** ** Further properties of the build *)

Section BuildProperties.
Import Build BuildSpec BuildInv BuildMore Examples MoreExamples.

Ltac uuids_drawn :=
  split; simpl;
  [ intros i Hi; do 4 (try destruct i as [|i]); try lia; reflexivity
  | intros i j Hij Hj; do 4 (try destruct i as [|i]);
    do 4 (try destruct j as [|j]); try lia; vm_compute; discriminate ].

(** A run either ends its traversal and writes the manifest, or stops
    where the traversal throws. *)
Lemma run_cases (env : Env) (outDir : option Dir) (fonts : Catalog)
    (r : Result unit) (s' : State) :
  run env outDir fonts = (r, s') ->
  (exists compiled s1 dir,
     forEach (compileFont env) (cat_fonts fonts) (start (Some []))
       = (Ok compiled, s1) /\
     r = Ok tt /\ st_outDir s1 = Some dir /\
     s' = set_outDir
            (Some (writeFile "fonts.json"
                     (Json (manifest env compiled (st_downloads s1))) dir))
            s1) \/
  (exists e,
     forEach (compileFont env) (cat_fonts fonts) (start (Some []))
       = (Throw e, s') /\
     r = Throw e).
Proof.
  intros Hrun. unfold run, main in Hrun.
  rewrite (bind_Ok _ _ _ _ _ (clearOutDir_start outDir)) in Hrun.
  destruct (forEach (compileFont env) (cat_fonts fonts) (start (Some [])))
    as [[compiled|e] s1] eqn:E.
  - rewrite (bind_Ok _ _ _ _ _ E) in Hrun.
    unfold bind, gets, writeManifest in Hrun.
    destruct (traversal_outcome env _ _ _ E) as ((Hout & _) & _).
    destruct (st_outDir s1) as [dir|] eqn:Ho; [|contradiction].
    injection Hrun as <- <-. left. exists compiled, s1, dir. auto.
  - rewrite (bind_Throw _ _ _ _ _ E) in Hrun. injection Hrun as <- <-.
    right. exists e. auto.
Qed.

(** X2.  A build that succeeds has logged nothing and has left no
    temporary directory, whatever the UUIDs drawn. *)
Theorem success_is_quiet (env : Env) (outDir : option Dir) (fonts : Catalog)
    (s' : State) :
  run env outDir fonts = (Ok tt, s') ->
  st_temp s' = [] /\ st_console s' = [].
Proof.
  intros Hrun.
  destruct (run_cases env _ _ _ _ Hrun)
    as [(c & s1 & dir & E & _ & _ & ->)|(e' & _ & Hr)]; [|discriminate].
  destruct (traversal_outcome env _ _ _ E) as ((_ & Ht & Hc) & _).
  simpl. auto.
Qed.

Lemma success_is_quiet_witness :
  run ex_env ex_previous ex_catalog = (Ok tt, ex_final) /\
  st_temp ex_final = [] /\ st_console ex_final = [].
Proof.
  assert (Hrun : run ex_env ex_previous ex_catalog = (Ok tt, ex_final))
    by (vm_compute; reflexivity).
  split; [exact Hrun|].
  exact (success_is_quiet ex_env ex_previous ex_catalog ex_final Hrun).
Defined.

(** X3.  The build neither loses, adds nor renames a font: the fonts of
    the manifest are the source fonts in another order, each with its
    id, name, short name and publisher, its categories reordered and its
    installations reordered; an installation keeps its type and its
    other attributes, its files up to their order, and its [download]
    when it has no reference to resolve. *)
Theorem fonts_kept (env : Env) (outDir : option Dir) (fonts : Catalog)
    (s' : State) :
  run env outDir fonts = (Ok tt, s') ->
  exists doc fs,
    written s' = Some doc /\
    Permutation fs (doc_fonts doc) /\
    Forall2 kept_font (cat_fonts fonts) fs.
Proof.
  intros Hrun.
  destruct (run_cases env _ _ _ _ Hrun)
    as [(c & s1 & dir & E & _ & _ & ->)|(e' & _ & Hr)]; [|discriminate].
  destruct (traversal_outcome env _ _ _ E) as (_ & HF).
  eexists. exists (map font c). split.
  { unfold written. simpl. rewrite get_writeFile_same. reflexivity. }
  rewrite doc_fonts_manifest. split.
  { apply Permutation_map. symmetry. apply sort_perm. }
  clear -HF. induction HF as [|f f' fs fs' Hr HF IH]; simpl;
    constructor; auto.
  destruct Hr as (H1 & H2 & H3 & H4 & H5 & is' & Hp & Hk).
  unfold kept_font, obj_string, obj_categories, obj_installations. simpl.
  repeat split; auto.
  - rewrite H5. symmetry. apply sortStrings_perm.
  - exists is'. split; [|exact Hk].
    rewrite Hp. symmetry. apply sort_perm.
Qed.

Lemma fonts_kept_witness :
  run ex_env ex_previous ex_catalog = (Ok tt, ex_final) /\
  exists doc fs,
    written ex_final = Some doc /\
    Permutation fs (doc_fonts doc) /\
    Forall2 kept_font (cat_fonts ex_catalog) fs.
Proof.
  assert (Hrun : run ex_env ex_previous ex_catalog = (Ok tt, ex_final))
    by (vm_compute; reflexivity).
  split; [exact Hrun|].
  exact (fonts_kept ex_env ex_previous ex_catalog ex_final Hrun).
Defined.

(** A successful run, with the invariant at the end of its traversal. *)
Lemma run_ok_inv (env : Env) (outDir : option Dir) (fonts : Catalog)
    (s' : State) :
  run env outDir fonts = (Ok tt, s') ->
  uuids_ok (randomUUID env) (st_uuids s') ->
  exists s1 dir,
    Inv env [] s1 /\ st_outDir s1 = Some dir /\
    ~ In "fonts.json" (keys dir) /\
    s' = set_outDir
           (Some (dir ++
                  [("fonts.json",
                    Json (manifest env
                            (map (compiledFont env (st_downloads s1))
                                 (cat_fonts fonts))
                            (st_downloads s1)))]))
           s1 /\
    incl (st_resolved s1) (catalogRefs (cat_fonts fonts)) /\
    Forall (fun f => Forall (Covered env (st_downloads s1))
                            (font_installations f)) (cat_fonts fonts).
Proof.
  intros Hrun Hu.
  destruct (run_cases env _ _ _ _ Hrun)
    as [(c & s1 & dir & E & _ & Ho & ->)|(e' & _ & Hr)]; [|discriminate].
  simpl in Hu.
  destruct (fonts_spec env (st_uuids s1) Hu (cat_fonts fonts) _ _ _
              (Inv_start env) eq_refl E (le_n _))
    as ((_ & _ & (new & Hnew & Hincl)) & HI & Ht & -> & Hc).
  simpl in Hnew. subst new.
  pose proof (staged_not_manifest env _ s1 [] dir Hu (le_n _) HI Ho) as Hfresh.
  exists s1, dir. rewrite keys_writeFile_new by assumption.
  repeat split; auto.
Qed.

Lemma catalogRefs_In (fs : list Font) (r : Ref) :
  In r (catalogRefs fs) <->
  exists f i, In f fs /\ In i (font_installations f) /\ refOf i = Some r.
Proof.
  unfold catalogRefs, instRefs. rewrite in_flat_map. split.
  - intros (f & Hf & Hr). apply in_flat_map in Hr.
    destruct Hr as (i & Hi & Hr).
    destruct (refOf i) as [r'|] eqn:E; [|contradiction].
    destruct Hr as [->|[]]. eauto.
  - intros (f & i & Hf & Hi & Hr). exists f. split; [exact Hf|].
    apply in_flat_map. exists i. split; [exact Hi|].
    rewrite Hr. now left.
Qed.

(** X4.  A build that succeeds leaves in the output directory the
    manifest and, besides it, only the assets of this run: each is the
    copy of a source file the catalog refers to, under the id of a
    download of the manifest followed by the extension of the source.
    Nothing of what the directory held before is left, and the outcome
    does not depend on it. *)
Theorem output_directory_replaced (env : Env) (outDir : option Dir)
    (fonts : Catalog) (s' : State) :
  run env outDir fonts = (Ok tt, s') ->
  uuids_ok (randomUUID env) (st_uuids s') ->
  exists dir doc,
    st_outDir s' = Some (dir ++ [("fonts.json", Json doc)]) /\
    written s' = Some doc /\
    (forall name f, In (name, f) dir ->
       exists p content o,
         In (RLocal p) (catalogRefs (cat_fonts fonts)) /\
         In o (doc_downloads doc) /\
         name = (out_id o ++ extname env p)%string /\
         readSource env p = Some content /\
         f = Binary content) /\
    forall outDir2, run env outDir2 fonts = (Ok tt, s').
Proof.
  intros Hrun Hu.
  destruct (run_ok_inv env _ _ _ Hrun Hu)
    as (s1 & dir & HI & Ho & Hfresh & -> & Hincl & _).
  simpl in Hu. eexists. eexists. split; [reflexivity|].
  split; [eapply written_writeFile; [reflexivity|assumption]|].
  split.
  - intros name f Hin.
    destruct (Inv_staged env _ [] s1 dir name f Hu (le_n _) HI Ho Hin)
      as (p & content & d & Hp & Hd & He & Hsrc & Hf).
    exists p, content, (downloadOut d). repeat split; auto.
    rewrite doc_downloads_manifest. apply sort_In. now apply in_map.
  - intros outDir2. rewrite <- Hrun. unfold run, main.
    now rewrite !(bind_Ok _ _ _ _ _ (clearOutDir_start _)).
Qed.

Lemma output_directory_replaced_witness :
  run ex_env ex_previous ex_catalog = (Ok tt, ex_final) /\
  uuids_ok (randomUUID ex_env) (st_uuids ex_final) /\
  run ex_env None ex_catalog = (Ok tt, ex_final).
Proof.
  assert (Hrun : run ex_env ex_previous ex_catalog = (Ok tt, ex_final))
    by (vm_compute; reflexivity).
  assert (Hu : uuids_ok (randomUUID ex_env) (st_uuids ex_final))
    by uuids_drawn.
  split; [exact Hrun|]. split; [exact Hu|].
  destruct (output_directory_replaced ex_env ex_previous ex_catalog ex_final
              Hrun Hu) as (dir & doc & _ & _ & _ & H).
  exact (H None).
Defined.

(** X5.  No download of the manifest is an orphan: every record of the
    [downloads] array is the [download] of at least one installation of
    the manifest. *)
Theorem no_orphan_download (env : Env) (outDir : option Dir)
    (fonts : Catalog) (s' : State) :
  run env outDir fonts = (Ok tt, s') ->
  uuids_ok (randomUUID env) (st_uuids s') ->
  exists doc,
    written s' = Some doc /\
    forall o, In o (doc_downloads doc) ->
      exists c, In c (doc_installations doc) /\
                inst_download c = Some (out_id o).
Proof.
  intros Hrun Hu.
  destruct (run_ok env _ _ _ Hrun Hu)
    as (dir & Hout & Hfresh & Hent & _ & _ & Hndk & Hincl & _).
  eexists. split; [eapply written_writeFile; eauto|].
  intros o Ho. rewrite doc_downloads_manifest in Ho.
  destruct (In_sorted_downloads _ _ Ho) as (d & Hd & ->).
  destruct (Forall2_In_right _ _ _ _ Hent Hd) as (r & Hr & He).
  apply Hincl, catalogRefs_In in Hr. destruct Hr as (f & i & Hf & Hi & Href).
  exists (compiled env (st_downloads s') i). split.
  - unfold doc_installations. rewrite doc_fonts_manifest.
    now apply (compiled_in_fonts env _ _ f).
  - unfold compiled, resolvedInst, keyOf. rewrite Href.
    rewrite (entry_canon env _ _ _ He).
    rewrite (lookup_In _ _ Hndk Hd). reflexivity.
Qed.

Lemma no_orphan_download_witness :
  run ex_env ex_previous ex_catalog = (Ok tt, ex_final) /\
  uuids_ok (randomUUID ex_env) (st_uuids ex_final) /\
  exists doc,
    written ex_final = Some doc /\
    forall o, In o (doc_downloads doc) ->
      exists c, In c (doc_installations doc) /\
                inst_download c = Some (out_id o).
Proof.
  assert (Hrun : run ex_env ex_previous ex_catalog = (Ok tt, ex_final))
    by (vm_compute; reflexivity).
  assert (Hu : uuids_ok (randomUUID ex_env) (st_uuids ex_final))
    by uuids_drawn.
  split; [exact Hrun|]. split; [exact Hu|].
  exact (no_orphan_download ex_env ex_previous ex_catalog ex_final Hrun Hu).
Defined.

Lemma addLocalFileDownload_log (env : Env) (p : string) (s : State) :
  st_uuids (snd (addLocalFileDownload env p s)) = S (st_uuids s) /\
  st_resolved (snd (addLocalFileDownload env p s)) =
    st_resolved s ++ [RLocal p].
Proof.
  unfold addLocalFileDownload, generateUUID, copyFileSync, readLocal, push,
    bind, modify, gets, ret, throw.
  simpl. destruct (readSource env p), (st_outDir s); split; reflexivity.
Qed.

Lemma addURLDownload_log (env : Env) (u : string) (s : State) :
  st_uuids (snd (addURLDownload env u s)) = S (st_uuids s) /\
  st_resolved (snd (addURLDownload env u s)) = st_resolved s ++ [RUrl u].
Proof.
  unfold addURLDownload, mkdtempSync, generateUUID, writeTemp, rmTemp,
    consoleLog, push, bind, modify, gets, ret, throw.
  simpl. destruct (fetch env u) as [|? ? []]; simpl; try (split; reflexivity).
  destruct (normalizeUrl env u); split; reflexivity.
Qed.

(** Every resolver run draws one UUID, and nothing else does. *)
Lemma addFromObject_draws (env : Env) (obj : Installation) (s : State) :
  st_uuids s = List.length (st_resolved s) ->
  st_uuids (snd (addFromObject env obj s)) =
  List.length (st_resolved (snd (addFromObject env obj s))).
Proof.
  intros HP. unfold addFromObject.
  cbv beta iota delta [bind downloadExistsLocalFile downloadExistsURL gets ret].
  destruct (inst_localPath obj) as [p|].
  - destruct (addLocalFileDownload_log env p s) as (H1 & H2).
    destruct (downloadExistsLocalFile_loop env p (st_downloads s)) as [i|];
      [destruct (JS.truthy (Some i)); [exact HP|]|];
      destruct (addLocalFileDownload env p s) as [[d|e] s1]; simpl in *;
      rewrite H1, H2, length_app; simpl; lia.
  - destruct (inst_url obj) as [u|]; [|exact HP].
    destruct (addURLDownload_log env u s) as (H1 & H2).
    destruct (downloadExistsURL_loop env u (st_downloads s)) as [[i|]|];
      [destruct (JS.truthy (Some i)); [exact HP|]| |exact HP];
      destruct (addURLDownload env u s) as [[d|e] s1]; simpl in *;
      rewrite H1, H2, length_app; simpl; lia.
Qed.

Lemma traversal_draws (env : Env) (fonts : list Font) (compiled : list Font)
    (s' : State) :
  forEach (compileFont env) fonts (start (Some [])) = (Ok compiled, s') ->
  st_uuids s' = List.length (st_resolved s').
Proof.
  intros H.
  set (P := fun s : State => st_uuids s = List.length (st_resolved s)).
  assert (Hbody : forall (i : Installation) s r s1, P s ->
            bind (addFromObject env i) (fun i => sortFiles i) s = (r, s1) ->
            match r with
            | Ok _ => P s1 /\ True
            | Throw _ => True
            end).
  { intros i s r s1 HP Hb.
    pose proof (addFromObject_draws env i s HP) as Hd.
    destruct (addFromObject env i s) as [[i'|e] s2] eqn:E.
    - rewrite (bind_Ok _ _ _ _ _ E) in Hb.
      destruct (sortFiles_spec i' s2) as [E2|(e & E2)]; rewrite E2 in Hb;
        injection Hb as <- <-; simpl; auto.
    - rewrite (bind_Throw _ _ _ _ _ E) in Hb. injection Hb as <- <-.
      exact I. }
  assert (Hfont : forall (f : Font) s r s1, P s ->
            compileFont env f s = (r, s1) ->
            match r with
            | Ok _ => P s1 /\ True
            | Throw _ => True
            end).
  { intros f s r s1 HP Hf. unfold compileFont in Hf.
    match type of Hf with
    | bind (forEach ?g ?l) _ s = _ =>
        pose proof (forEach_inv P (fun _ _ => True) (fun _ _ _ => True) g l
                      (fun x s0 r0 s0' _ HP0 => Hbody x s0 r0 s0' HP0)
                      s) as Hloop;
        destruct (forEach g l s) as [[insts|e] s2] eqn:E
    end; specialize (Hloop _ _ HP eq_refl); simpl in Hloop.
    - rewrite (bind_Ok _ _ _ _ _ E) in Hf. injection Hf as <- <-.
      split; [apply Hloop|exact I].
    - rewrite (bind_Throw _ _ _ _ _ E) in Hf. injection Hf as <- <-.
      exact I. }
  pose proof (forEach_inv P (fun _ _ => True) (fun _ _ _ => True)
                (compileFont env) fonts
                (fun x s0 r0 s0' _ HP0 => Hfont x s0 r0 s0' HP0)
                (start (Some [])) _ _ eq_refl H) as (HP & _).
  exact HP.
Qed.

Lemma catalogKeys_In (env : Env) (fs : list Font) (k : Key) :
  In k (catalogKeys env fs) <->
  exists r, In r (catalogRefs fs) /\ canon env r = Some k.
Proof.
  unfold catalogKeys. rewrite in_flat_map. split.
  - intros (r & Hr & Hk). exists r. split; [exact Hr|].
    destruct (canon env r) as [k'|]; [|contradiction].
    destruct Hk as [->|[]]. reflexivity.
  - intros (r & Hr & Hk). exists r. split; [exact Hr|].
    rewrite Hk. now left.
Qed.

(** X6.  The manifest has one download for each distinct canonical key
    among the references of the catalog, no more and no fewer, and the
    build draws one UUID for each. *)
Theorem download_count (env : Env) (outDir : option Dir) (fonts : Catalog)
    (s' : State) :
  run env outDir fonts = (Ok tt, s') ->
  uuids_ok (randomUUID env) (st_uuids s') ->
  exists doc,
    written s' = Some doc /\
    List.length (doc_downloads doc) =
      List.length (distinctKeys env (cat_fonts fonts)) /\
    st_uuids s' = List.length (doc_downloads doc).
Proof.
  intros Hrun Hu.
  destruct (run_ok env _ _ _ Hrun Hu)
    as (dir & Hout & Hfresh & Hent & _ & _ & Hndk & Hincl & Hcov & _).
  eexists. split; [eapply written_writeFile; eauto|].
  rewrite doc_downloads_manifest, sort_length, length_map.
  split.
  - rewrite <- (length_map dl_key).
    apply Permutation_length, NoDup_Permutation;
      [assumption|apply NoDup_nodup|].
    intros k. unfold distinctKeys. rewrite nodup_In, catalogKeys_In. split.
    + intros Hk. apply in_map_iff in Hk. destruct Hk as (d & <- & Hd).
      destruct (Forall2_In_right _ _ _ _ Hent Hd) as (r & Hr & He).
      exists r. split; [now apply Hincl|].
      eapply entry_canon; eauto.
    + intros (r & Hr & Hk). apply catalogRefs_In in Hr.
      destruct Hr as (f & i & Hf & Hi & Href).
      rewrite Forall_forall in Hcov. pose proof (Hcov _ Hf) as Hc.
      rewrite Forall_forall in Hc. specialize (Hc _ Hi).
      unfold Covered in Hc. rewrite Href in Hc.
      destruct Hc as (k' & id & Hk' & Hl).
      assert (k' = k) by congruence. subst.
      destruct (lookup_Some _ _ _ Hl) as (d & Hd & <- & _).
      now apply in_map.
  - destruct (run_cases env _ _ _ _ Hrun)
      as [(c & s1 & dir1 & E & _ & _ & ->)|(e' & _ & Hr)]; [|discriminate].
    simpl in *. rewrite (traversal_draws env _ _ _ E).
    eapply Forall2_length; eauto.
Qed.

Lemma download_count_witness :
  run ex_env ex_previous ex_catalog = (Ok tt, ex_final) /\
  uuids_ok (randomUUID ex_env) (st_uuids ex_final) /\
  exists doc,
    written ex_final = Some doc /\
    List.length (doc_downloads doc) =
      List.length (distinctKeys ex_env (cat_fonts ex_catalog)) /\
    st_uuids ex_final = List.length (doc_downloads doc).
Proof.
  assert (Hrun : run ex_env ex_previous ex_catalog = (Ok tt, ex_final))
    by (vm_compute; reflexivity).
  assert (Hu : uuids_ok (randomUUID ex_env) (st_uuids ex_final))
    by uuids_drawn.
  split; [exact Hrun|]. split; [exact Hu|].
  exact (download_count ex_env ex_previous ex_catalog ex_final Hrun Hu).
Defined.

Lemma compiled_hasDownload (env : Env) (ds : list Download)
    (i : Installation) :
  Covered env ds i ->
  refOf i <> None \/ inst_download i <> None ->
  hasDownload (compiled env ds i).
Proof.
  unfold Covered, hasDownload, compiled, sortedFiles, resolvedInst, keyOf.
  simpl. destruct (refOf i) as [r|].
  - intros (k & id & -> & ->) _. discriminate.
  - intros _ [H|H]; [congruence|exact H].
Qed.

(** X7.  For a font all of whose installations have a reference
    ([_localPath] or [_url]) or a [download], every installation written
    carries a download id, so that [sortByDownloadID] is a consistent
    order on them, and the second sort of the installations, in [font],
    moves nothing: the installations written are the compiled
    installations of the source font, sorted once by [sortByDownloadID]. *)
Theorem installations_written (env : Env) (outDir : option Dir)
    (fonts : Catalog) (s' : State) :
  run env outDir fonts = (Ok tt, s') ->
  uuids_ok (randomUUID env) (st_uuids s') ->
  exists doc,
    written s' = Some doc /\
    forall f, In f (cat_fonts fonts) ->
      Forall (fun i => refOf i <> None \/ inst_download i <> None)
             (font_installations f) ->
      exists o,
        In o (doc_fonts doc) /\
        obj_string "id" o = font_id f /\
        obj_string "name" o = font_name f /\
        Forall hasDownload (obj_installations o) /\
        obj_installations o =
          JS.sort sortByDownloadID
                  (map (compiled env (st_downloads s'))
                       (font_installations f)).
Proof.
  intros Hrun Hu.
  destruct (run_ok env _ _ _ Hrun Hu)
    as (dir & Hout & Hfresh & _ & _ & _ & _ & _ & Hcov & _).
  eexists. split; [eapply written_writeFile; eauto|].
  intros f Hf Hall. rewrite doc_fonts_manifest.
  exists (font (compiledFont env (st_downloads s') f)).
  assert (Hidem : obj_installations
                    (font (compiledFont env (st_downloads s') f)) =
                  JS.sort sortByDownloadID
                    (map (compiled env (st_downloads s'))
                         (font_installations f))).
  { rewrite obj_installations_font. simpl.
    apply sort_idem, sortByDownloadID_antisym. }
  split; [apply in_map, sort_In, in_map, Hf|].
  repeat split; [|exact Hidem].
  rewrite Hidem.
  eapply Permutation_Forall; [symmetry; apply sort_perm|].
  apply Forall_map.
  rewrite Forall_forall in Hcov. specialize (Hcov f Hf).
  rewrite Forall_forall in *. intros i Hi.
  apply compiled_hasDownload; auto.
Qed.

Lemma installations_written_witness :
  run ex_env ex_previous ex_catalog = (Ok tt, ex_final) /\
  uuids_ok (randomUUID ex_env) (st_uuids ex_final) /\
  exists doc o,
    written ex_final = Some doc /\
    In o (doc_fonts doc) /\ obj_string "name" o = "Arial" /\
    Forall hasDownload (obj_installations o).
Proof.
  assert (Hrun : run ex_env ex_previous ex_catalog = (Ok tt, ex_final))
    by (vm_compute; reflexivity).
  assert (Hu : uuids_ok (randomUUID ex_env) (st_uuids ex_final))
    by uuids_drawn.
  split; [exact Hrun|]. split; [exact Hu|].
  destruct (installations_written ex_env ex_previous ex_catalog ex_final
              Hrun Hu) as (doc & Hw & H).
  destruct (H (ex_font "Arial"
                 [ cab ["arial.ttf"] (Some "a.exe") None None;
                   cab ["x.ttf"] None (Some "http://example.com/f") None;
                   cab ["y.ttf"] (Some "b.exe") None None ]))
    as (o & Ho & _ & Hname & Hd & _).
  - simpl. auto.
  - repeat (apply Forall_cons; [left; unfold refOf; simpl; discriminate|]).
    apply Forall_nil.
  - exists doc, o. repeat split; assumption.
Defined.

Lemma local_loop_app (env : Env) (q : string) (ds more : list Download) :
  downloadExistsLocalFile_loop env q (ds ++ more) =
  match downloadExistsLocalFile_loop env q ds with
  | Some id => Some id
  | None => downloadExistsLocalFile_loop env q more
  end.
Proof.
  now rewrite !downloadExistsLocalFile_lookup, lookup_app.
Qed.

Lemma url_loop_app (env : Env) (v : string) (ds more : list Download) :
  downloadExistsURL_loop env v (ds ++ more) =
  match downloadExistsURL_loop env v ds with
  | Ok (Some id) => Ok (Some id)
  | Ok None => downloadExistsURL_loop env v more
  | Throw e => Throw e
  end.
Proof.
  induction ds as [|d ds IH]; simpl; [reflexivity|].
  destruct (dl_key d); [exact IH|].
  destruct (normalizeUrl env v); [|reflexivity].
  destruct (String.eqb _ _); [reflexivity|exact IH].
Qed.

(** X8.  Once the resolver has registered a local file, the registry
    answers with its id for every path of the same normal form; an id
    that was registered before is still the answer for its paths; and
    the answers for URLs are as before, whatever the strings. *)
Theorem local_file_found_again (env : Env) (p id : string) (s s' : State) :
  addLocalFileDownload env p s = (Ok id, s') ->
  downloadExistsLocalFile env p s = (Ok None, s) ->
  (forall q, normalize env q = normalize env p ->
             downloadExistsLocalFile env q s' = (Ok (Some id), s')) /\
  (forall q id0, downloadExistsLocalFile env q s = (Ok (Some id0), s) ->
                 downloadExistsLocalFile env q s' = (Ok (Some id0), s')) /\
  (forall u, fst (downloadExistsURL env u s') =
             fst (downloadExistsURL env u s)).
Proof.
  intros Hadd Hnone.
  assert (Hds : st_downloads s' =
                st_downloads s ++
                [ {| dl_id := id;
                     dl_downloadURL :=
                       (urlPrefix env ++
                        encodeURIComponent env (id ++ extname env p))%string;
                     dl_fileSize :=
                       match readSource env p with
                       | Some c => List.length c
                       | None => 0
                       end;
                     dl_hash :=
                       match readSource env p with
                       | Some c => computeFileHash env c
                       | None => EmptyString
                       end;
                     dl_key := KLocalFile (normalize env p) |} ]).
  { revert Hadd. unfold addLocalFileDownload, generateUUID, copyFileSync,
      readLocal, push, bind, modify, gets, ret, throw. simpl.
    destruct (readSource env p), (st_outDir s); simpl; intros E;
      try discriminate. injection E as <- <-. reflexivity. }
  unfold downloadExistsLocalFile, downloadExistsURL, bind, gets, ret in *.
  injection Hnone as Hnone.
  repeat split.
  - intros q Hq. f_equal. f_equal. rewrite Hds, local_loop_app.
    rewrite !downloadExistsLocalFile_lookup in *. rewrite Hq, Hnone.
    simpl. now rewrite String.eqb_refl.
  - intros q id0 H0. injection H0 as H0. f_equal. f_equal.
    now rewrite Hds, local_loop_app, H0.
  - intros u. simpl. rewrite Hds, url_loop_app. simpl.
    now destruct (downloadExistsURL_loop env u (st_downloads s)) as [[?|]|].
Qed.

Lemma local_file_found_again_witness :
  addLocalFileDownload ex_env "./a.exe" (start (Some [])) =
    (Ok "00000000-0000-4000-8000-000000000000", ex_afterLocal) /\
  downloadExistsLocalFile ex_env "./a.exe" (start (Some [])) =
    (Ok None, start (Some [])) /\
  downloadExistsLocalFile ex_env "a.exe" ex_afterLocal =
    (Ok (Some "00000000-0000-4000-8000-000000000000"), ex_afterLocal).
Proof.
  assert (Hadd : addLocalFileDownload ex_env "./a.exe" (start (Some [])) =
                 (Ok "00000000-0000-4000-8000-000000000000", ex_afterLocal))
    by (vm_compute; reflexivity).
  assert (Hnone : downloadExistsLocalFile ex_env "./a.exe" (start (Some [])) =
                  (Ok None, start (Some [])))
    by (vm_compute; reflexivity).
  split; [exact Hadd|]. split; [exact Hnone|].
  exact (proj1 (local_file_found_again ex_env _ _ _ _ Hadd Hnone)
               "a.exe" eq_refl).
Defined.

(** X9.  Once the resolver has registered a URL, the registry answers
    with its id for every URL of the same normal form; an id that was
    registered before is still the answer for its URLs; and the answers
    for local paths are as before. *)
Theorem url_found_again (env : Env) (u id : string) (s s' : State) :
  addURLDownload env u s = (Ok id, s') ->
  downloadExistsURL env u s = (Ok None, s) ->
  (forall v, normalizeUrl env v = normalizeUrl env u ->
             downloadExistsURL env v s' = (Ok (Some id), s')) /\
  (forall v id0, downloadExistsURL env v s = (Ok (Some id0), s) ->
                 downloadExistsURL env v s' = (Ok (Some id0), s')) /\
  (forall q, fst (downloadExistsLocalFile env q s') =
             fst (downloadExistsLocalFile env q s)).
Proof.
  intros Hadd Hnone.
  assert (Hds : exists n d,
            normalizeUrl env u = Some n /\
            dl_id d = id /\ dl_key d = KUrl n /\
            st_downloads s' = st_downloads s ++ [d]).
  { revert Hadd. unfold addURLDownload, mkdtempSync, generateUUID,
      writeTemp, rmTemp, consoleLog, push, bind, modify, gets, ret, throw.
    destruct (fetch env u) as [|status body []]; try discriminate.
    destruct (normalizeUrl env u) as [n|]; try discriminate.
    intros E. injection E as <- <-. eexists. eexists.
    split; [reflexivity|]. split; [|split]; [| |reflexivity]; reflexivity. }
  destruct Hds as (n & d & Hn & Hid & Hkey & Hds).
  unfold downloadExistsLocalFile, downloadExistsURL, bind, gets, ret in *.
  injection Hnone as Hnone.
  rewrite (downloadExistsURL_lookup env u n _ Hn) in Hnone.
  injection Hnone as Hnone.
  repeat split.
  - intros v Hv. rewrite Hn in Hv. f_equal.
    rewrite (downloadExistsURL_lookup env v n _ Hv).
    rewrite Hds, lookup_app, Hnone. simpl.
    rewrite Hkey, Hid. simpl. now rewrite String.eqb_refl.
  - intros v id0 H0. injection H0 as H0. f_equal.
    now rewrite Hds, url_loop_app, H0.
  - intros q. simpl. rewrite Hds, local_loop_app.
    destruct (downloadExistsLocalFile_loop env q (st_downloads s));
      [reflexivity|]. simpl. now rewrite Hkey.
Qed.

Lemma url_found_again_witness :
  addURLDownload ex_env "HTTP://Example.com/f" (start (Some [])) =
    (Ok "00000000-0000-4000-8000-000000000000", ex_afterUrl) /\
  downloadExistsURL ex_env "HTTP://Example.com/f" (start (Some [])) =
    (Ok None, start (Some [])) /\
  downloadExistsURL ex_env "http://example.com/f" ex_afterUrl =
    (Ok (Some "00000000-0000-4000-8000-000000000000"), ex_afterUrl).
Proof.
  assert (Hadd : addURLDownload ex_env "HTTP://Example.com/f"
                   (start (Some [])) =
                 (Ok "00000000-0000-4000-8000-000000000000", ex_afterUrl))
    by (vm_compute; reflexivity).
  assert (Hnone : downloadExistsURL ex_env "HTTP://Example.com/f"
                    (start (Some [])) = (Ok None, start (Some [])))
    by (vm_compute; reflexivity).
  split; [exact Hadd|]. split; [exact Hnone|].
  exact (proj1 (url_found_again ex_env _ _ _ _ Hadd Hnone)
               "http://example.com/f" eq_refl).
Defined.

(** X10.  The version of the manifest is the configured one, and
    [0.0.0] when none is configured or the configured one is the empty
    string. *)
Theorem manifest_version (env : Env) (outDir : option Dir) (fonts : Catalog)
    (s' : State) :
  run env outDir fonts = (Ok tt, s') ->
  exists doc,
    written s' = Some doc /\
    (forall v, env_VERSION env = Some v -> v <> EmptyString ->
               get "version" doc = Some (DString v)) /\
    (env_VERSION env = None \/ env_VERSION env = Some EmptyString ->
     get "version" doc = Some (DString "0.0.0")).
Proof.
  intros Hrun.
  destruct (run_manifest env _ _ _ Hrun) as (compiled & s1 & _ & _ & Hw).
  eexists. split; [exact Hw|]. simpl. unfold version, JS.or_default.
  split.
  - intros v -> Hv. destruct v; [contradiction|reflexivity].
  - intros [-> | ->]; reflexivity.
Qed.

Lemma manifest_version_witness :
  run ex_env_unversioned ex_previous ex_catalog =
    (Ok tt, ex_final_unversioned) /\
  exists doc,
    written ex_final_unversioned = Some doc /\
    get "version" doc = Some (DString "0.0.0").
Proof.
  assert (Hrun : run ex_env_unversioned ex_previous ex_catalog =
                 (Ok tt, ex_final_unversioned))
    by (vm_compute; reflexivity).
  split; [exact Hrun|].
  destruct (manifest_version ex_env_unversioned ex_previous ex_catalog
              ex_final_unversioned Hrun) as (doc & Hw & _ & H).
  exists doc. split; [exact Hw|]. apply H. right. reflexivity.
Defined.

End BuildProperties.

(** ** Further properties of the format pass *)

Section FormatProperties.
Import Format FormatSpec FormatMore Examples MoreExamples.
Variable randomUUID : nat -> string.

Lemma format_loop_ids (fonts : list Font) :
  forall s formatted s',
  forEach (formatFont randomUUID) fonts s = (Ok formatted, s') ->
  st_uuids s' = st_uuids s + List.length (sentinels fonts) /\
  st_newUUIDs s' =
    st_newUUIDs s ++
    map randomUUID (seq (st_uuids s) (List.length (sentinels fonts))) /\
  map font_id formatted = assignIds randomUUID (st_uuids s) fonts /\
  map font_name formatted = map font_name fonts.
Proof.
  induction fonts as [|f fonts IH]; simpl; intros s formatted s' H.
  - injection H as <- <-. simpl. rewrite app_nil_r. auto.
  - destruct (formatFont randomUUID f s) as [[f'|e] s1] eqn:E1.
    2:{ rewrite (bind_Throw _ _ _ _ _ E1) in H. discriminate. }
    rewrite (bind_Ok _ _ _ _ _ E1) in H.
    destruct (forEach (formatFont randomUUID) fonts s1) as [[fs'|e] s2] eqn:E2.
    2:{ rewrite (bind_Throw _ _ _ _ _ E2) in H. discriminate. }
    rewrite (bind_Ok _ _ _ _ _ E2) in H. injection H as <- <-.
    destruct (IH _ _ _ E2) as (Hu & Hn & Hid & Hname).
    destruct (formatFont_spec randomUUID f f' s s1 E1)
      as (H1 & _ & _ & _ & _ & _ & Hcase).
    simpl. rewrite H1, Hname, Hid.
    destruct Hcase as [(Hne & Hsame & ->)|(Heq & Hnew & Hu1 & Hn1)].
    + apply String.eqb_neq in Hne. rewrite Hne. simpl.
      rewrite Hsame. auto.
    + apply String.eqb_eq in Heq. rewrite Heq. simpl.
      rewrite Hu, Hn, Hu1, Hn1, Hnew, <- app_assoc. simpl.
      repeat split; auto; lia.
Qed.

(** X12.  The pass draws one UUID for each font whose id is [<UUID>] and
    hands them out in the order of the source; every other font keeps
    its id.  [newUUIDs.json] lists the ids drawn, in that order, and is
    written only when at least two were drawn. *)
Theorem generated_ids (fonts : Catalog) (s' : State) :
  run randomUUID fonts = (Ok tt, s') ->
  let k := List.length (sentinels (cat_fonts fonts)) in
  exists c fs,
    lastWritten "fonts.json" (st_written s') = Some (FontsJson c) /\
    Permutation fs (fmt_fonts c) /\
    map (BuildSpec.obj_string "id") fs =
      assignIds randomUUID 0 (cat_fonts fonts) /\
    map (BuildSpec.obj_string "name") fs = map font_name (cat_fonts fonts) /\
    st_uuids s' = k /\
    st_newUUIDs s' = map randomUUID (seq 0 k) /\
    lastWritten "newUUIDs.json" (st_written s') =
      if (1 <? k)%nat then Some (UUIDsJson (map randomUUID (seq 0 k)))
      else None.
Proof.
  intros Hrun k. unfold run, main in Hrun.
  destruct (forEach (formatFont randomUUID) (cat_fonts fonts) start)
    as [[formatted|e] s1] eqn:E.
  2:{ rewrite (bind_Throw _ _ _ _ _ E) in Hrun. discriminate. }
  rewrite (bind_Ok _ _ _ _ _ E) in Hrun.
  destruct (format_loop_ids _ _ _ _ E) as (Hu & Hn & Hid & Hname).
  destruct (format_loop randomUUID _ _ _ _ E) as (Hw & _ & _).
  simpl in Hu, Hn, Hw. fold k in Hu, Hn.
  unfold bind, writeFileSync, modify, gets, ret in Hrun.
  simpl in Hrun. rewrite Hw, Hn, length_map, length_seq in Hrun.
  simpl in Hrun.
  eexists. exists (map font formatted).
  destruct (1 <? k)%nat; injection Hrun as <-; simpl;
    rewrite ?Hn, ?Hu;
    (split; [reflexivity|]);
    (split; [apply Permutation_map; symmetry; apply sort_perm|]);
    rewrite !map_map; simpl; repeat split; auto.
Qed.

Lemma fmt_cmp_le (x y : Installation) :
  hasRef x -> hasRef y ->
  (sortByTypeThenLocalPathOrURL x y <= 0)%Z -> fmt_le x y.
Proof.
  unfold hasRef, fmt_le, sortKey, sortByTypeThenLocalPathOrURL, defined.
  intros Hx Hy.
  destruct (JS.lt (inst_type x) (inst_type y)) eqn:E1; [now left|].
  destruct (JS.gt (inst_type x) (inst_type y)) eqn:E2; [lia|].
  assert (Ht : inst_type x = inst_type y).
  { destruct (js_lt_trichotomy (inst_type x) (inst_type y)) as [F|[F|F]];
      unfold JS.gt, JS.lt in *; congruence. }
  intros H. right. split; [exact Ht|].
  destruct (inst_localPath x) as [px|], (inst_localPath y) as [py|];
    simpl in *; try lia.
  - right. split; [split; discriminate|].
    intros a b [= <-] [= <-]. unfold BuildSpec.str_le.
    destruct (JS.lt px py) eqn:L; [now apply js_lt_asym|].
    unfold JS.gt; destruct (JS.lt py px) eqn:G; [lia|exact G].
  - left. split; [reflexivity|discriminate].
  - right. split; [tauto|]. intros a b Ha Hb. rewrite Ha, Hb in H.
    simpl in H. unfold BuildSpec.str_le.
    destruct (JS.lt a b) eqn:L; [now apply js_lt_asym|].
    unfold JS.gt; destruct (JS.lt b a) eqn:G; [lia|exact G].
Qed.

Lemma fmt_cmp_gt (x y : Installation) :
  hasRef x -> hasRef y ->
  (0 < sortByTypeThenLocalPathOrURL x y)%Z -> fmt_le y x.
Proof.
  unfold hasRef, fmt_le, sortKey, sortByTypeThenLocalPathOrURL, defined.
  intros Hx Hy.
  destruct (JS.lt (inst_type x) (inst_type y)) eqn:E1; [lia|].
  destruct (JS.gt (inst_type x) (inst_type y)) eqn:E2; [now left|].
  assert (Ht : inst_type y = inst_type x).
  { destruct (js_lt_trichotomy (inst_type x) (inst_type y)) as [F|[F|F]];
      unfold JS.gt, JS.lt in *; congruence. }
  intros H. right. split; [exact Ht|].
  destruct (inst_localPath x) as [px|], (inst_localPath y) as [py|];
    simpl in *; try lia.
  - right. split; [split; discriminate|].
    intros a b [= <-] [= <-].
    destruct (JS.lt px py) eqn:L; [lia|].
    unfold JS.gt; destruct (JS.lt py px) eqn:G; [|lia].
    now apply str_le_of_lt.
  - left. split; [reflexivity|discriminate].
  - right. split; [tauto|]. intros a b Ha Hb. rewrite Ha, Hb in H.
    simpl in H.
    destruct (JS.lt b a) eqn:L; [lia|].
    unfold JS.gt; destruct (JS.lt a b) eqn:G; [|lia].
    now apply str_le_of_lt.
Qed.

Lemma fmt_le_trans (x y z : Installation) :
  hasRef x -> hasRef y -> hasRef z ->
  fmt_le x y -> fmt_le y z -> fmt_le x z.
Proof.
  unfold hasRef, fmt_le, sortKey. intros Hx Hy Hz [L1|(T1 & K1)] [L2|(T2 & K2)].
  - left. eapply js_lt_trans; eauto.
  - left. now rewrite <- T2.
  - left. now rewrite T1.
  - right. split; [congruence|].
    destruct (inst_localPath x) as [px|], (inst_localPath y) as [py|],
             (inst_localPath z) as [pz|];
      try (left; split; [reflexivity|discriminate]);
      try (exfalso; intuition congruence).
    + right. split; [split; discriminate|].
      intros a b [= <-] [= <-].
      destruct K1 as [(F & _)|(_ & K1)]; [discriminate|].
      destruct K2 as [(F & _)|(_ & K2)]; [discriminate|].
      eapply str_le_trans; eauto.
    + right. split; [tauto|].
      destruct (inst_url y) as [uy|]; [|exfalso; intuition congruence].
      intros a b Ha Hb.
      destruct K1 as [(_ & F)|(_ & K1)]; [congruence|].
      destruct K2 as [(_ & F)|(_ & K2)]; [congruence|].
      eapply str_le_trans; eauto.
Qed.

Lemma format_sorted_installations (l : list Installation) :
  Forall hasRef l ->
  StronglySorted fmt_le (JS.sort sortByTypeThenLocalPathOrURL l).
Proof.
  apply (sort_sorted sortByTypeThenLocalPathOrURL hasRef).
  - apply fmt_cmp_le.
  - apply fmt_cmp_gt.
  - apply fmt_le_trans.
Qed.

Lemma format_sorted_by_type (l : list Installation) :
  StronglySorted
    (fun a b => BuildSpec.str_le (inst_type a) (inst_type b))
    (JS.sort sortByTypeThenLocalPathOrURL l).
Proof.
  apply (sort_sorted sortByTypeThenLocalPathOrURL (fun _ => True)).
  - intros x y _ _. unfold sortByTypeThenLocalPathOrURL.
    destruct (JS.lt (inst_type x) (inst_type y)) eqn:E1;
      [intros _; now apply str_le_of_lt|].
    destruct (JS.gt (inst_type x) (inst_type y)) eqn:E2; [lia|].
    intros _. exact E2.
  - intros x y _ _. unfold sortByTypeThenLocalPathOrURL.
    destruct (JS.lt (inst_type x) (inst_type y)) eqn:E1; [lia|].
    intros _. exact E1.
  - intros x y z _ _ _. apply str_le_trans.
  - apply Forall_forall. auto.
Qed.

Lemma format_files_sorted (l : list Installation) :
  forall s l' s', forEach sortFiles l s = (Ok l', s') ->
  Forall BuildInv.filesSorted l'.
Proof.
  induction l as [|i l IH]; simpl; intros s l' s' H.
  - injection H as <- <-. constructor.
  - destruct (sortFiles i s) as [[i'|e] s1] eqn:E1.
    2:{ rewrite (bind_Throw _ _ _ _ _ E1) in H. discriminate. }
    rewrite (bind_Ok _ _ _ _ _ E1) in H.
    destruct (forEach sortFiles l s1) as [[l1|e] s2] eqn:E2.
    2:{ rewrite (bind_Throw _ _ _ _ _ E2) in H. discriminate. }
    rewrite (bind_Ok _ _ _ _ _ E2) in H. injection H as <- <-.
    constructor; [|eapply IH; eauto].
    unfold sortFiles in E1. unfold BuildInv.filesSorted.
    destruct (String.eqb (inst_type i) "cabextract") eqn:Et.
    + destruct (inst_files i) as [files|]; [|discriminate].
      injection E1 as <- <-. simpl. intros _. eexists.
      split; [reflexivity|apply sortStrings_sorted].
    + injection E1 as <- <-. intros F. apply String.eqb_neq in Et.
      contradiction.
Qed.

Lemma formatFont_files (f f' : Font) (s s' : State) :
  formatFont randomUUID f s = (Ok f', s') ->
  Forall BuildInv.filesSorted (font_installations f').
Proof.
  unfold formatFont. intros H.
  match type of H with
  | bind ?m _ s = _ => destruct (m s) as [[f1|e] s1] eqn:E1
  end.
  2:{ rewrite (bind_Throw _ _ _ _ _ E1) in H. discriminate. }
  rewrite (bind_Ok _ _ _ _ _ E1) in H.
  match type of H with
  | bind (forEach sortFiles ?l) _ s1 = _ =>
      destruct (forEach sortFiles l s1) as [[l'|e] s2] eqn:E2
  end.
  2:{ rewrite (bind_Throw _ _ _ _ _ E2) in H. discriminate. }
  rewrite (bind_Ok _ _ _ _ _ E2) in H. injection H as <- <-. simpl.
  eapply format_files_sorted; eauto.
Qed.

Lemma format_loop_files (fonts : list Font) :
  forall s formatted s',
  forEach (formatFont randomUUID) fonts s = (Ok formatted, s') ->
  Forall (fun f' => Forall BuildInv.filesSorted (font_installations f'))
         formatted.
Proof.
  induction fonts as [|f fonts IH]; simpl; intros s formatted s' H.
  - injection H as <- <-. constructor.
  - destruct (formatFont randomUUID f s) as [[f'|e] s1] eqn:E1.
    2:{ rewrite (bind_Throw _ _ _ _ _ E1) in H. discriminate. }
    rewrite (bind_Ok _ _ _ _ _ E1) in H.
    destruct (forEach (formatFont randomUUID) fonts s1) as [[fs'|e] s2] eqn:E2.
    2:{ rewrite (bind_Throw _ _ _ _ _ E2) in H. discriminate. }
    rewrite (bind_Ok _ _ _ _ _ E2) in H. injection H as <- <-.
    constructor; [eapply formatFont_files; eauto|eapply IH; eauto].
Qed.

(** X13.  The catalog the pass writes is in order: the fonts by name,
    the groups by name, the font list of every group, the categories of
    every font and the files of every [cabextract] installation in
    string order, and the installations of every font by type; where
    every installation of a font has a [_localPath] or a [_url], they
    are, within a type, the URLs before the local paths and each of the
    two by its reference. *)
Theorem format_ordering (fonts : Catalog) (s' : State) :
  run randomUUID fonts = (Ok tt, s') ->
  exists c,
    lastWritten "fonts.json" (st_written s') = Some (FontsJson c) /\
    StronglySorted
      (fun a b => BuildSpec.str_le (BuildSpec.obj_string "name" a)
                                   (BuildSpec.obj_string "name" b))
      (fmt_fonts c) /\
    StronglySorted
      (fun a b => BuildSpec.str_le (group_name a) (group_name b))
      (fmt_groups c) /\
    Forall (fun g => StronglySorted BuildSpec.str_le (group_fonts g))
           (fmt_groups c) /\
    Forall (fun o =>
              StronglySorted BuildSpec.str_le (BuildSpec.obj_categories o) /\
              StronglySorted
                (fun a b => BuildSpec.str_le (inst_type a) (inst_type b))
                (BuildSpec.obj_installations o) /\
              Forall BuildInv.filesSorted (BuildSpec.obj_installations o) /\
              (Forall hasRef (BuildSpec.obj_installations o) ->
               StronglySorted fmt_le (BuildSpec.obj_installations o)))
           (fmt_fonts c).
Proof.
  intros Hrun. unfold run, main in Hrun.
  destruct (forEach (formatFont randomUUID) (cat_fonts fonts) start)
    as [[formatted|e] s1] eqn:E.
  2:{ rewrite (bind_Throw _ _ _ _ _ E) in Hrun. discriminate. }
  rewrite (bind_Ok _ _ _ _ _ E) in Hrun.
  destruct (format_loop randomUUID _ _ _ _ E) as (Hw & _ & _).
  pose proof (format_loop_files _ _ _ _ E) as Hfiles.
  simpl in Hw.
  unfold bind, writeFileSync, modify, gets, ret in Hrun.
  simpl in Hrun. rewrite Hw in Hrun. simpl in Hrun.
  eexists.
  split.
  { destruct (1 <? List.length (st_newUUIDs s1))%nat;
      injection Hrun as <-; simpl; reflexivity. }
  simpl. split; [|split; [|split]].
  - apply (StronglySorted_map
             (fun a b => BuildSpec.str_le (BuildSpec.obj_string "name" a)
                                          (BuildSpec.obj_string "name" b))).
    apply (sort_by_attribute (sortByName font_name) font_name).
    reflexivity.
  - apply (sort_by_attribute (sortByName group_name) group_name).
    reflexivity.
  - eapply Permutation_Forall; [symmetry; apply sort_perm|].
    apply Forall_map, Forall_forall. intros g _. simpl.
    apply sortStrings_sorted.
  - apply Forall_map.
    eapply Permutation_Forall; [symmetry; apply sort_perm|].
    eapply Forall_impl; [|exact Hfiles]. intros f' Hf'.
    unfold BuildSpec.obj_categories, BuildSpec.obj_installations. simpl.
    split; [apply sortStrings_sorted|].
    split; [apply format_sorted_by_type|].
    split.
    + eapply Permutation_Forall; [symmetry; apply sort_perm|]. exact Hf'.
    + intros Href. apply format_sorted_installations.
      eapply Permutation_Forall; [apply sort_perm|]. exact Href.
Qed.

End FormatProperties.

(** ** The format pass on the example catalogs *)

Section FormatRuns.
Import Format FormatSpec FormatMore Examples MoreExamples.

Lemma generated_ids_witness :
  run ex_uuid ex_twoNew = (Ok tt, ex_formatted_twoNew) /\
  lastWritten "newUUIDs.json" (st_written ex_formatted_twoNew) =
    Some (UUIDsJson [ "00000000-0000-4000-8000-000000000000";
                      "00000000-0000-4000-8000-000000000001" ]).
Proof.
  assert (Hrun : run ex_uuid ex_twoNew = (Ok tt, ex_formatted_twoNew))
    by (vm_compute; reflexivity).
  split; [exact Hrun|].
  destruct (generated_ids ex_uuid ex_twoNew ex_formatted_twoNew Hrun)
    as (c & fs & _ & _ & _ & _ & _ & _ & H).
  exact H.
Defined.

Lemma format_ordering_witness :
  run ex_uuid ex_licensed = (Ok tt, ex_formatted) /\
  exists c,
    lastWritten "fonts.json" (st_written ex_formatted) = Some (FontsJson c) /\
    StronglySorted
      (fun a b => BuildSpec.str_le (BuildSpec.obj_string "name" a)
                                   (BuildSpec.obj_string "name" b))
      (fmt_fonts c).
Proof.
  assert (Hrun : run ex_uuid ex_licensed = (Ok tt, ex_formatted))
    by (vm_compute; reflexivity).
  split; [exact Hrun|].
  destruct (format_ordering ex_uuid ex_licensed ex_formatted Hrun)
    as (c & Hw & Hs & _).
  exists c. split; assumption.
Defined.

End FormatRuns.

(** * The scripts on a catalog that leaves arrays out *)

(** ** Loops whose outcome is decided element by element *)

Lemma forEach_decided {S A B : Type} (ok : A -> bool) (I : S -> S -> Prop)
    (R : A -> B -> Prop) (e0 : Error) (f : A -> M S B) :
  (forall s, I s s) ->
  (forall a b c, I a b -> I b c -> I a c) ->
  (forall x s,
     if ok x
     then exists y s', f x s = (Ok y, s') /\ I s s' /\ R x y
     else exists s', f x s = (Throw e0, s') /\ I s s') ->
  forall l s,
    if forallb ok l
    then exists l' s',
           forEach f l s = (Ok l', s') /\ I s s' /\ Forall2 R l l'
    else exists s', forEach f l s = (Throw e0, s') /\ I s s'.
Proof.
  intros Irefl Itrans Hf. induction l as [|x l IH]; intros s; simpl.
  - exists [], s. auto.
  - specialize (Hf x s). destruct (ok x); simpl.
    + destruct Hf as (y & s1 & E & HI & HR).
      rewrite (bind_Ok _ _ _ _ _ E).
      specialize (IH s1). destruct (forallb ok l).
      * destruct IH as (l' & s2 & E2 & HI2 & HF). exists (y :: l'), s2.
        rewrite (bind_Ok _ _ _ _ _ E2). split; [reflexivity|]. eauto.
      * destruct IH as (s2 & E2 & HI2). exists s2.
        rewrite (bind_Throw _ _ _ _ _ E2). eauto.
    + destruct Hf as (s1 & E & HI). exists s1.
      rewrite (bind_Throw _ _ _ _ _ E). auto.
Qed.

Lemma forallb_perm {A : Type} (p : A -> bool) (l l' : list A) :
  Permutation l l' -> forallb p l = forallb p l'.
Proof.
  induction 1; simpl; auto; try congruence.
  destruct (p x), (p y); reflexivity.
Qed.

Lemma forallb_Forall2 {A B : Type} (p : A -> bool) (q : B -> bool)
    (R : A -> B -> Prop) (l : list A) (l' : list B) :
  (forall x y, R x y -> q y = p x) ->
  Forall2 R l l' -> forallb q l' = forallb p l.
Proof.
  intros H. induction 1 as [|x y l l' HR HF IH]; simpl; [reflexivity|].
  now rewrite (H _ _ HR), IH.
Qed.

(** ** Catalogs that have all their arrays *)

(** On a catalog that has all its arrays the scripts run as on the
    catalog of the first part. *)

Lemma forEach_map {S A A' B B' : Type} (h : A -> A') (h' : B -> B')
    (f : A -> M S B) (g : A' -> M S B') :
  (forall x s, g (h x) s = RawSpec.liftResult h' (f x s)) ->
  forall l s, forEach g (map h l) s = RawSpec.liftResult (map h') (forEach f l s).
Proof.
  intros H. induction l as [|x l IH]; intros s; simpl; [reflexivity|].
  unfold bind at 1 3. rewrite H.
  destruct (f x s) as [[y|e] s1]; simpl; [|reflexivity].
  unfold bind. rewrite IH.
  destruct (forEach f l s1) as [[ys|e] s2]; reflexivity.
Qed.

Lemma forEach_ret {S A B : Type} (h : A -> B) (g : A -> M S B) :
  (forall x s, g x s = (Ok (h x), s)) ->
  forall l s, forEach g l s = (Ok (map h l), s).
Proof.
  intros H. induction l as [|x l IH]; intros s; simpl; [reflexivity|].
  unfold bind. now rewrite H, IH.
Qed.

Lemma insert_map {A B : Type} (h : A -> B) (cmp : A -> A -> Z)
    (cmp' : B -> B -> Z) (x : A) (l : list A) :
  (forall a b, cmp' (h a) (h b) = cmp a b) ->
  JS.insert cmp' (h x) (map h l) = map h (JS.insert cmp x l).
Proof.
  intros H. induction l as [|y l IH]; simpl; [reflexivity|].
  rewrite H. destruct (0 <? cmp x y)%Z; simpl; [now rewrite IH|reflexivity].
Qed.

Lemma sort_map {A B : Type} (h : A -> B) (cmp : A -> A -> Z)
    (cmp' : B -> B -> Z) (l : list A) :
  (forall a b, cmp' (h a) (h b) = cmp a b) ->
  JS.sort cmp' (map h l) = map h (JS.sort cmp l).
Proof.
  intros H. induction l as [|x l IH]; simpl; [reflexivity|].
  rewrite IH. now apply insert_map.
Qed.

Lemma build_of_catalog (env : Build.Env) (c : Catalog) (s : Build.State) :
  BuildRaw.main env (RawSpec.ofCatalog c) s = Build.main env c s.
Proof.
  unfold BuildRaw.main, Build.main. simpl.
  unfold bind at 1 5. destruct (Build.clearOutDir s) as [[[]|e] s0];
    [|reflexivity].
  unfold bind at 1 4.
  rewrite (forEach_map RawSpec.ofFont RawSpec.ofFont
             (Build.compileFont env) (BuildRaw.compileFont env)).
  2:{ intros f s1. unfold BuildRaw.compileFont, Build.compileFont, bind.
      simpl.
      destruct (forEach _ (font_installations f) s1) as [[l|e] s2];
        reflexivity. }
  destruct (forEach (Build.compileFont env) (cat_fonts c) s0)
    as [[compiled|e] s1]; simpl; [|reflexivity].
  rewrite (sort_map RawSpec.ofFont Build.sortByName) by reflexivity.
  unfold bind at 1.
  rewrite (forEach_map RawSpec.ofFont (fun o : Obj => o)
             (fun f => ret (Build.font f)) BuildRaw.font)
    by reflexivity.
  rewrite (forEach_ret Build.font) by reflexivity.
  simpl. now rewrite map_id.
Qed.

Lemma format_of_catalog (randomUUID : nat -> string) (c : Catalog)
    (s : Format.State) :
  FormatRaw.main randomUUID (RawSpec.ofCatalog c) s =
  Format.main randomUUID c s.
Proof.
  unfold FormatRaw.main, Format.main. simpl.
  unfold bind at 1 6.
  rewrite (forEach_map RawSpec.ofFont RawSpec.ofFont
             (Format.formatFont randomUUID)
             (FormatRaw.formatFont randomUUID)).
  2:{ intros f s1. unfold FormatRaw.formatFont, Format.formatFont, bind,
        Format.generateUUID, modify, ret.
      change (rf_id (RawSpec.ofFont f)) with (font_id f).
      destruct (String.eqb (font_id f) Format.sentinel); simpl;
        destruct (forEach Format.sortFiles _ _) as [[l|e] s2];
        reflexivity. }
  destruct (forEach (Format.formatFont randomUUID) (cat_fonts c) s)
    as [[formatted|e] s1]; simpl; [|reflexivity].
  rewrite (sort_map RawSpec.ofFont (Format.sortByName font_name))
    by reflexivity.
  unfold bind at 1.
  rewrite (forEach_map RawSpec.ofFont (fun o : Obj => o)
             (fun f => ret (Format.font f)) FormatRaw.font)
    by reflexivity.
  rewrite (forEach_ret Format.font) by reflexivity.
  simpl. rewrite map_id.
  unfold bind at 1.
  rewrite (forEach_map RawSpec.ofGroup (fun g : Group => g)
             (fun g => ret (Format.sortGroupFonts g))
             FormatRaw.sortGroupFonts)
    by reflexivity.
  rewrite (forEach_ret Format.sortGroupFonts) by reflexivity.
  simpl. now rewrite map_id.
Qed.

(** ** Why a build fails *)

Section RawBuild.
Import Build BuildSpec BuildInv BuildMore RawSpec Examples RawExamples.






End RawBuild.

(** ** When the format pass fails *)

Section RawFormat.
Import Format FormatSpec FormatMore RawSpec Examples RawExamples.
Variable randomUUID : nat -> string.

Lemma raw_sortFiles_decided (x : Installation) (s : State) :
  if negb (lacksFiles x)
  then exists y s', sortFiles x s = (Ok y, s') /\ s = s' /\ True
  else exists s', sortFiles x s = (Throw TypeError, s') /\ s = s'.
Proof.
  unfold lacksFiles, sortFiles.
  destruct (String.eqb (inst_type x) "cabextract");
    [destruct (inst_files x)|]; simpl;
    first [ eexists; eexists; split; [reflexivity|split; [reflexivity|exact I]]
          | eexists; split; reflexivity ].
Qed.

(** The body of the loop, step by step. *)
Lemma raw_formatFont_steps (f : RawFont) (s : State) :
  FormatRaw.formatFont randomUUID f s =
  let id := randomUUID (st_uuids s) in
  let generate := String.eqb (rf_id f) sentinel in
  let f1 := if generate then FormatRaw.set_id id f else f in
  let s1 := if generate
            then mkState (S (st_uuids s)) (st_newUUIDs s ++ [id])
                         (st_written s)
            else s in
  match rf_installations f with
  | None => (Throw TypeError, s1)
  | Some l =>
      match forEach sortFiles (JS.sort sortByTypeThenLocalPathOrURL l) s1
      with
      | (Ok installations, s') =>
          (Ok (FormatRaw.set_installations installations f1), s')
      | (Throw e, s') => (Throw e, s')
      end
  end.
Proof.
  unfold FormatRaw.formatFont, bind, generateUUID, modify, ret, throw.
  destruct (String.eqb (rf_id f) sentinel); simpl;
    destruct (rf_installations f); reflexivity.
Qed.

Lemma raw_formatFont_decided (f : RawFont) (s : State) :
  if installationsFormattable f
  then exists f' s',
         FormatRaw.formatFont randomUUID f s = (Ok f', s') /\
         unwritten s s' /\
         (rf_categories f' = rf_categories f /\
          present (rf_installations f') = true)
  else exists s',
         FormatRaw.formatFont randomUUID f s = (Throw TypeError, s') /\
         unwritten s s'.
Proof.
  rewrite raw_formatFont_steps. cbv zeta.
  unfold installationsFormattable, unwritten.
  set (f1 := if String.eqb (rf_id f) sentinel then _ else f).
  set (s1 := if String.eqb (rf_id f) sentinel then _ else s).
  assert (Hw : st_written s1 = st_written s)
    by (subst s1; destruct (String.eqb (rf_id f) sentinel); reflexivity).
  assert (Hc : rf_categories f1 = rf_categories f)
    by (subst f1; destruct (String.eqb (rf_id f) sentinel); reflexivity).
  destruct (rf_installations f) as [l|].
  2:{ exists s1. split; [reflexivity|exact Hw]. }
  pose proof (forEach_decided (fun i => negb (lacksFiles i)) eq
                (fun _ _ => True) TypeError sortFiles
                (fun _ => eq_refl) (fun a b c => @eq_trans _ a b c)
                raw_sortFiles_decided
                (JS.sort sortByTypeThenLocalPathOrURL l) s1) as H.
  rewrite (forallb_perm _ _ l (sort_perm _ l)) in H.
  destruct (forallb _ l).
  - destruct H as (l' & s2 & E & <- & _). rewrite E.
    eexists. exists s1. split; [reflexivity|]. split; [exact Hw|].
    split; [exact Hc|reflexivity].
  - destruct H as (s2 & E & <-). rewrite E.
    exists s1. split; [reflexivity|exact Hw].
Qed.

Lemma raw_format_font_decided (f : RawFont) (s : State) :
  if present (rf_categories f) && present (rf_installations f)
  then exists o s', FormatRaw.font f s = (Ok o, s') /\ s = s' /\ True
  else exists s', FormatRaw.font f s = (Throw TypeError, s') /\ s = s'.
Proof.
  unfold FormatRaw.font.
  destruct (rf_categories f); [destruct (rf_installations f)|]; simpl;
    first [ eexists; eexists; split; [reflexivity|split; [reflexivity|exact I]]
          | eexists; split; reflexivity ].
Qed.

Lemma raw_sortGroupFonts_decided (g : RawGroup) (s : State) :
  if present (rg_fonts g)
  then exists g' s', FormatRaw.sortGroupFonts g s = (Ok g', s') /\
                     s = s' /\ True
  else exists s', FormatRaw.sortGroupFonts g s = (Throw TypeError, s') /\
                  s = s'.
Proof.
  unfold FormatRaw.sortGroupFonts. destruct (rg_fonts g); simpl;
    first [ eexists; eexists; split; [reflexivity|split; [reflexivity|exact I]]
          | eexists; split; reflexivity ].
Qed.

(** X11.  On a [fonts.json] whose attributes, where present, have their
    documented types, the format pass succeeds, and writes [fonts.json],
    exactly when the catalog has its [fonts] and its [groups], every
    font has its [categories] and its [installations], every group has
    its [fonts] and every [cabextract] installation has its [files].
    Otherwise it throws a [TypeError] and has written nothing, neither
    [fonts.json] nor [newUUIDs.json]. *)
Theorem format_outcome (fonts : RawCatalog) :
  (formattable fonts = true ->
   exists s' c, format randomUUID fonts = (Ok tt, s') /\
                In ("fonts.json", FontsJson c) (st_written s')) /\
  (formattable fonts = false ->
   exists s', format randomUUID fonts = (Throw TypeError, s') /\
              st_written s' = []).
Proof.
  unfold format, FormatRaw.main, formattable.
  destruct (rc_fonts fonts) as [fs|].
  2:{ split; [discriminate|]. intros _. exists start. split; reflexivity. }
  pose proof (forEach_decided installationsFormattable unwritten _ TypeError
                (FormatRaw.formatFont randomUUID)
                (fun _ => eq_refl)
                (fun a b c (H1 : unwritten a b) (H2 : unwritten b c) =>
                   eq_trans H2 H1)
                raw_formatFont_decided fs start) as Hloop.
  destruct (forallb installationsFormattable fs).
  2:{ destruct Hloop as (s1 & E & Hw).
      rewrite (bind_Throw _ _ _ _ _ E).
      split; [destruct (rc_groups fonts); discriminate|].
      intros _. exists s1. split; [reflexivity|exact Hw]. }
  destruct Hloop as (formatted & s1 & E & Hw & HF).
  rewrite (bind_Ok _ _ _ _ _ E).
  pose proof (forEach_decided
                (fun f => present (rf_categories f) &&
                          present (rf_installations f))
                eq (fun _ _ => True) TypeError FormatRaw.font
                (fun _ => eq_refl) (fun a b c => @eq_trans _ a b c)
                raw_format_font_decided
                (JS.sort (sortByName rf_name) formatted) s1) as Hfont.
  rewrite (forallb_perm _ _ formatted (sort_perm _ formatted)) in Hfont.
  rewrite (forallb_Forall2 (fun f => present (rf_categories f)) _ _ fs
             formatted
             (fun x y (H : rf_categories y = rf_categories x /\
                           present (rf_installations y) = true) =>
                match H with
                | conj Hc Hi =>
                    eq_trans (f_equal2 andb (f_equal present Hc) Hi)
                             (andb_true_r _)
                end)
             HF) in Hfont.
  destruct (forallb (fun f => present (rf_categories f)) fs).
  2:{ destruct Hfont as (s2 & E2 & <-).
      rewrite (bind_Throw _ _ _ _ _ E2).
      split; [destruct (rc_groups fonts); discriminate|].
      intros _. exists s1. split; [reflexivity|exact Hw]. }
  destruct Hfont as (objs & s2 & E2 & <- & _).
  rewrite (bind_Ok _ _ _ _ _ E2).
  destruct (rc_groups fonts) as [gs|].
  2:{ split; [discriminate|]. intros _. exists s1.
      split; [reflexivity|exact Hw]. }
  pose proof (forEach_decided (fun g => present (rg_fonts g)) eq
                (fun _ _ => True) TypeError FormatRaw.sortGroupFonts
                (fun _ => eq_refl) (fun a b c => @eq_trans _ a b c)
                raw_sortGroupFonts_decided gs s1) as Hgroups.
  simpl. destruct (forallb (fun g => present (rg_fonts g)) gs).
  - destruct Hgroups as (groups & s3 & E3 & <- & _).
    rewrite (bind_Ok _ _ _ _ _ E3).
    split; [|discriminate]. intros _.
    unfold bind, writeFileSync, modify, gets, ret. simpl.
    destruct (1 <? List.length (st_newUUIDs s1))%nat;
      eexists; eexists; (split; [reflexivity|]); simpl;
      rewrite Hw; simpl; auto.
  - destruct Hgroups as (s3 & E3 & <-).
    rewrite (bind_Throw _ _ _ _ _ E3).
    split; [discriminate|]. intros _. exists s1.
    split; [reflexivity|exact Hw].
Qed.

End RawFormat.

(** X11, on a catalog without [groups] and on one whose [cabextract]
    installation has no [files]. *)
Lemma format_outcome_witness :
  (exists s', RawSpec.format Examples.ex_uuid RawExamples.ex_noGroups
                = (Throw TypeError, s') /\
              Format.st_written s' = []) /\
  (exists s', RawSpec.format Examples.ex_uuid RawExamples.ex_noFiles
                = (Throw TypeError, s') /\
              Format.st_written s' = []) /\
  (exists s' c,
     RawSpec.format Examples.ex_uuid
       (RawSpec.ofCatalog Examples.ex_licensed) = (Ok tt, s') /\
     In ("fonts.json", Format.FontsJson c) (Format.st_written s')).
Proof.
  split; [|split].
  - exact (proj2 (format_outcome Examples.ex_uuid RawExamples.ex_noGroups)
             eq_refl).
  - exact (proj2 (format_outcome Examples.ex_uuid RawExamples.ex_noFiles)
             eq_refl).
  - exact (proj1 (format_outcome Examples.ex_uuid
                    (RawSpec.ofCatalog Examples.ex_licensed)) eq_refl).
Defined.
